(* ===== verification/_CoqProject ===== *)
-Q . S2P
Prelude.v
SearchTypes.v
Engines.v
Fzf.v
Highlighter.v
SearchService.v
MyLib.v
GetAllFiles.v
FloatingWindow.v
CommandRegistry.v
Assets.v
ElasticService.v
PluginSetting.v
DevTest.v
PluginManager.v
Tokenizer.v
EditDistance.v
LexicalIndex.v
LexicalSearch.v
LexicalEngine.v
Rebuild.v
