(* ===== verification/Prelude.v ===== *)
(** * Clever Search: a verification development (root file)

    PROGRAM.  obsidian-clever-search is an Obsidian plugin that searches
    a vault of notes.  Its sources under src/ are the orchestration layer
    of the search and its user interface: the data types exchanged
    between the engines and the UI (globals/search-types.ts), the search
    service that wires the lexical engine, the line highlighter and the
    host application together (services/obsidian/search-service.ts), the
    plugin start-up and the private Obsidian API wrappers
    (services/obsidian/plugin-manager.ts, private-api.ts), an earlier
    Elasticsearch-based service (search-service.ts), the floating window
    of the in-file search (ui/floating-window.ts), the command and hotkey
    registry (services/obsidian/command-registry.ts), the assets provider
    that downloads tokenizer resources (utils/web/assets-provider.ts),
    string and file helpers (utils/my-lib.ts), the settings and their
    defaults (globals/plugin-setting.ts) and the developer test command
    (dev-test.ts).  The engines the service calls (tokenizer, document
    index and query processor, fuzzy line matcher, highlighter, FileUtil)
    are not under src/: they are modelled from the specification
    (spec_modelled in the manifest) and plugged into the service through
    the interfaces of Engines.v.

    FILES.  Each file holds one component in a Module of the same name.
    - Prelude (this file): JavaScript strings as UTF-16 code units
      ([jstr := list Z], [js "..."] for ASCII literals), [split_on],
      [join], [remove_ws], [take_while], [js_or] for [a || b], decimal
      printing [string_of_Z] and parsing [Z_of_jstr] with their round trip,
      the hint databases [cs] and [cs_rw], and generic list lemmas.
    - SearchTypes: the records and enums of search-types.ts.
    - Engines: the interfaces the search service uses, as typeclasses
      with laws: [LineMatcher]/[LineMatcherLaws] (searchLines, fzfMatch),
      [LineHighlighter]/[LineHighlighterLaws] (parse), [LexicalEngine], and
      the [Host] record (active file, file contents, persisted snapshot).
    - Fzf and Highlighter: models of the line matcher (greedy subsequence
      alignment, ranking by score then row, limit) and of the highlighter
      (line and paragraph excerpts) that discharge the laws.
    - SearchService: searchInFile, getFileSubItems, searchInVault,
      deprecatedSearchInFile and initSearchEngines, written in Sections
      whose Context is the interfaces, so the theorems hold for every
      engine satisfying the laws; an end-to-end example runs them on the
      models.
    - MyLib: getBasename, getExtension, extractDomainFromHttpsUrl (its
      regular expression as a greedy scan), formatMillis
      (round trip through a decoder), isDevEnvironment, currModifier and
      monitorExecution.
    - GetAllFiles: the awaited recursive directory traversal over a file
      system whose readdir and stat may reject.
    - FloatingWindow: the window object as a record, each handler as a
      state transformer, document events delivered to the registered
      listeners in order, [step]/[run] on UI events, and [reachable] as the
      inductive closure from the initial state.
    - CommandRegistry: navigation hotkeys against an interface of
      Obsidian's Scope ([KeyScope] with [KeyScopeLaws], discharged by a
      list model), and the commands with their callbacks' effects.
    - Assets: downloadFile and initAsync in a state-and-error monad over
      the disk, the network and the shared assets object.
    - ElasticService: the watchers of the earlier service and its single
      debounced indexer as a timed state machine over the disk and the
      Elasticsearch index, with a server that accepts or rejects each
      request; its search call.
    - PluginSetting: the settings records, DEFAULT_OUTER_SETTING as a
      function of the dev flag and the stored language, and the search
      weights of innerSetting as rationals; composed with Assets.initAsync.
    - DevTest and PluginManager: the developer tests and the start-up
      sequence as effect lists, tsyringe's container behind getInstance
      (singleton classes cached, others built afresh), and the private
      API wrappers.
    - Tokenizer (spec 4.1): maximal script runs, Latin lower-casing, the
      CJK segmenter as an interface with laws ([Segmenter]), stop-word
      filtering per script that never empties a field, fine-mode query
      parsing; a forward maximum-matching segmenter instance.
    - EditDistance: the Levenshtein distance and the row-by-row programme
      of fuzzy matching.
    - LexicalIndex (spec 3, 4.2): the document index (documents by path
      with ids never reused, the inverse id table, postings with term
      frequency per field) with upsert, remove, reindexAll and a run of
      notifications, its invariant [wf], and its abstraction [fields_of]
      (path to tokenized fields).
    - LexicalSearch (spec 4.2, 4.3): exact, prefix and fuzzy term
      matching with the innerSetting thresholds, tf-idf scoring with the
      innerSetting field weights, AND/OR qualification, ranking and the
      cap, on the postings ([search]) and on the abstraction
      ([ref_search]).
    - LexicalEngine: the query properties stated on the documents,
      persisted snapshots, the instance of the [LexicalEngine] interface,
      and its composition with the vault search of SearchService.
    - Rebuild (spec 5, 6, 7): full rebuilds as tasks of the cooperative
      scheduler that read the corpus file by file, skip and count failed
      reads and commit atomically, only for the latest generation; the
      engine state as a record with a step function, its reachable
      states as an inductive predicate; the versioned snapshot at
      start-up.

    THEOREMS.  Per component: soundness of what the in-file search
    returns (rows, columns and limits) and its guards; the matcher's alignment is the earliest one, its result
    ranked by score then row; the paragraph excerpt is the maximal run of
    non-blank rows around the match; the window invariant
    (listeners exactly while mounted, minimum sizes) holds in every
    reachable state, and in every reachable state with a drag under way
    closing the window leaves the drag live; the file listing is sound and
    terminates on bounded trees and fails on a symbolic-link cycle once
    the operating system answers ELOOP; hotkeys leave no trace after
    unregistering; downloads never overwrite an existing asset, and a
    write that runs out of space leaves a truncated asset that later runs
    accept; the capped lexical results come in rank order; with spaced events the
    debounced indexer refines an immediate one, the last change is
    indexed when the server accepts it, a rejected request is never
    retried, and overlapping watched paths change nothing.  For the
    lexical engine: every reachable index is
    well formed and never reuses an id; the query over the postings
    refines the query over the documents, from which follow soundness and
    completeness of the results, that removed files are never returned,
    that and-results are or-results without a cap, that rebuilding is
    idempotent and a persisted snapshot answers as the index it came
    from; no token mixes scripts; the row-by-row edit distance is the
    Levenshtein distance; and the vault search on this engine lists
    exactly the matching documents; a started rebuild supersedes every
    earlier one whatever the interleaving, so queries never see a partial
    or superseded index, completes after one read per file with the
    failed reads counted, and a snapshot of another version or one that
    fails to load leads to a rebuild.  Examples and error theorems document
    the defects listed as findings in the manifest (stale drag,
    unconditional save, substring blacklist, FileExtension.ALL, symlink
    cycles, hotkey leak, aborted asset loading, the truncated asset, the shared debounce, the
    unretried index request, the capped and/or subset, the file event
    lost by a rebuild's commit).

    BOUNDS AND FUEL.  [para_end_aux] walks down with fuel [length texts],
    enough because each step moves one row and stops at the last row.
    [traverse] takes the recursion depth as fuel; [getAllFiles_terminates]
    shows that the depth of the directory tree is enough and that more
    fuel changes nothing; on a symbolic-link cycle the file system itself
    rejects a path through more than MAXSYMLINKS = 40 links (Linux's
    ELOOP), so the traversal fails with any fuel above 40.  [fmm]
    segments with fuel the length of the run, enough since every step consumes at least one code
    unit.  Integers (pixel offsets, milliseconds, scores) are unbounded
    [Z]: the JavaScript numbers involved stay far below 2^53.

    NOT MODELLED.  I/O with no logic of its own (logging, console output,
    Svelte mounting and styling calls the handlers never read), the
    freshness test of a snapshot by file modification times at start-up
    (a snapshot is taken as loaded or not), lower-casing beyond ASCII
    (JavaScript's toLowerCase maps every Unicode letter; [to_lower] maps
    A-Z only), the Elasticsearch server beyond its index map and its availability (the
    search request is a parameter of the earlier service), the
    vault's private getConfig (a parameter of testUnsupportedExtensions),
    and the Jest tests of NLP helpers
    (nlp.test.ts) whose implementation utils/nlp.ts is not in the
    snapshot.  Of the engines: jieba's probabilistic segmenter is only the
    [Segmenter] interface (an example instance is given), MiniSearch's
    radix tree is replaced by a map of terms (same answers, not the same
    cost); the operations of the index itself (upsert, remove) are each
    one atomic function, so no query observes a partial write, while a
    full rebuild is a sequence of scheduler steps (Rebuild.v). *)

From stdpp Require Export base list gmap strings sorting.
From Stdlib Require Export ZArith.
From Stdlib Require Import Ascii String DecimalString DecimalZ.

(** ** JavaScript strings as UTF-16 code units *)

Abbreviation jstr := (list Z).

Declare Scope cs_scope.
Delimit Scope cs_scope with cs.

Definition js (s : string) : jstr :=
  map (λ a, Z.of_nat (nat_of_ascii a)) (list_ascii_of_string s).

Local Open Scope Z_scope.

(** Code units used by the sources as separators. *)
Definition SLASH : Z := 47.
Definition DOT : Z := 46.
Definition HYPHEN : Z := 45.
Definition LF : Z := 10.
Definition CR : Z := 13.
Definition SPACE : Z := 32.

(** The JavaScript [\s] class (ECMAScript WhiteSpace and LineTerminator). *)
Definition is_js_space (c : Z) : bool :=
  (9 <=? c) && (c <=? 13) || (c =? 32) || (c =? 160) || (c =? 5760)
  || (8192 <=? c) && (c <=? 8202) || (c =? 8232) || (c =? 8233)
  || (c =? 8239) || (c =? 8287) || (c =? 12288) || (c =? 65279).

(** The JavaScript [\w] class without the [u] flag: [A-Za-z0-9_]. *)
Definition is_word_char (c : Z) : bool :=
  (48 <=? c) && (c <=? 57) || (65 <=? c) && (c <=? 90)
  || (97 <=? c) && (c <=? 122) || (c =? 95).

(** [String.prototype.toLowerCase] on the ASCII range. *)
Definition to_lower (c : Z) : Z := if (65 <=? c) && (c <=? 90) then c + 32 else c.

Local Close Scope Z_scope.

(** [s.split(c)] for a one-code-unit separator [c]. *)
Fixpoint split_on (c : Z) (s : jstr) : list jstr :=
  match s with
  | [] => [[]]
  | x :: r =>
      let rest := split_on c r in
      if Z.eqb x c then [] :: rest
      else match rest with
           | w :: ws => (x :: w) :: ws
           | [] => [[x]]
           end
  end.

(** [parts.join(sep)]. *)
Fixpoint join (sep : jstr) (l : list jstr) : jstr :=
  match l with
  | [] => []
  | [w] => w
  | w :: ws => w ++ sep ++ join sep ws
  end.

(** [s.replace(/\s/g, "")]. *)
Definition remove_ws (s : jstr) : jstr := filter (λ c, negb (is_js_space c)) s.

(** [s.startsWith(p)]. *)
Definition starts_with (p s : jstr) : bool := bool_decide (p `prefix_of` s).

(** [s.includes(needle)] *)
Fixpoint includes (needle s : jstr) : bool :=
  starts_with needle s || match s with [] => false | _ :: t => includes needle t end.

(** Longest prefix whose code units satisfy [f]. *)
Fixpoint take_while (f : Z → bool) (s : jstr) : jstr :=
  match s with
  | x :: r => if f x then x :: take_while f r else []
  | [] => []
  end.

(** JavaScript truthiness of a string, used by [a || b]. *)
Definition js_or (a b : jstr) : jstr := match a with [] => b | _ => a end.

Lemma js_or_nonempty a b : a ≠ [] → js_or a b = a.
Proof. by destruct a. Qed.

Lemma js_or_nil_r a : js_or a [] = a.
Proof. by destruct a. Qed.

Lemma js_or_not_nil a b : b ≠ [] → js_or a b ≠ [].
Proof. by destruct a. Qed.

(** ** Automation *)

Create HintDb cs discriminated.
Create Rewrite HintDb cs_rw.

Ltac bool_props :=
  repeat match goal with
  | H : (_ && _)%bool = true |- _ => apply andb_true_iff in H as [? ?]
  | H : (_ || _)%bool = false |- _ => apply orb_false_iff in H as [? ?]
  | H : Z.eqb _ _ = true |- _ => apply Z.eqb_eq in H
  | H : Z.eqb _ _ = false |- _ => apply Z.eqb_neq in H
  | H : Nat.eqb _ _ = true |- _ => apply Nat.eqb_eq in H
  | H : Nat.eqb _ _ = false |- _ => apply Nat.eqb_neq in H
  | H : Nat.ltb _ _ = true |- _ => apply Nat.ltb_lt in H
  | H : Nat.ltb _ _ = false |- _ => apply Nat.ltb_ge in H
  end.

(** ** Generic lemmas on [split_on] and [join] *)

Lemma split_on_not_nil c s : split_on c s ≠ [].
Proof.
  destruct s as [|x r]; simpl; [done|].
  destruct (Z.eqb x c); [done|]. by destruct (split_on c r).
Qed.

Lemma split_on_no_sep c s : c ∉ s → split_on c s = [s].
Proof.
  induction s as [|x r IH]; intros Hc; simpl; [done|].
  rewrite IH by set_solver.
  destruct (Z.eqb_spec x c); [subst; set_solver|done].
Qed.

Lemma split_on_app_sep c a b :
  split_on c (a ++ c :: b) = split_on c a ++ split_on c b.
Proof.
  induction a as [|x r IH]; simpl.
  - by rewrite Z.eqb_refl.
  - rewrite IH. destruct (Z.eqb x c); [done|].
    destruct (split_on c r) eqn:E; [by apply split_on_not_nil in E|done].
Qed.

Lemma join_cons_cons sep w w' ws :
  join sep (w :: w' :: ws) = w ++ sep ++ join sep (w' :: ws).
Proof. done. Qed.

Lemma join_split c s : join [c] (split_on c s) = s.
Proof.
  induction s as [|x r IH]; simpl; [done|].
  destruct (split_on c r) as [|w ws] eqn:E; [by apply split_on_not_nil in E|].
  destruct (Z.eqb_spec x c) as [->|Hne].
  - rewrite join_cons_cons. by rewrite <- IH.
  - destruct ws as [|w' ws]; [simpl in *; by subst|].
    rewrite join_cons_cons in IH |- *. by rewrite <- IH.
Qed.

Lemma split_on_pieces c s w : w ∈ split_on c s → c ∉ w ∧ w ⊆ s.
Proof.
  revert w. induction s as [|x r IH]; intros w Hw; simpl in Hw.
  - apply list_elem_of_singleton in Hw as ->. set_solver.
  - destruct (Z.eqb_spec x c) as [->|Hne].
    + apply elem_of_cons in Hw as [->|Hw]; [set_solver|].
      destruct (IH w Hw). set_solver.
    + destruct (split_on c r) as [|w0 ws] eqn:E; [by apply split_on_not_nil in E|].
      apply elem_of_cons in Hw as [->|Hw].
      * destruct (IH w0) as [??]; [set_solver|]. split; [set_solver|].
        intros y Hy. apply elem_of_cons in Hy as [->|Hy]; set_solver.
      * destruct (IH w) as [??]; [set_solver|]. set_solver.
Qed.

Lemma join_elem sep l y : y ∈ join sep l → y ∈ sep ∨ ∃ w, w ∈ l ∧ y ∈ w.
Proof.
  induction l as [|w [|w' ws] IH]; simpl; intros Hy.
  - set_solver.
  - right. exists w. set_solver.
  - apply elem_of_app in Hy as [Hy|Hy]; [right; exists w; set_solver|].
    apply elem_of_app in Hy as [Hy|Hy]; [by left|].
    destruct (IH Hy) as [?|(w0 & ? & ?)]; [by left|right; exists w0; set_solver].
Qed.

Lemma remove_ws_no_space s c : c ∈ remove_ws s → is_js_space c = false.
Proof.
  unfold remove_ws. intros [H _]%list_elem_of_filter.
  by destruct (is_js_space c).
Qed.

Lemma split_on_join c ws :
  ws ≠ [] → Forall (λ w, c ∉ w) ws → split_on c (join [c] ws) = ws.
Proof.
  induction ws as [|w [|w' ws] IH]; intros Hne Hws; [done| |].
  - apply Forall_inv in Hws. by apply split_on_no_sep.
  - apply Forall_cons in Hws as [Hw Hws]. rewrite join_cons_cons. cbn [app].
    rewrite split_on_app_sep, split_on_no_sep, IH by done. done.
Qed.

Lemma includes_absent needle s c : c ∈ needle → c ∉ s → includes needle s = false.
Proof.
  intros Hn Hs. induction s as [|x s IH]; simpl.
  - unfold starts_with. rewrite bool_decide_eq_false_2; [done|].
    intros [k Hk]. destruct needle; [set_solver|discriminate].
  - unfold starts_with. rewrite bool_decide_eq_false_2; [apply IH; set_solver|].
    intros [k Hk]. apply Hs. rewrite Hk. set_solver.
Qed.

#[export] Hint Resolve split_on_not_nil : cs.
#[export] Hint Rewrite split_on_app_sep join_split : cs_rw.

(** ** Generic list lemmas *)

Lemma StronglySorted_take {A} (R : relation A) (l : list A) n :
  StronglySorted R l → StronglySorted R (take n l).
Proof.
  revert n. induction l as [|x l IH]; intros [|n] H; simpl; try apply SSorted_nil.
  inversion H as [|? ? Hs Hf]; subst. apply SSorted_cons; [by apply IH|].
  apply Forall_forall. intros y Hy. apply elem_of_take in Hy as (i & Hi & _).
  rewrite Forall_forall in Hf. apply Hf. by eapply list_elem_of_lookup_2.
Qed.

Lemma elem_of_take_inv {A} (x : A) n l : x ∈ take n l → x ∈ l.
Proof. intros (i & Hi & _)%elem_of_take. by eapply list_elem_of_lookup_2. Qed.

(** In a strongly sorted list every element is related to every later
    one. *)
Lemma StronglySorted_lookup {A} (R : relation A) (l : list A) i j x y :
  StronglySorted R l → i < j → l !! i = Some x → l !! j = Some y → R x y.
Proof.
  intros Hs. revert i j. induction Hs as [|z l Hs IH Hf]; intros i j Hij Hi Hj; [done|].
  destruct i as [|i], j as [|j]; simpl in *; [lia| |lia|].
  - simplify_eq. rewrite Forall_forall in Hf. apply Hf. by eapply list_elem_of_lookup_2.
  - apply (IH i j); [lia|done|done].
Qed.

#[export] Hint Resolve StronglySorted_take elem_of_take_inv : cs.

Lemma list_filter_all {A} (P : A → Prop) `{∀ x, Decision (P x)} (l : list A) :
  (∀ x, x ∈ l → P x) → filter P l = l.
Proof.
  induction l as [|x l IH]; intros Hl; [done|].
  rewrite filter_cons_True by (apply Hl; left). f_equal. apply IH. intros y Hy. apply Hl. by right.
Qed.

Lemma list_filter_none {A} (P : A → Prop) `{∀ x, Decision (P x)} (l : list A) :
  (∀ x, x ∈ l → ¬ P x) → filter P l = [].
Proof.
  induction l as [|x l IH]; intros Hl; [done|].
  rewrite filter_cons_False by (apply Hl; left). apply IH. intros y Hy. apply Hl. by right.
Qed.

Lemma length_omap_le {A B} (f : A → option B) (l : list A) :
  Datatypes.length (omap f l) ≤ Datatypes.length l.
Proof. induction l as [|x l IH]; cbn; [lia|]. destruct (f x); cbn; lia. Qed.

(** ** Numbers as strings *)

(** [`${n}`] for an integer [n]: its decimal digits, with a leading "-"
    when negative. *)
Definition string_of_Z (z : Z) : jstr := js (NilZero.string_of_int (Z.to_int z)).

(** Code units back to a Rocq string (the inverse of [js] on ASCII). *)
Definition unjs (s : jstr) : string :=
  string_of_list_ascii (map (λ c, ascii_of_nat (Z.to_nat c)) s).

(** Decimal parsing of an integer, [Number.parseInt] on well-formed input. *)
Definition Z_of_jstr (s : jstr) : option Z := Z.of_int <$> NilZero.int_of_string (unjs s).

Lemma unjs_js s : unjs (js s) = s.
Proof.
  unfold unjs, js. rewrite map_map.
  rewrite (map_ext _ (λ a, a)); [by rewrite map_id, string_of_list_ascii_of_string|].
  intros a. by rewrite Nat2Z.id, ascii_nat_embedding.
Qed.

Lemma Z_to_int_not_nil z :
  Z.to_int z ≠ Decimal.Pos Decimal.Nil ∧ Z.to_int z ≠ Decimal.Neg Decimal.Nil.
Proof.
  split; intros E; pose proof (DecimalZ.of_to z) as Hz; rewrite E in Hz;
    vm_compute in Hz; subst z; vm_compute in E; discriminate.
Qed.

Lemma Z_of_string_of_Z z : Z_of_jstr (string_of_Z z) = Some z.
Proof.
  unfold Z_of_jstr, string_of_Z. rewrite unjs_js.
  destruct (Z_to_int_not_nil z) as [H1 H2]. rewrite NilZero.isi by done.
  simpl. by rewrite DecimalZ.of_to.
Qed.

Lemma string_of_uint_digits d c :
  c ∈ js (NilEmpty.string_of_uint d) → (48 ≤ c ≤ 57)%Z.
Proof.
  induction d; simpl; [set_solver|..];
    intros [->|?]%elem_of_cons; try (by apply IHd); vm_compute; split; discriminate.
Qed.

Lemma nilzero_digits d c : c ∈ js (NilZero.string_of_uint d) → (48 ≤ c ≤ 57)%Z.
Proof. destruct d; [exact (string_of_uint_digits (Decimal.D0 Decimal.Nil) c)|apply string_of_uint_digits..]. Qed.

(** A printed integer is made of digits and possibly a leading "-". *)
Lemma string_of_Z_chars z c : c ∈ string_of_Z z → c = HYPHEN ∨ (48 ≤ c ≤ 57)%Z.
Proof.
  unfold string_of_Z, NilZero.string_of_int. destruct (Z.to_int z) as [d|d]; intros H.
  - right. by eapply nilzero_digits.
  - change (c ∈ 45%Z :: js (NilZero.string_of_uint d)) in H.
    apply elem_of_cons in H as [->|H]; [by left|right; by eapply nilzero_digits].
Qed.

Lemma string_of_Z_no_space z : SPACE ∉ string_of_Z z.
Proof. intros [H|H]%string_of_Z_chars; [discriminate|unfold SPACE in H; lia]. Qed.

Lemma string_of_Z_not_nil z : string_of_Z z ≠ [].
Proof.
  intros E. apply (f_equal Z_of_jstr) in E. rewrite Z_of_string_of_Z in E. discriminate.
Qed.

Lemma string_of_Z_inj z1 z2 : string_of_Z z1 = string_of_Z z2 → z1 = z2.
Proof.
  intros E. apply (f_equal Z_of_jstr) in E. rewrite !Z_of_string_of_Z in E. congruence.
Qed.
