(* ===== verification/SearchTypes.v ===== *)
(** * SearchTypes: the data exchanged by the search components

    Models src/globals/search-types.ts.  TypeScript classes and object
    types become records, enums and the [Item] class hierarchy become
    inductive types (one constructor per subclass, so that the
    [instanceof] dispatch of the UI is a pattern match).  A TypeScript
    intersection such as [Line & { col: number }] is a record with the
    fields of both parts.  [Set<number>] of matched columns is a list of
    columns without duplicates (the engines produce it increasing). *)

From S2P Require Import Prelude.
From Stdlib Require Import QArith_base.

(** [class Line { text: string; row: number }] *)
Record Line := mkLine { text : jstr; row : nat }.

(** [type HighlightedContext = Line & { col: number }] *)
Record HighlightedContext := mkHighlighted { hc_text : jstr; hc_row : nat; hc_col : nat }.

(** [type MatchedLine = Line & { positions: Set<number> }] *)
Record MatchedLine := mkMatched { ml_text : jstr; ml_row : nat; positions : list nat }.

(** The [Line] part of a matched line. *)
Definition ml_line (m : MatchedLine) : Line := mkLine (ml_text m) (ml_row m).

(** [type MatchedFile = { path: string; matchedTerms: string[] }] *)
Record MatchedFile := mkMatchedFile { mf_path : jstr; matchedTerms : list jstr }.

(** [enum SearchType { NONE, IN_FILE, IN_VAULT }] *)
Inductive SearchType := NONE | IN_FILE | IN_VAULT.

(** [enum EngineType { LEXICAL, SEMANTIC }] *)
Inductive EngineType := LEXICAL | SEMANTIC.

(** [class FileSubItem extends Item { text; row; col }] *)
Record FileSubItem := mkFileSubItem { fsi_text : jstr; fsi_row : nat; fsi_col : nat }.

(** Run-time values stored in fields typed [any] ([previewContent]) or
    passed positionally to a constructor whatever their declared type. *)
Inductive JsValue :=
  | JsUndefined
  | JsString (s : jstr)
  | JsSubItems (l : list FileSubItem).

(** [abstract class Item] and its subclasses [LineItem], [FileItem] and
    [FileSubItem]. *)
Inductive Item :=
  | LineItem (line : HighlightedContext) (context : jstr)
  | FileItem (engineType : EngineType) (path : jstr) (matchedTerms : list jstr)
      (subItems : JsValue) (previewContent : JsValue)
  | SubItem (s : FileSubItem).

(** [class SearchResult { currPath: string; items: Item[] }] *)
Record SearchResult := mkSearchResult { currPath : jstr; items : list Item }.

(** [type IndexedDocument = { path; basename; folder; aliases?; content? }] *)
Record IndexedDocument := mkIndexedDocument {
  doc_path : jstr;
  doc_basename : jstr;
  doc_folder : jstr;
  doc_aliases : option jstr;
  doc_content : option jstr
}.

(** [keyof IndexedDocument], the fields a [DocumentWeight] may weigh. *)
Inductive DocField := F_path | F_basename | F_folder | F_aliases | F_content.

(** [type DocumentWeight = { [K in keyof IndexedDocument]?: number }]:
    an optional weight per field. *)
Definition DocumentWeight : Type := DocField → option Q.

(** [type DocumentRef = { id?; path; lexicalMtime; embeddingMtime }] *)
Record DocumentRef := mkDocumentRef {
  ref_id : option nat;
  ref_path : jstr;
  lexicalMtime : Z;
  embeddingMtime : Z
}.

(** [type InFileDataSource = { lines: Line[]; path: string }] *)
Record InFileDataSource := mkInFileDataSource { ds_lines : list Line; ds_path : jstr }.

(** [type LineFields = Array<keyof Line>] *)
Inductive LineField := LF_text | LF_row.
Definition LineFields : Type := list LineField.

(** [type Location = { row; col }] *)
Record Location := mkLocation { loc_row : nat; loc_col : nat }.

(** The lines of a file as the services build them:
    [content.split(EOL).map((text, index) => new Line(text, index))]. *)
Definition to_lines (texts : list jstr) : list Line := imap (λ i t, mkLine t i) texts.

#[export] Instance Line_eq_dec : EqDecision Line.
Proof. solve_decision. Defined.
#[export] Instance HighlightedContext_eq_dec : EqDecision HighlightedContext.
Proof. solve_decision. Defined.
#[export] Instance MatchedLine_eq_dec : EqDecision MatchedLine.
Proof. solve_decision. Defined.
#[export] Instance MatchedFile_eq_dec : EqDecision MatchedFile.
Proof. solve_decision. Defined.
#[export] Instance SearchType_eq_dec : EqDecision SearchType.
Proof. solve_decision. Defined.
#[export] Instance EngineType_eq_dec : EqDecision EngineType.
Proof. solve_decision. Defined.
#[export] Instance FileSubItem_eq_dec : EqDecision FileSubItem.
Proof. solve_decision. Defined.
#[export] Instance JsValue_eq_dec : EqDecision JsValue.
Proof. solve_decision. Defined.
#[export] Instance Item_eq_dec : EqDecision Item.
Proof. solve_decision. Defined.
#[export] Instance DocField_eq_dec : EqDecision DocField.
Proof. solve_decision. Defined.
#[export] Instance IndexedDocument_eq_dec : EqDecision IndexedDocument.
Proof. solve_decision. Defined.

(** ** Lemmas on [to_lines] *)

Lemma to_lines_lookup texts i :
  to_lines texts !! i = (λ t, mkLine t i) <$> texts !! i.
Proof. unfold to_lines. by rewrite list_lookup_imap. Qed.

Lemma to_lines_elem texts l :
  l ∈ to_lines texts ↔ texts !! row l = Some (text l).
Proof.
  rewrite list_elem_of_lookup. split.
  - intros [i Hi]. rewrite to_lines_lookup in Hi.
    destruct (texts !! i) as [t|] eqn:E; [|done]. injection Hi as <-. exact E.
  - intros H. exists (row l). rewrite to_lines_lookup, H. by destruct l.
Qed.

Lemma length_to_lines texts : length (to_lines texts) = length texts.
Proof. apply length_imap. Qed.

#[export] Hint Rewrite to_lines_lookup length_to_lines : cs_rw.
