(* ===== verification/Engines.v ===== *)
(** * Engines: the interfaces between the search service and its engines

    services/obsidian/search-service.ts calls four collaborators whose
    sources are not in the snapshot under src/: [LexicalEngine]
    (services/search/search-engine.ts), [LineHighlighter]
    (services/search/highlighter.ts), [DataProvider] and [FileUtil].
    Each is stated here as a typeclass of operations, with a second class
    of laws: the contract the service relies on.  The service's theorems
    (SearchService.v) are proved against these classes; the models of the
    engines built from the specification (Fzf.v, Highlighter.v,
    LexicalIndex.v) discharge the laws. *)

From S2P Require Import Prelude SearchTypes.

(** [searchFiles(query, mode: "and" | "or")] *)
Inductive SearchMode := ModeAnd | ModeOr.

(** [parse(lines, matchedLine, "line" | "paragraph" | "subItem", expand)] *)
Inductive HighlightMode := HlLine | HlParagraph | HlSubItem.

(** [FileUtil.getFileType]: the enum of utils/file-util.ts. *)
Inductive FileType := PLAIN_TEXT | IMAGE | UNSUPPORTED.

(** [type LocatableFile = Location & { type: FileType; path: string }]
    (globals/search-types.ts). *)
Record LocatableFile := mkLocatableFile {
  lf_row : nat; lf_col : nat; lf_type : FileType; lf_path : jstr
}.

#[export] Instance SearchMode_eq_dec : EqDecision SearchMode.
Proof. solve_decision. Defined.
#[export] Instance HighlightMode_eq_dec : EqDecision HighlightMode.
Proof. solve_decision. Defined.
#[export] Instance FileType_eq_dec : EqDecision FileType.
Proof. solve_decision. Defined.

(** [FileUtil.SPLIT_EOL = /\r?\n|\r/]: [content.split(SPLIT_EOL)]. *)
Fixpoint split_eol (s : jstr) : list jstr :=
  match s with
  | [] => [[]]
  | 13 :: 10 :: r => [] :: split_eol r
  | 13 :: r => [] :: split_eol r
  | 10 :: r => [] :: split_eol r
  | x :: r =>
      match split_eol r with
      | w :: ws => (x :: w) :: ws
      | [] => [[x]]
      end
  end%Z.

(** ** The fuzzy line matcher of the lexical engine *)

Class LineMatcher := {
  (** [lexicalEngine.searchLines(lines, queryText, limit)] *)
  searchLines : list Line → jstr → nat → list MatchedLine;
  (** [lexicalEngine.fzfMatch(query, lines)] *)
  fzfMatch : jstr → list Line → list MatchedLine
}.

(** A matched line is one of the input lines and its columns are
    non-empty, strictly increasing and inside its text. *)
Definition match_valid (lines : list Line) (m : MatchedLine) : Prop :=
  ml_line m ∈ lines ∧ positions m ≠ [] ∧ StronglySorted lt (positions m) ∧
  Forall (λ p, p < length (ml_text m)) (positions m).

Class LineMatcherLaws `{LineMatcher} := {
  fzfMatch_valid q lines m : m ∈ fzfMatch q lines → match_valid lines m;
  fzfMatch_positions q lines m : m ∈ fzfMatch q lines → length (positions m) = length q;
  fzfMatch_nil lines : fzfMatch [] lines = [];
  searchLines_valid lines q n m : m ∈ searchLines lines q n → match_valid lines m;
  searchLines_limit lines q n : length (searchLines lines q n) ≤ n
}.

(** ** The line highlighter *)

Class LineHighlighter := {
  (** [lineHighlighter.parse(lines, matchedLine, mode, expandContext)] *)
  parse : list Line → MatchedLine → HighlightMode → bool → HighlightedContext;
  (** [lineHighlighter.parseLineItems(lines, queryText)] (deprecated path) *)
  parseLineItems : list Line → jstr → list Item
}.

(** [lineHighlighter.parseAll(lines, matchedLines, mode, expandContext)] *)
Definition parseAll `{LineHighlighter} (lines : list Line) (ms : list MatchedLine)
    (mode : HighlightMode) (expand : bool) : list HighlightedContext :=
  (λ m, parse lines m mode expand) <$> ms.

(** In the single-line modes the highlighter keeps the line and points
    [col] at one of the matched columns. *)
Class LineHighlighterLaws `{LineHighlighter} := {
  parse_single_line lines m mode e :
    mode ≠ HlParagraph →
    hc_text (parse lines m mode e) = ml_text m ∧ hc_row (parse lines m mode e) = ml_row m ∧
    (positions m ≠ [] → hc_col (parse lines m mode e) ∈ positions m)
}.

(** ** The vault-wide lexical engine *)

(** [reIndexAll] accepts either documents or a persisted snapshot
    ([IndexedDocument[] | AsPlainObject]). *)
Inductive ReindexSource (Snapshot : Type) :=
  | FromDocuments (docs : list IndexedDocument)
  | FromSnapshot (s : Snapshot).
Arguments FromDocuments {_} _.
Arguments FromSnapshot {_} _.

Class LexicalEngine (E Snapshot : Type) := {
  (** [lexicalEngine.searchFiles(queryText, mode)] *)
  searchFiles : E → jstr → SearchMode → list MatchedFile;
  (** [lexicalEngine.reIndexAll(source)] *)
  reIndexAll : E → ReindexSource Snapshot → E
}.

(** ** The host application *)

(** What the service reads from Obsidian ([app.workspace.getActiveFile()])
    and from [DataProvider] ([readPlainText], [generateAllIndexedDocuments])
    and [Database] ([getMiniSearchData]). *)
Record Host (Snapshot : Type) := mkHost {
  activeFile : option jstr;
  readPlainText : jstr → jstr;
  allIndexedDocuments : list IndexedDocument;
  miniSearchData : option Snapshot
}.
Arguments mkHost {_} _ _ _ _.
Arguments activeFile {_} _.
Arguments readPlainText {_} _ _.
Arguments allIndexedDocuments {_} _.
Arguments miniSearchData {_} _.

(** [dataProvider.readPlainTextLines(path)] *)
Definition readPlainTextLines {S} (h : Host S) (path : jstr) : list jstr :=
  split_eol (readPlainText h path).

Lemma split_eol_not_nil s : split_eol s ≠ [].
Proof.
  induction s as [|x r IH]; simpl; [done|].
  repeat case_match; simplify_eq; done.
Qed.
