(* ===== verification/Fzf.v ===== *)
(** * Fzf: the in-file fuzzy line matcher (spec section 4.4)

    The matcher lives in services/search/search-engine.ts, which is not
    part of the snapshot under src/; it is modelled from the
    specification.  A query matches a line when its code units occur in
    the line in order (case-insensitively on ASCII letters); the matched
    columns recorded are the canonical alignment that takes every query
    character at its earliest possible column.  Lines are ranked by a
    score favouring consecutive matches and word-boundary matches and
    penalising long lines, ties broken by ascending row, and the output is
    capped at a limit.  The relation [subseq_at] is the reference
    definition of an alignment; [fzf_positions] is the executable greedy
    matcher. *)

From S2P Require Import Prelude SearchTypes Engines.

Module Fzf.

(** Case-insensitive comparison of a query unit with a line unit. *)
Definition char_match (qc c : Z) : bool := Z.eqb (to_lower qc) (to_lower c).

(** Greedy alignment of [q] in [t], [i] being the column of [t]'s head. *)
Fixpoint fzf_positions (q t : jstr) (i : nat) {struct t} : option (list nat) :=
  match q, t with
  | [], _ => Some []
  | _ :: _, [] => None
  | qc :: q', x :: t' =>
      if char_match qc x then cons i <$> fzf_positions q' t' (S i)
      else fzf_positions q t' (S i)
  end.

(** Every alignment of [q] in [t] (reference definition). *)
Inductive subseq_at : jstr → jstr → nat → list nat → Prop :=
  | sa_nil t i : subseq_at [] t i []
  | sa_take qc q x t i ps :
      char_match qc x = true → subseq_at q t (S i) ps →
      subseq_at (qc :: q) (x :: t) i (i :: ps)
  | sa_skip q x t i ps :
      subseq_at q t (S i) ps → subseq_at q (x :: t) i ps.

(** Does column [p] of [t] start a word? *)
Definition is_boundary (t : jstr) (p : nat) : bool :=
  match p with
  | 0 => true
  | S k => match t !! k with Some c => negb (is_word_char c) | None => true end
  end.

(** Number of adjacent matched columns. *)
Fixpoint consecutive_pairs (ps : list nat) : nat :=
  match ps with
  | p :: ((p' :: _) as r) => (if Nat.eqb p' (S p) then 1 else 0) + consecutive_pairs r
  | _ => 0
  end.

(** Score of an alignment: 16 per consecutive pair, 8 per match at a word
    boundary, minus the line length. *)
Definition fzf_score (t : jstr) (ps : list nat) : Z :=
  16 * Z.of_nat (consecutive_pairs ps)
  + 8 * Z.of_nat (length (filter (λ p, is_boundary t p = true) ps))
  - Z.of_nat (length t).

Definition ml_score (m : MatchedLine) : Z := fzf_score (ml_text m) (positions m).

(** [m] ranks no lower than [m']: higher score, or equal score and a
    smaller row. *)
Definition rank_le (m m' : MatchedLine) : Prop :=
  (ml_score m' < ml_score m)%Z ∨ (ml_score m = ml_score m' ∧ ml_row m ≤ ml_row m').

#[export] Instance rank_le_dec m m' : Decision (rank_le m m').
Proof. unfold rank_le. apply _. Defined.

Definition match_line (q : jstr) (l : Line) : option MatchedLine :=
  ps ← fzf_positions q (text l) 0; Some (mkMatched (text l) (row l) ps).

(** [matchLines(lines, query, limit)] *)
Definition matchLines (lines : list Line) (q : jstr) (limit : nat) : list MatchedLine :=
  if decide (q = []) then []
  else take limit (merge_sort rank_le (omap (match_line q) lines)).

(** The engine's two entry points: [searchLines] normalises the query
    (whitespace removed) and caps the result; [fzfMatch] ranks every
    matching line. *)
#[export] Instance fzf_matcher : LineMatcher := {
  searchLines lines q n := matchLines lines (remove_ws q) n;
  fzfMatch q lines := matchLines lines q (length lines)
}.

(** ** Helper lemmas *)

#[export] Instance rank_le_trans : Transitive rank_le.
Proof. intros a b c; unfold rank_le; lia. Qed.

#[export] Instance rank_le_total : Total rank_le.
Proof. intros a b; unfold rank_le; lia. Qed.

Lemma fzf_positions_sound q t i ps :
  fzf_positions q t i = Some ps → subseq_at q t i ps.
Proof.
  revert q i ps. induction t as [|x t IH]; intros [|qc q] i ps H; simpl in H;
    simplify_eq; try apply sa_nil.
  destruct (char_match qc x) eqn:Hm.
  - destruct (fzf_positions q t (S i)) eqn:E; simplify_eq/=. apply sa_take; auto.
  - apply sa_skip. auto.
Qed.

Lemma subseq_at_drop_head qc q t i p ps :
  subseq_at (qc :: q) t i (p :: ps) → subseq_at q t i ps.
Proof.
  revert i. induction t as [|x t IH]; intros i H; inversion H; subst.
  - by constructor.
  - apply sa_skip. auto.
Qed.

Lemma subseq_at_ge q t i ps : subseq_at q t i ps → Forall (λ p, i ≤ p) ps.
Proof.
  induction 1 as [|qc q x t i ps _ _ IH|q x t i ps _ IH].
  - constructor.
  - constructor; [lia|]. eapply Forall_impl; [exact IH|]. intros; simpl in *; lia.
  - eapply Forall_impl; [exact IH|]. intros; simpl in *; lia.
Qed.

Lemma subseq_at_bounds q t i ps :
  subseq_at q t i ps →
  length ps = length q ∧ StronglySorted lt ps ∧ Forall (λ p, p < i + length t) ps.
Proof.
  induction 1 as [|qc q x t i ps Hm H [IH1 [IH2 IH3]]|q x t i ps H [IH1 [IH2 IH3]]];
    simpl.
  - split_and!; by constructor.
  - split_and!; [lia| |].
    + constructor; [done|]. eapply Forall_impl; [by eapply subseq_at_ge|].
      intros; simpl in *; lia.
    + constructor; [lia|]. eapply Forall_impl; [exact IH3|]. intros; simpl in *; lia.
  - split_and!; [done|done|]. eapply Forall_impl; [exact IH3|]. intros; simpl in *; lia.
Qed.

(** Completeness with the earliest-column property. *)
Lemma fzf_positions_earliest q t i ps :
  subseq_at q t i ps →
  ∃ ps', fzf_positions q t i = Some ps' ∧ Forall2 le ps' ps.
Proof.
  revert q i ps. induction t as [|x t IH]; intros q i ps H.
  - inversion H; subst. exists []; split; [done|constructor].
  - destruct q as [|qc q].
    { apply subseq_at_bounds in H as [Hl _]. destruct ps; [|done].
      exists []; split; [done|constructor]. }
    simpl.
    destruct (char_match qc x) eqn:Hm.
    + inversion H as [|? ? ? ? ? ps1 _ Hsub|? ? ? ? ? Hsub]; subst.
      * destruct (IH _ _ _ Hsub) as (ps' & -> & Hle).
        eexists; split; [done|]. by constructor.
      * destruct ps as [|p ps]; [by apply subseq_at_bounds in Hsub as [? _]|].
        pose proof (subseq_at_ge _ _ _ _ Hsub) as Hge%Forall_cons.
        destruct (IH _ _ _ (subseq_at_drop_head _ _ _ _ _ _ Hsub)) as (ps' & -> & Hle).
        eexists; split; [done|]. constructor; [lia|done].
    + inversion H as [|? ? ? ? ? ? Hm' _|? ? ? ? ? Hsub]; subst; [congruence|]. by apply IH.
Qed.

Lemma match_line_spec q l m :
  match_line q l = Some m ↔
  ∃ ps, fzf_positions q (text l) 0 = Some ps ∧ m = mkMatched (text l) (row l) ps.
Proof.
  unfold match_line. destruct (fzf_positions q (text l) 0) eqn:E; simpl;
    split; [intros H; simplify_eq; eauto| |done|]; naive_solver.
Qed.

Lemma elem_of_matchLines lines q n m :
  m ∈ matchLines lines q n →
  q ≠ [] ∧ ∃ l, l ∈ lines ∧ match_line q l = Some m.
Proof.
  unfold matchLines. case_decide as Hq; [set_solver|].
  intros Hm%elem_of_take_inv. split; [done|].
  rewrite (merge_sort_Permutation _ _) in Hm. by apply list_elem_of_omap in Hm.
Qed.

Lemma matchLines_valid lines q n m :
  m ∈ matchLines lines q n →
  ml_line m ∈ lines ∧ subseq_at q (ml_text m) 0 (positions m) ∧ q ≠ [].
Proof.
  intros [Hq (l & Hl & Hm)]%elem_of_matchLines.
  apply match_line_spec in Hm as (ps & Hps & ->). simpl.
  split_and!; [by destruct l| by apply fzf_positions_sound|done].
Qed.

Lemma match_valid_of_subseq lines q m :
  ml_line m ∈ lines → q ≠ [] → subseq_at q (ml_text m) 0 (positions m) →
  match_valid lines m.
Proof.
  intros Hl Hq Hs. apply subseq_at_bounds in Hs as (Hlen & Hsort & Hb).
  split_and!; [done| |done|done].
  intros Hp. rewrite Hp in Hlen. destruct q; simpl in *; congruence.
Qed.

Lemma matchLines_limit lines q n : length (matchLines lines q n) ≤ n.
Proof. unfold matchLines. case_decide; simpl; [lia|apply firstn_le_length]. Qed.

#[export] Instance fzf_matcher_laws : LineMatcherLaws.
Proof.
  split; simpl.
  - intros q lines m (? & ? & ?)%matchLines_valid. by eapply match_valid_of_subseq.
  - intros q lines m (_ & Hs & _)%matchLines_valid. by apply subseq_at_bounds in Hs as [-> _].
  - intros lines. unfold matchLines. by case_decide.
  - intros lines q n m (? & ? & ?)%matchLines_valid. by eapply match_valid_of_subseq.
  - intros; apply matchLines_limit.
Qed.

(** ** Properties of the matcher *)

(** C19: every line the in-file matcher returns carries the canonical
    alignment: each matched column is at or before the corresponding
    column of any other alignment of the query in that line. *)
Theorem fzfMatch_canonical (q : jstr) (lines : list Line) (m : MatchedLine) :
  m ∈ fzfMatch q lines →
  subseq_at q (ml_text m) 0 (positions m) ∧
  ∀ ps, subseq_at q (ml_text m) 0 ps → Forall2 le (positions m) ps.
Proof.
  simpl. intros [Hq (l & Hl & Hm)]%elem_of_matchLines.
  apply match_line_spec in Hm as (ps0 & Hps & ->). simpl.
  split; [by apply fzf_positions_sound|].
  intros ps Hs. destruct (fzf_positions_earliest _ _ _ _ Hs) as (ps' & E & Hle).
  congruence.
Qed.

Lemma fzfMatch_canonical_witness :
  mkMatched (js "hello world") 0 [6; 8; 10] ∈ fzfMatch (js "wrd") [mkLine (js "hello world") 0] ∧
  subseq_at (js "wrd") (ml_text (mkMatched (js "hello world") 0 [6; 8; 10])) 0
    (positions (mkMatched (js "hello world") 0 [6; 8; 10])) ∧
  ∀ ps, subseq_at (js "wrd") (ml_text (mkMatched (js "hello world") 0 [6; 8; 10])) 0 ps →
    Forall2 le (positions (mkMatched (js "hello world") 0 [6; 8; 10])) ps.
Proof.
  assert (Hin : mkMatched (js "hello world") 0 [6; 8; 10]
                ∈ fzfMatch (js "wrd") [mkLine (js "hello world") 0]) by (vm_compute; left).
  split; [exact Hin|]. exact (fzfMatch_canonical _ _ _ Hin).
Defined.

(** C20: the matcher sorts before it caps.  For a non-empty query
    (already without whitespace) there is one list [ms]: a permutation of
    the lines that match, each with its alignment, ordered by descending
    score and then ascending row; [fzfMatch] returns all of it and
    [searchLines] its first [n] lines. *)
Theorem matcher_ranked (q : jstr) (lines : list Line) (n : nat) :
  q ≠ [] → remove_ws q = q →
  ∃ ms, ms ≡ₚ omap (match_line q) lines ∧
    (∀ i j m1 m2, i < j → ms !! i = Some m1 → ms !! j = Some m2 →
       (ml_score m2 < ml_score m1)%Z ∨ (ml_score m1 = ml_score m2 ∧ ml_row m1 ≤ ml_row m2)) ∧
    fzfMatch q lines = ms ∧ searchLines lines q n = take n ms.
Proof.
  intros Hq Hws. exists (merge_sort rank_le (omap (match_line q) lines)). split_and!.
  - apply merge_sort_Permutation.
  - intros i j m1 m2 Hij H1 H2.
    pose proof (StronglySorted_merge_sort rank_le (omap (match_line q) lines)) as Hs.
    exact (StronglySorted_lookup _ _ i j m1 m2 Hs Hij H1 H2).
  - simpl. unfold matchLines. rewrite decide_False by done. apply take_ge.
    rewrite (merge_sort_Permutation _ _). apply length_omap_le.
  - simpl. rewrite Hws. unfold matchLines. by rewrite decide_False.
Qed.

Lemma matcher_ranked_witness :
  js "wrd" ≠ [] ∧ remove_ws (js "wrd") = js "wrd" ∧
  ∃ ms, ms ≡ₚ omap (match_line (js "wrd")) [mkLine (js "hello world") 0; mkLine (js "wordy") 1] ∧
    (∀ i j m1 m2, i < j → ms !! i = Some m1 → ms !! j = Some m2 →
       (ml_score m2 < ml_score m1)%Z ∨ (ml_score m1 = ml_score m2 ∧ ml_row m1 ≤ ml_row m2)) ∧
    fzfMatch (js "wrd") [mkLine (js "hello world") 0; mkLine (js "wordy") 1] = ms ∧
    searchLines [mkLine (js "hello world") 0; mkLine (js "wordy") 1] (js "wrd") 1 = take 1 ms.
Proof.
  assert (H1 : js "wrd" ≠ []) by discriminate.
  assert (H2 : remove_ws (js "wrd") = js "wrd") by reflexivity.
  split; [exact H1|]. split; [exact H2|]. exact (matcher_ranked _ _ 1 H1 H2).
Defined.

(** [fzfMatch] returns every line in which the (non-empty) query
    occurs as a subsequence; [searchLines] drops a matching line only when
    its result is already full. *)
Theorem matcher_complete (q : jstr) (lines : list Line) (n : nat) (l : Line) :
  q ≠ [] → l ∈ lines → (∃ ps, subseq_at q (text l) 0 ps) →
  (∃ m, m ∈ fzfMatch q lines ∧ ml_line m = l) ∧
  (remove_ws q = q →
   (∃ m, m ∈ searchLines lines q n ∧ ml_line m = l) ∨ length (searchLines lines q n) = n).
Proof.
  intros Hq Hl [ps Hs]. destruct (fzf_positions_earliest _ _ _ _ Hs) as (ps' & E & _).
  assert (Hin : mkMatched (text l) (row l) ps' ∈ merge_sort rank_le (omap (match_line q) lines)).
  { rewrite (merge_sort_Permutation _ _). apply list_elem_of_omap.
    exists l. split; [done|]. apply match_line_spec. eauto. }
  assert (Hml : ml_line (mkMatched (text l) (row l) ps') = l) by (by destruct l).
  assert (Hk : ∀ k, (∃ m, m ∈ matchLines lines q k ∧ ml_line m = l) ∨
                    length (matchLines lines q k) = k).
  { intros k. unfold matchLines. case_decide; [done|].
    destruct (decide (length (merge_sort rank_le (omap (match_line q) lines)) ≤ k)).
    - left. exists (mkMatched (text l) (row l) ps'). by rewrite take_ge.
    - right. rewrite length_take. lia. }
  simpl. split.
  - unfold matchLines. case_decide; [done|]. exists (mkMatched (text l) (row l) ps').
    rewrite take_ge; [done|]. rewrite (merge_sort_Permutation _ _).
    etransitivity; [apply length_omap_le|]. lia.
  - intros ->. apply Hk.
Qed.

Lemma matcher_complete_witness :
  js "wrd" ≠ [] ∧ mkLine (js "hello world") 0 ∈ [mkLine (js "hello world") 0] ∧
  (∃ ps, subseq_at (js "wrd") (text (mkLine (js "hello world") 0)) 0 ps) ∧
  ((∃ m, m ∈ fzfMatch (js "wrd") [mkLine (js "hello world") 0] ∧
         ml_line m = mkLine (js "hello world") 0) ∧
   (remove_ws (js "wrd") = js "wrd" →
    (∃ m, m ∈ searchLines [mkLine (js "hello world") 0] (js "wrd") 3 ∧
          ml_line m = mkLine (js "hello world") 0) ∨
    length (searchLines [mkLine (js "hello world") 0] (js "wrd") 3) = 3)).
Proof.
  assert (Hq : js "wrd" ≠ []) by discriminate.
  assert (Hl : mkLine (js "hello world") 0 ∈ [mkLine (js "hello world") 0]) by left.
  assert (Hs : ∃ ps, subseq_at (js "wrd") (text (mkLine (js "hello world") 0)) 0 ps)
    by (exists [6; 8; 10]; apply fzf_positions_sound; vm_compute; reflexivity).
  split; [exact Hq|]. split; [exact Hl|]. split; [exact Hs|].
  exact (matcher_complete _ _ 3 _ Hq Hl Hs).
Defined.

(** The scenario of the specification: "wrd" in "hello world"
    matches row 0 at the columns of w, r and d in "world". *)
Example fzfMatch_hello_world :
  @fzfMatch fzf_matcher (js "wrd") [mkLine (js "hello world") 0] =
  [mkMatched (js "hello world") 0 [6; 8; 10]].
Proof. vm_compute. reflexivity. Qed.

End Fzf.
