(* ===== verification/Highlighter.v ===== *)
(** * Highlighter: render-ready excerpts of matched lines (spec section 4.5)

    services/search/highlighter.ts is not in the snapshot under src/; this
    file models [LineHighlighter.parse] from the specification.  In the
    "line" and "subItem" modes the excerpt is the matched line and [col]
    is its first matched column.  In the "paragraph" mode with
    [expandContext] the excerpt is the paragraph around the matched row
    (the maximal run of adjacent non-blank lines, never past the first or
    the last line), joined with line feeds, and [col] is the anchor column
    measured in the joined text.  [para_end] walks down with fuel
    [length texts], enough because every step moves one row down and
    stops at the last row. *)

From S2P Require Import Prelude SearchTypes Engines Fzf.

Module Highlighter.

Definition is_blank (t : jstr) : bool := forallb is_js_space t.

(** First row of the paragraph that contains row [r]. *)
Fixpoint para_start (texts : list jstr) (r : nat) : nat :=
  match r with
  | 0 => 0
  | S k =>
      match texts !! k with
      | Some t => if is_blank t then r else para_start texts k
      | None => r
      end
  end.

Fixpoint para_end_aux (texts : list jstr) (r fuel : nat) : nat :=
  match fuel with
  | 0 => r
  | S f =>
      match texts !! S r with
      | Some t => if is_blank t then r else para_end_aux texts (S r) f
      | None => r
      end
  end.

(** Last row of the paragraph that contains row [r]. *)
Definition para_end (texts : list jstr) (r : nat) : nat := para_end_aux texts r (length texts).

(** [col] of a single-line excerpt: the first matched column. *)
Definition first_col (m : MatchedLine) : nat :=
  match positions m with p :: _ => p | [] => 0 end.

(** Offset of the [k]-th line of a block joined by line feeds. *)
Definition block_offset (before : list jstr) : nat :=
  length (concat (map (λ w, w ++ [LF]) before)).

Definition parse_impl (lines : list Line) (m : MatchedLine) (mode : HighlightMode)
    (expand : bool) : HighlightedContext :=
  let single := mkHighlighted (ml_text m) (ml_row m) (first_col m) in
  match mode with
  | HlParagraph =>
      if expand then
        let texts := text <$> lines in
        let r := ml_row m in
        let s := para_start texts r in
        let e := para_end texts r in
        let before := take (r - s) (drop s texts) in
        let block := take (S e - s) (drop s texts) in
        mkHighlighted (join [LF] block) r (block_offset before + first_col m)
      else single
  | _ => single
  end.

(** The deprecated in-file path: rank the lines with the fuzzy matcher
    and render each as a [LineItem] with its paragraph as context. *)
Definition parseLineItems_impl (lines : list Line) (q : jstr) : list Item :=
  (λ m, LineItem (parse_impl lines m HlLine false)
                 (hc_text (parse_impl lines m HlParagraph true)))
    <$> Fzf.matchLines lines q (length lines).

#[export] Instance highlighter : LineHighlighter := {
  parse := parse_impl;
  parseLineItems := parseLineItems_impl
}.

#[export] Instance highlighter_laws : LineHighlighterLaws.
Proof.
  split. intros lines m mode e Hmode. unfold parse; simpl.
  destruct mode; [| done |]; simpl; split_and!; try done;
    unfold first_col; destruct (positions m); [done| |done|]; left.
Qed.

(** ** Paragraph bounds *)

Lemma para_start_le texts r : para_start texts r ≤ r.
Proof. induction r as [|k IH]; simpl; [lia|]. repeat case_match; lia. Qed.

Lemma para_end_aux_ge texts r f : r ≤ para_end_aux texts r f.
Proof.
  revert r. induction f as [|f IH]; intros r; simpl; [lia|].
  repeat case_match; try lia. specialize (IH (S r)). lia.
Qed.

Lemma para_end_aux_lt texts r f : r < length texts → para_end_aux texts r f < length texts.
Proof.
  revert r. induction f as [|f IH]; intros r Hr; simpl; [lia|].
  destruct (texts !! S r) eqn:E; [|lia]. apply lookup_lt_Some in E.
  case_match; [lia|]. by apply IH.
Qed.

Lemma join_app_cons sep before t after :
  join sep (before ++ t :: after) =
  concat (map (λ w, w ++ sep) before) ++ join sep (t :: after).
Proof.
  induction before as [|w ws IH]; simpl; [done|].
  rewrite IH. destruct ws; simpl; by rewrite <- !app_assoc.
Qed.

Lemma join_cons_prefix sep t after : ∃ rest, join sep (t :: after) = t ++ rest.
Proof. destruct after; simpl; [exists []; by rewrite app_nil_r|eauto]. Qed.

Lemma block_split (texts : list jstr) (s r e : nat) (t : jstr) :
  s ≤ r → r ≤ e → texts !! r = Some t →
  take (S e - s) (drop s texts) =
  take (r - s) (drop s texts) ++ t :: take (e - r) (drop (S r) texts).
Proof.
  intros Hs He Ht. set (before := take (r - s) (drop s texts)).
  assert (Hlen : length before = r - s).
  { unfold before. rewrite length_take, length_drop. apply lookup_lt_Some in Ht. lia. }
  assert (Hd : drop s texts = before ++ t :: drop (S r) texts).
  { unfold before. rewrite <- (take_drop (r - s) (drop s texts)) at 1. f_equal.
    rewrite drop_drop. replace (s + (r - s)) with r by lia. by apply drop_S. }
  rewrite Hd, take_app_ge by lia. rewrite Hlen.
  by replace (S e - s - (r - s)) with (S (e - r)) by lia.
Qed.

Lemma text_to_lines texts : text <$> to_lines texts = texts.
Proof.
  apply list_eq. intros i. rewrite list_lookup_fmap, to_lines_lookup.
  by destruct (texts !! i).
Qed.

(** Every row between the start of the paragraph and the matched row is
    non-blank, and the row above the paragraph, if any, is blank. *)
Lemma para_start_spec texts r :
  r < length texts →
  (∀ k, para_start texts r ≤ k < r → ∃ t, texts !! k = Some t ∧ is_blank t = false) ∧
  (para_start texts r = 0 ∨ ∃ t, texts !! (para_start texts r - 1) = Some t ∧ is_blank t = true).
Proof.
  induction r as [|k IH]; intros Hr; simpl; [split; [lia|by left]|].
  destruct (texts !! k) as [t|] eqn:Ht; [|apply lookup_ge_None in Ht; lia].
  destruct (is_blank t) eqn:Hb.
  - split; [lia|right]. exists t. by rewrite Nat.sub_1_r.
  - destruct IH as [Hin Hbd]; [lia|]. split; [|done].
    intros j Hj. destruct (decide (j = k)) as [->|]; [by exists t|]. apply Hin. lia.
Qed.

(** Every row between the matched row and the end of the paragraph is
    non-blank, and the paragraph ends at the last row or above a blank
    one. *)
Lemma para_end_aux_spec texts r f :
  r < length texts → length texts ≤ S r + f →
  (∀ k, r < k ≤ para_end_aux texts r f → ∃ t, texts !! k = Some t ∧ is_blank t = false) ∧
  (S (para_end_aux texts r f) = length texts ∨
   ∃ t, texts !! S (para_end_aux texts r f) = Some t ∧ is_blank t = true).
Proof.
  revert r. induction f as [|f IH]; intros r Hr Hf; simpl; [split; [lia|left; lia]|].
  destruct (texts !! S r) as [t|] eqn:Ht; [|apply lookup_ge_None in Ht; split; [lia|left; lia]].
  destruct (is_blank t) eqn:Hb; [split; [lia|right; by exists t]|].
  assert (S r < length texts) by (by apply lookup_lt_Some in Ht).
  destruct (IH (S r)) as [Hin Hbd]; [done|lia|]. split; [|done].
  intros j Hj. destruct (decide (j = S r)) as [->|]; [by exists t|]. apply Hin. lia.
Qed.

(** ** Properties of the highlighter *)

(** C21: in paragraph mode the excerpt is the paragraph of the matched
    row: the rows [s..e] around it joined by line feeds, every one of them
    but the matched row non-blank, and the block maximal: it starts at
    the first row or below a blank row, and ends at the last row or above
    a blank row, so it never reaches past the file. *)
Theorem parse_paragraph_within_file (texts : list jstr) (m : MatchedLine) :
  ml_row m < length texts →
  ∃ s e, s ≤ ml_row m ≤ e ∧ e < length texts ∧
    hc_text (@parse highlighter (to_lines texts) m HlParagraph true)
      = join [LF] (take (S e - s) (drop s texts)) ∧
    hc_row (@parse highlighter (to_lines texts) m HlParagraph true) = ml_row m ∧
    (∀ k, s ≤ k ≤ e → k ≠ ml_row m → ∃ t, texts !! k = Some t ∧ is_blank t = false) ∧
    (s = 0 ∨ ∃ t, texts !! (s - 1) = Some t ∧ is_blank t = true) ∧
    (S e = length texts ∨ ∃ t, texts !! S e = Some t ∧ is_blank t = true).
Proof.
  intros Hr. exists (para_start texts (ml_row m)), (para_end texts (ml_row m)).
  destruct (para_start_spec texts (ml_row m) Hr) as [Hs1 Hs2].
  destruct (para_end_aux_spec texts (ml_row m) (length texts) Hr) as [He1 He2]; [lia|].
  simpl. rewrite text_to_lines.
  split_and!; [apply para_start_le|apply para_end_aux_ge|by apply para_end_aux_lt|done|done| |done|done].
  intros k Hk Hne. destruct (decide (k < ml_row m)); [apply Hs1|apply He1]; unfold para_end in *; lia.
Qed.

Lemma parse_paragraph_within_file_witness :
  let texts := [js "a"; js "b"; js ""; js "c"] in
  let m := mkMatched (js "b") 1 [0] in
  ml_row m < length texts ∧
  ∃ s e, s ≤ ml_row m ≤ e ∧ e < length texts ∧
    hc_text (@parse highlighter (to_lines texts) m HlParagraph true)
      = join [LF] (take (S e - s) (drop s texts)) ∧
    hc_row (@parse highlighter (to_lines texts) m HlParagraph true) = ml_row m ∧
    (∀ k, s ≤ k ≤ e → k ≠ ml_row m → ∃ t, texts !! k = Some t ∧ is_blank t = false) ∧
    (s = 0 ∨ ∃ t, texts !! (s - 1) = Some t ∧ is_blank t = true) ∧
    (S e = length texts ∨ ∃ t, texts !! S e = Some t ∧ is_blank t = true).
Proof.
  intros texts m.
  assert (H : ml_row m < length texts) by (simpl; lia).
  split; [exact H|exact (parse_paragraph_within_file texts m H)].
Defined.

(** In the expanded paragraph the reported column points at the same
    character as the first matched column of the matched line: the
    anchor survives the expansion. *)
Theorem parse_paragraph_anchor (texts : list jstr) (m : MatchedLine) :
  texts !! ml_row m = Some (ml_text m) → first_col m < length (ml_text m) →
  hc_text (parse (to_lines texts) m HlParagraph true)
    !! hc_col (parse (to_lines texts) m HlParagraph true)
  = ml_text m !! first_col m.
Proof.
  intros Ht Hc. simpl. unfold parse_impl. rewrite text_to_lines.
  rewrite (block_split texts _ (ml_row m) _ (ml_text m)); [|apply para_start_le|
    apply para_end_aux_ge|done].
  rewrite join_app_cons. unfold block_offset.
  rewrite lookup_app_r by lia. rewrite (Nat.add_comm (length _) (first_col m)), Nat.add_sub.
  match goal with
  | |- join _ (?t :: ?after) !! _ = _ =>
      destruct (join_cons_prefix [LF] t after) as [rest ->]
  end.
  by rewrite lookup_app_l.
Qed.

Lemma parse_paragraph_anchor_witness :
  [js "alpha"; js "hello world"; js ""] !! ml_row (mkMatched (js "hello world") 1 [6; 8; 10])
    = Some (ml_text (mkMatched (js "hello world") 1 [6; 8; 10])) ∧
  first_col (mkMatched (js "hello world") 1 [6; 8; 10])
    < length (ml_text (mkMatched (js "hello world") 1 [6; 8; 10])) ∧
  hc_text (parse (to_lines [js "alpha"; js "hello world"; js ""])
             (mkMatched (js "hello world") 1 [6; 8; 10]) HlParagraph true)
    !! hc_col (parse (to_lines [js "alpha"; js "hello world"; js ""])
             (mkMatched (js "hello world") 1 [6; 8; 10]) HlParagraph true)
  = ml_text (mkMatched (js "hello world") 1 [6; 8; 10])
      !! first_col (mkMatched (js "hello world") 1 [6; 8; 10]).
Proof.
  assert (H1 : [js "alpha"; js "hello world"; js ""] !! ml_row (mkMatched (js "hello world") 1 [6; 8; 10])
    = Some (ml_text (mkMatched (js "hello world") 1 [6; 8; 10]))) by reflexivity.
  assert (H2 : first_col (mkMatched (js "hello world") 1 [6; 8; 10])
    < length (ml_text (mkMatched (js "hello world") 1 [6; 8; 10]))) by (vm_compute; lia).
  split_and!; [exact H1|exact H2|]. exact (parse_paragraph_anchor _ _ H1 H2).
Defined.

End Highlighter.
