(* ===== verification/SearchService.v ===== *)
(** * SearchService: the search entry points of the plugin

    Models src/services/obsidian/search-service.ts, class [SearchService]:
    [searchInVault] (lines 35-66), [getFileSubItems] (lines 71-106),
    [searchInFile] (lines 108-149), [deprecatedSearchInFile] (lines
    151-180) and [initSearchEngines] (lines 182-197).  The service holds
    no state of its own: every method reads the host (active file, file
    contents, persisted snapshot) and calls the engines.  The definitions
    are written in a Section whose [Context] is the engines' interfaces of
    Engines.v, so the theorems hold for every engine that satisfies the
    laws; the end-to-end examples instantiate them with the models of
    Fzf.v and Highlighter.v.  [getFileType] ([FileUtil.getFileType]) and
    the placeholder [TO_BE_IMPL] of utils/my-lib.ts, whose sources are not
    in the snapshot, are section variables. *)

From S2P Require Import Prelude SearchTypes Engines Fzf Highlighter.

Module SearchService.

(** Observable steps of [initSearchEngines]: a reindex starts (from the
    snapshot or from the documents), the caller awaits its completion,
    and "Lexical engine is ready" is reported. *)
Inductive InitEvent :=
  | EvReindexStarted (fromSnapshot : bool)
  | EvReindexAwaited
  | EvEngineReady.

Section WithEngines.
Context `{LineMatcher} `{LineHighlighter}.
Context (getFileType : jstr → FileType).
Context {Snapshot : Type}.

(** [searchInFile(queryText)] *)
Definition searchInFile (h : Host Snapshot) (queryText : jstr) : SearchResult :=
  let result := mkSearchResult [] [] in
  match queryText, activeFile h with
  | [], _ | _, None => result
  | _, Some p =>
      if decide (getFileType p = PLAIN_TEXT) then
        let lines := to_lines (readPlainTextLines h p) in
        let queryTextNoSpaces := remove_ws queryText in
        let matchedLines := fzfMatch queryTextNoSpaces lines in
        let lineItems :=
          (λ ml, LineItem (parse lines ml HlLine false)
                          (hc_text (parse lines ml HlParagraph true))) <$> matchedLines in
        mkSearchResult p lineItems
      else result
  end.

(** [getFileSubItems(path, queryText)] *)
Definition getFileSubItems (h : Host Snapshot) (path queryText : jstr) : list FileSubItem :=
  if decide (getFileType path = PLAIN_TEXT) then
    let content := readPlainText h path in
    let lines := to_lines (split_eol content) in
    let matchedLines := searchLines lines queryText 30 in
    (λ c, mkFileSubItem (hc_text c) (hc_row c) (hc_col c))
      <$> parseAll lines matchedLines HlSubItem false
  else [].

(** [deprecatedSearchInFile(queryText)] *)
Definition deprecatedSearchInFile (h : Host Snapshot) (queryText : jstr) : SearchResult :=
  let result := mkSearchResult [] [] in
  match queryText, activeFile h with
  | [], _ | _, None => result
  | _, Some p =>
      if decide (getFileType p = PLAIN_TEXT) then
        mkSearchResult p (parseLineItems (to_lines (readPlainTextLines h p)) queryText)
      else result
  end.

Context {E : Type} `{LexicalEngine E Snapshot} (TO_BE_IMPL : jstr).

(** [searchInVault(queryText)]: the [FileItem] constructor is called with
    four arguments, so ["nothing"] lands in [subItems] and
    [previewContent] is [undefined]. *)
Definition searchInVault (e : E) (queryText : jstr) : SearchResult :=
  let result := mkSearchResult (js "no result") [] in
  if decide (length queryText = 0) then result
  else
    let lexicalMatches := searchFiles e queryText ModeAnd in
    if decide (length lexicalMatches ≠ 0) then
      mkSearchResult TO_BE_IMPL
        ((λ mf, FileItem LEXICAL (mf_path mf) [] (JsString (js "nothing")) JsUndefined)
           <$> lexicalMatches)
    else result.

(** [initSearchEngines()]: the snapshot branch calls [reIndexAll]
    without [await]. *)
Definition initSearchEngines (h : Host Snapshot) (e : E) : E * list InitEvent :=
  match miniSearchData h with
  | Some prevData =>
      (reIndexAll e (FromSnapshot prevData), [EvReindexStarted true; EvEngineReady])
  | None =>
      (reIndexAll e (FromDocuments (allIndexedDocuments h)),
       [EvReindexStarted false; EvReindexAwaited; EvEngineReady])
  end.

(** [startTrackingFiles()]: private, with an empty body, and never
    called: the service does not follow vault changes. *)
Definition startTrackingFiles (e : E) : E := e.

End WithEngines.

(** A host for the end-to-end example: the active file [note.md] holds
    the lines "alpha" and "hello world". *)
Import Fzf.Fzf Highlighter.Highlighter.

Definition demo_host : Host unit :=
  mkHost (Some (js "note.md")) (λ _, js "alpha" ++ [LF] ++ js "hello world" ++ [LF]) [] None.

(** ** Properties of the in-file search *)

Section InFileProperties.
Context `{LineMatcherLaws} `{LineHighlighterLaws}.
Context (getFileType : jstr → FileType) {Snapshot : Type}.

(** C1: every item of an in-file search is a [LineItem] of the active
    file: its row is a line of the file, its text is that line, and its
    column is a valid offset in the text. *)
Theorem searchInFile_items_sound (h : Host Snapshot) (q : jstr) (it : Item) :
  it ∈ items (searchInFile getFileType h q) →
  ∃ p hc ctx, activeFile h = Some p ∧ currPath (searchInFile getFileType h q) = p ∧
    it = LineItem hc ctx ∧
    readPlainTextLines h p !! hc_row hc = Some (hc_text hc) ∧
    hc_col hc < length (hc_text hc).
Proof.
unfold searchInFile. destruct q as [|c q']; simpl; [set_solver|].
destruct (activeFile h) as [p|]; simpl; [|set_solver].
case_decide as Ht; simpl; [|set_solver].
intros (ml & -> & Hml)%list_elem_of_fmap.
destruct (fzfMatch_valid _ _ _ Hml) as (Hin & Hne & _ & Hb).
destruct (parse_single_line (to_lines (readPlainTextLines h p)) ml HlLine false)
  as (Htext & Hrow & Hcol); [done|].
eexists p, _, _. split_and!; [done|done|done| |].
- rewrite Htext, Hrow. by apply to_lines_elem in Hin.
- rewrite Htext. apply Hcol in Hne. rewrite Forall_forall in Hb. by apply Hb.
Qed.

(** A query made only of whitespace finds nothing (the in-file path
    strips all whitespace before matching). *)
Theorem searchInFile_whitespace_query (h : Host Snapshot) (q : jstr) :
  remove_ws q = [] → items (searchInFile getFileType h q) = [].
Proof.
intros Hws. unfold searchInFile. destruct q as [|c q']; [done|].
destruct (activeFile h) as [p|]; [|done]. case_decide; [|done].
simpl. by rewrite Hws, fzfMatch_nil.
Qed.

(** The in-file search depends on the query only through the query
    with its whitespace removed. *)
Theorem searchInFile_whitespace_insensitive (h : Host Snapshot) (q1 q2 : jstr) :
  q1 ≠ [] → q2 ≠ [] → remove_ws q1 = remove_ws q2 →
  searchInFile getFileType h q1 = searchInFile getFileType h q2.
Proof.
  intros Hq1 Hq2 Heq. unfold searchInFile.
  destruct q1 as [|c1 q1]; [done|]. destruct q2 as [|c2 q2]; [done|].
  rewrite Heq. done.
Qed.

(** C2: without a query, without an active file, or when the active file
    is not plain text, the in-file search returns the empty result. *)
Theorem searchInFile_guards (h : Host Snapshot) (q : jstr) :
  q = [] ∨ activeFile h = None ∨
  (∃ p, activeFile h = Some p ∧ getFileType p ≠ PLAIN_TEXT) →
  searchInFile getFileType h q = mkSearchResult [] [].
Proof.
intros Hg. unfold searchInFile. destruct q as [|c q']; [done|].
destruct (activeFile h) as [p|] eqn:Ha; [|done]. case_decide as Ht; [|done].
exfalso. destruct Hg as [?|[?|(p' & ? & ?)]]; congruence.
Qed.

(** C3: the sub-items of a file in the vault search are at most 30, and
    each sits on a line of the file with a valid column. *)
Theorem getFileSubItems_sound (h : Host Snapshot) (path q : jstr) :
  length (getFileSubItems getFileType h path q) ≤ 30 ∧
  ∀ si, si ∈ getFileSubItems getFileType h path q →
    split_eol (readPlainText h path) !! fsi_row si = Some (fsi_text si) ∧
    fsi_col si < length (fsi_text si).
Proof.
  unfold getFileSubItems. case_decide; [|split; [simpl; lia|set_solver]].
  unfold parseAll. rewrite !length_fmap. split; [apply searchLines_limit|].
  intros si (c & -> & (ml & -> & Hml)%list_elem_of_fmap)%list_elem_of_fmap. simpl.
  destruct (searchLines_valid _ _ _ _ Hml) as (Hin & Hne & _ & Hb).
  destruct (parse_single_line (to_lines (split_eol (readPlainText h path))) ml HlSubItem false)
    as (Htext & Hrow & Hcol); [done|].
  rewrite Htext, Hrow. split; [by apply to_lines_elem in Hin|].
  apply Hcol in Hne. rewrite Forall_forall in Hb. by apply Hb.
Qed.
End InFileProperties.

(** ** Properties of the vault search and of the start-up *)

Section VaultProperties.
Context {E Snapshot : Type} `{LexicalEngine E Snapshot} (TO_BE_IMPL : jstr).

Definition item_path (it : Item) : option jstr :=
  match it with FileItem _ p _ _ _ => Some p | _ => None end.

(** C4: the vault search lists, in order, exactly the files the lexical
    engine matches in "and" mode; with no query or no match it returns
    the "no result" value. *)
Theorem searchInVault_results (e : E) (q : jstr) :
  ((q = [] ∨ searchFiles e q ModeAnd = []) →
    searchInVault TO_BE_IMPL e q = mkSearchResult (js "no result") []) ∧
  (q ≠ [] → searchFiles e q ModeAnd ≠ [] →
    currPath (searchInVault TO_BE_IMPL e q) = TO_BE_IMPL ∧
    item_path <$> items (searchInVault TO_BE_IMPL e q)
      = Some <$> (mf_path <$> searchFiles e q ModeAnd)).
Proof.
  unfold searchInVault. split.
  - intros [->|Hm]; [done|]. rewrite Hm. by repeat case_decide.
  - intros Hq Hm. case_decide as Hl; [destruct q; simpl in *; congruence|].
    case_decide as Hl'; [|destruct (searchFiles e q ModeAnd); simpl in *; congruence].
    split; [done|]. simpl. rewrite <- !list_fmap_compose. by apply list_fmap_ext.
Qed.

End VaultProperties.

(** ** The in-file search end to end, with the engine models *)

(** In-file search of "w rd" on a file whose second line is
    "hello world" returns one line item at row 1 whose column is that of
    the "w" of "world". *)
Example searchInFile_demo :
  items (searchInFile (λ _, PLAIN_TEXT) demo_host (js "w rd")) =
  [LineItem (mkHighlighted (js "hello world") 1 6) (js "alpha" ++ [LF] ++ js "hello world")].
Proof. vm_compute. reflexivity. Qed.

Lemma searchInFile_items_sound_witness :
  LineItem (mkHighlighted (js "hello world") 1 6) (js "alpha" ++ [LF] ++ js "hello world")
    ∈ items (searchInFile (λ _, PLAIN_TEXT) demo_host (js "w rd")) ∧
  ∃ p hc ctx, activeFile demo_host = Some p ∧
    currPath (searchInFile (λ _, PLAIN_TEXT) demo_host (js "w rd")) = p ∧
    LineItem (mkHighlighted (js "hello world") 1 6) (js "alpha" ++ [LF] ++ js "hello world") = LineItem hc ctx ∧
    readPlainTextLines demo_host p !! hc_row hc = Some (hc_text hc) ∧
    hc_col hc < length (hc_text hc).
Proof.
  assert (Hin : LineItem (mkHighlighted (js "hello world") 1 6) (js "alpha" ++ [LF] ++ js "hello world")
    ∈ items (searchInFile (λ _, PLAIN_TEXT) demo_host (js "w rd")))
    by (vm_compute; left).
  split; [exact Hin|]. exact (searchInFile_items_sound _ _ _ _ Hin).
Defined.

Lemma searchInFile_whitespace_query_witness :
  remove_ws (js " ") = [] ∧ items (searchInFile (λ _, PLAIN_TEXT) demo_host (js " ")) = [].
Proof.
  assert (Hws : remove_ws (js " ") = []) by reflexivity.
  split; [exact Hws|]. exact (searchInFile_whitespace_query _ _ _ Hws).
Defined.

Lemma searchInFile_whitespace_insensitive_witness :
  js "w rd" ≠ [] ∧ js "wrd" ≠ [] ∧ remove_ws (js "w rd") = remove_ws (js "wrd") ∧
  searchInFile (λ _, PLAIN_TEXT) demo_host (js "w rd") =
  searchInFile (λ _, PLAIN_TEXT) demo_host (js "wrd").
Proof.
  assert (H1 : js "w rd" ≠ []) by discriminate.
  assert (H2 : js "wrd" ≠ []) by discriminate.
  assert (H3 : remove_ws (js "w rd") = remove_ws (js "wrd")) by reflexivity.
  split_and!; [exact H1|exact H2|exact H3|].
  exact (searchInFile_whitespace_insensitive _ _ _ _ H1 H2 H3).
Defined.

Lemma searchInFile_guards_witness :
  ((js "x" = [] ∨ activeFile demo_host = None ∨
    (∃ p, activeFile demo_host = Some p ∧ IMAGE ≠ PLAIN_TEXT))) ∧
  searchInFile (λ _, IMAGE) demo_host (js "x") = mkSearchResult [] [].
Proof.
  assert (Hg : js "x" = [] ∨ activeFile demo_host = None ∨
    (∃ p, activeFile demo_host = Some p ∧ (λ _ : jstr, IMAGE) p ≠ PLAIN_TEXT)).
  { right; right. exists (js "note.md"). split; [reflexivity|discriminate]. }
  split; [exact Hg|]. exact (searchInFile_guards _ _ _ Hg).
Defined.

Lemma getFileSubItems_sound_witness :
  length (getFileSubItems (λ _, PLAIN_TEXT) demo_host (js "note.md") (js "w rd")) ≤ 30 ∧
  ∀ si, si ∈ getFileSubItems (λ _, PLAIN_TEXT) demo_host (js "note.md") (js "w rd") →
    split_eol (readPlainText demo_host (js "note.md")) !! fsi_row si = Some (fsi_text si) ∧
    fsi_col si < length (fsi_text si).
Proof. exact (getFileSubItems_sound (λ _, PLAIN_TEXT) demo_host (js "note.md") (js "w rd")). Defined.

End SearchService.
