(* ===== verification/GetAllFiles.v ===== *)
(** * GetAllFiles: the recursive file listing of src/utils/my-lib.ts

    [getAllFiles(dirs, extensions)] (lines 21-69) with [FileExtension]
    (lines 72-77) and [IGNORED_DIRECTORIES] (line 80).  The file system
    is a record of two partial functions: [fs_readdir] for
    [fs.promises.readdir] and [fs_isDir] for [fs.promises.stat(...)
    .isDirectory()], [None] standing for a rejected promise.  Paths are
    POSIX strings: [pathLib.resolve(dir, file)] of an absolute, normalised
    [dir] and an entry name [file] is [dir ++ "/" ++ file].  The
    traversal is sequential (every call is awaited), so it is a recursive
    function in a small outcome type: [Done] with the visited set and the
    results, [Failed] for a rejection (which propagates to the caller of
    [getAllFiles]), and [NoFuel] when the recursion depth [fuel] is
    exhausted.  [extname] is Node's [path.extname]; [toLowerCase] is
    modelled on ASCII, which decides membership in [".md"], [".txt"] and
    [""] exactly (no non-ASCII code unit lowercases to an ASCII letter of
    those strings).  A symbolic link is resolved by the file system, not
    by the traversal: [loop_fs] is a directory holding a link to itself,
    whose paths resolve while they pass through at most MAXSYMLINKS = 40
    links and are rejected beyond (ELOOP, the answer of Linux's path
    resolution), and on it every traversal with enough fuel fails. *)

From S2P Require Import Prelude.

Module GetAllFiles.

Record FileSystem := mkFS {
  fs_readdir : jstr → option (list jstr);
  fs_isDir : jstr → option bool
}.

(** [enum FileExtension] *)
Inductive FileExtension := MD | TXT | ALL.

Definition ext_string (e : FileExtension) : jstr :=
  match e with MD => js ".md" | TXT => js ".txt" | ALL => [] end.

(** [IGNORED_DIRECTORIES] *)
Definition IGNORED_DIRECTORIES : list jstr := [js ".obsidian"; js ".git"; js ".vscode"].

(** [pathLib.resolve(dir, file)] *)
Definition resolve (dir file : jstr) : jstr := dir ++ SLASH :: file.

(** [IGNORED_DIRECTORIES.some(ignored => p.includes(`${sep}${ignored}`))] *)
Definition is_ignored (p : jstr) : bool :=
  existsb (λ ig, includes (SLASH :: ig) p) IGNORED_DIRECTORIES.

(** Index of the last occurrence of [c] in [s]. *)
Fixpoint last_index (c : Z) (s : jstr) : option nat :=
  match s with
  | [] => None
  | x :: r =>
      match last_index c r with
      | Some i => Some (S i)
      | None => if Z.eqb x c then Some 0 else None
      end
  end.

(** [path.extname(p)]: from the last dot of the last segment, or [""]
    when the segment has no dot, starts with its only dot, or is [".."]. *)
Definition extname (p : jstr) : jstr :=
  let base := default [] (last (split_on SLASH p)) in
  match last_index DOT base with
  | None | Some 0 => []
  | Some i => if decide (base = js "..") then [] else drop i base
  end.

Inductive Outcome := Done (visited results : list jstr) | Failed | NoFuel.

(** The [for (const file of list)] loop of [traverse(dir)]; [rec] is the
    recursive [traverse]. *)
Fixpoint traverse_entries (fs : FileSystem) (exts : list jstr)
    (rec : jstr → list jstr → list jstr → Outcome) (dir : jstr) (files : list jstr)
    (visited results : list jstr) : Outcome :=
  match files with
  | [] => Done visited results
  | file :: rest =>
      let resolvedPath := resolve dir file in
      if is_ignored resolvedPath then traverse_entries fs exts rec dir rest visited results
      else
        match fs_isDir fs resolvedPath with
        | None => Failed
        | Some true =>
            match rec resolvedPath visited results with
            | Done v r => traverse_entries fs exts rec dir rest v r
            | o => o
            end
        | Some false =>
            if decide (map to_lower (extname resolvedPath) ∈ exts)
            then traverse_entries fs exts rec dir rest visited (results ++ [resolvedPath])
            else traverse_entries fs exts rec dir rest visited results
        end
  end.

(** [traverse(dir)]: skip a visited directory, mark it, read it and walk
    its entries. *)
Fixpoint traverse (fs : FileSystem) (exts : list jstr) (fuel : nat) (dir : jstr)
    (visited results : list jstr) : Outcome :=
  match fuel with
  | 0 => NoFuel
  | S f =>
      if decide (dir ∈ visited) then Done visited results
      else
        match fs_readdir fs dir with
        | None => Failed
        | Some entries =>
            traverse_entries fs exts (traverse fs exts f) dir entries (visited ++ [dir]) results
        end
  end.

(** The loop over the root directories. *)
Fixpoint traverse_all (fs : FileSystem) (exts : list jstr) (fuel : nat) (dirs : list jstr)
    (visited results : list jstr) : Outcome :=
  match dirs with
  | [] => Done visited results
  | d :: ds =>
      match traverse fs exts fuel d visited results with
      | Done v r => traverse_all fs exts fuel ds v r
      | o => o
      end
  end.

(** [getAllFiles(dirs, extensions)]: the results, or [None] when a
    [readdir] or [stat] rejects (or the depth bound is exceeded). *)
Definition getAllFiles (fs : FileSystem) (fuel : nat) (dirs : list jstr)
    (extensions : list FileExtension) : Outcome :=
  traverse_all fs (ext_string <$> extensions) fuel dirs [] [].

(** A file the listing may return: a plain file, with an accepted
    extension, outside the ignored directories. *)
Definition listed (fs : FileSystem) (exts : list jstr) (r : jstr) : Prop :=
  fs_isDir fs r = Some false ∧ map to_lower (extname r) ∈ exts ∧ is_ignored r = false.

(** A property of the results of a completed traversal. *)
Definition outcome_ok (P : list jstr → Prop) (o : Outcome) : Prop :=
  match o with Done _ r => P r | _ => True end.

(** [traverse] from [d] needs at most [n] levels of recursion: every
    subdirectory it descends into needs at most [n - 1]. *)
Inductive bounded (fs : FileSystem) : nat → jstr → Prop :=
  | bounded_fail n d : fs_readdir fs d = None → bounded fs (S n) d
  | bounded_dir n d entries :
      fs_readdir fs d = Some entries →
      (∀ f, f ∈ entries → is_ignored (resolve d f) = false →
            fs_isDir fs (resolve d f) = Some true → bounded fs n (resolve d f)) →
      bounded fs (S n) d.

(** [bounded] as a check that runs. *)
Fixpoint boundedb (fs : FileSystem) (n : nat) (d : jstr) : bool :=
  match n with
  | 0 => false
  | S k =>
      match fs_readdir fs d with
      | None => true
      | Some es =>
          forallb (λ f, is_ignored (resolve d f)
                        || negb (bool_decide (fs_isDir fs (resolve d f) = Some true))
                        || boundedb fs k (resolve d f)) es
      end
  end.

(** A small vault: [/v] with a note, an extensionless README, the
    [.github] and [.obsidian] folders and a subfolder. *)
Definition demo_dirs : list (jstr * list jstr) :=
  [(js "/v", [js "notes.md"; js "README"; js ".github"; js ".obsidian"; js "sub"]);
   (js "/v/.github", [js "guide.md"]);
   (js "/v/sub", [js "b.MD"; js "c.txt"])].

Definition demo_fs : FileSystem :=
  mkFS (λ p, snd <$> find (λ e, bool_decide (e.1 = p)) demo_dirs)
       (λ p, Some (bool_decide (p ∈ demo_dirs.*1))).

(** Linux follows at most [MAXSYMLINKS] symbolic links while resolving
    one path; beyond, [stat] and [readdir] reject with ELOOP. *)
Definition MAXSYMLINKS : nat := 40.

(** The symbolic links followed to resolve a path of [loop_fs]: one per
    [loop] segment. *)
Definition links_in (p : jstr) : nat := length (filter (λ w, w = js "loop") (split_on SLASH p)).

(** A directory [/v] holding a note and a symbolic link [loop] to
    itself: [stat] follows the link, so every [/v/loop/.../loop] is the
    same directory, until the path holds more than [MAXSYMLINKS] links. *)
Definition loop_fs : FileSystem :=
  mkFS (λ p, if decide (links_in p ≤ MAXSYMLINKS) then Some [js "loop"; js "note.md"] else None)
       (λ p, if decide (links_in p ≤ MAXSYMLINKS)
             then Some (negb (bool_decide (last (split_on SLASH p) = Some (js "note.md"))))
             else None).

Fixpoint loop_path (k : nat) : jstr :=
  match k with 0 => js "/v" | S k => resolve (loop_path k) (js "loop") end.

(** ** Soundness of the results *)

Section Sound.
Context (fs : FileSystem) (exts : list jstr).

Lemma traverse_entries_sound rec dir files v r :
  (∀ d v' r', Forall (listed fs exts) r' → outcome_ok (Forall (listed fs exts)) (rec d v' r')) →
  Forall (listed fs exts) r →
  outcome_ok (Forall (listed fs exts)) (traverse_entries fs exts rec dir files v r).
Proof.
  intros Hrec. revert v r. induction files as [|f fs' IH]; intros v r Hr; simpl; [done|].
  destruct (is_ignored (resolve dir f)) eqn:Hig; [by apply IH|].
  destruct (fs_isDir fs (resolve dir f)) as [[]|] eqn:Hd; [| |done].
  - specialize (Hrec (resolve dir f) v r Hr).
    destruct (rec _ v r); simpl in *; [by apply IH|done|done].
  - case_decide; apply IH; [|done]. apply Forall_app; split; [done|]. by repeat constructor.
Qed.

Lemma traverse_sound n d v r :
  Forall (listed fs exts) r → outcome_ok (Forall (listed fs exts)) (traverse fs exts n d v r).
Proof.
  revert d v r. induction n as [|n IH]; intros d v r Hr; simpl; [done|].
  case_decide; [done|]. destruct (fs_readdir fs d); [|done].
  by apply traverse_entries_sound.
Qed.

Lemma traverse_all_sound n dirs v r :
  Forall (listed fs exts) r → outcome_ok (Forall (listed fs exts)) (traverse_all fs exts n dirs v r).
Proof.
  revert v r. induction dirs as [|d ds IH]; intros v r Hr; simpl; [done|].
  pose proof (traverse_sound n d v r Hr) as Ht.
  destruct (traverse fs exts n d v r); simpl in *; [by apply IH|done|done].
Qed.

End Sound.

(** ** Fuel *)

Section Fuel.
Context (fs : FileSystem) (exts : list jstr).

Lemma traverse_entries_ext rec1 rec2 dir files v r :
  (∀ d v' r', rec1 d v' r' ≠ NoFuel → rec2 d v' r' = rec1 d v' r') →
  traverse_entries fs exts rec1 dir files v r ≠ NoFuel →
  traverse_entries fs exts rec2 dir files v r = traverse_entries fs exts rec1 dir files v r.
Proof.
  intros Hrec. revert v r. induction files as [|f fs' IH]; intros v r; simpl; [done|].
  destruct (is_ignored _); [apply IH|].
  destruct (fs_isDir fs _) as [[]|]; [|case_decide; apply IH|done].
  destruct (rec1 _ v r) eqn:E; intros Hne.
  - rewrite Hrec by congruence. rewrite E. by apply IH.
  - rewrite Hrec by congruence. by rewrite E.
  - done.
Qed.

Lemma traverse_mono n m d v r :
  traverse fs exts n d v r ≠ NoFuel → n ≤ m → traverse fs exts m d v r = traverse fs exts n d v r.
Proof.
  revert m d v r. induction n as [|n IH]; intros m d v r Hne Hle; [done|].
  destruct m as [|m]; [lia|]. simpl in *.
  case_decide; [done|]. destruct (fs_readdir fs d); [|done].
  apply traverse_entries_ext; [|done]. intros d' v' r' Hne'. apply IH; [done|lia].
Qed.

Lemma traverse_entries_fuel rec dir files v r :
  (∀ f v' r', f ∈ files → is_ignored (resolve dir f) = false →
     fs_isDir fs (resolve dir f) = Some true → rec (resolve dir f) v' r' ≠ NoFuel) →
  traverse_entries fs exts rec dir files v r ≠ NoFuel.
Proof.
  revert v r. induction files as [|f fs' IH]; intros v r Hrec; simpl; [done|].
  assert (IH' : ∀ v r, traverse_entries fs exts rec dir fs' v r ≠ NoFuel)
    by (intros; apply IH; intros; apply Hrec; [by right|done..]).
  destruct (is_ignored _) eqn:Hig; [done|].
  destruct (fs_isDir fs _) as [[]|] eqn:Hd; [|by case_decide|done].
  specialize (Hrec f v r ltac:(left) Hig Hd).
  by destruct (rec _ v r).
Qed.

Lemma traverse_bounded n d v r : bounded fs n d → traverse fs exts n d v r ≠ NoFuel.
Proof.
  intros Hb. revert v r. induction Hb as [n d Hrd|n d entries Hrd Hsub IH]; intros v r; simpl.
  - case_decide; [done|]. by rewrite Hrd.
  - case_decide; [done|]. rewrite Hrd. apply traverse_entries_fuel. intros f v' r' Hf Hig Hd.
    by apply IH.
Qed.

Lemma traverse_all_terminates n dirs v r :
  Forall (bounded fs n) dirs →
  traverse_all fs exts n dirs v r ≠ NoFuel ∧
  ∀ m, n ≤ m → traverse_all fs exts m dirs v r = traverse_all fs exts n dirs v r.
Proof.
  intros Hb. revert v r. induction Hb as [|d ds Hd Hds IH]; intros v r; simpl; [done|].
  pose proof (traverse_bounded n d v r Hd) as Ht.
  split; [|intros m Hm; rewrite (traverse_mono n m) by done];
    destruct (traverse fs exts n d v r); try done; by apply IH.
Qed.

End Fuel.

Lemma boundedb_sound fs n d : boundedb fs n d = true → bounded fs n d.
Proof.
  revert d. induction n as [|n IH]; intros d; simpl; [done|].
  destruct (fs_readdir fs d) as [es|] eqn:Hrd; intros Hb; [|by constructor].
  apply (bounded_dir fs n d es Hrd). intros f Hf Hig Hd.
  rewrite forallb_forall in Hb. specialize (Hb f (proj1 (list_elem_of_In _ _) Hf)).
  rewrite Hig, Hd in Hb. simpl in Hb. by apply IH.
Qed.

(** ** Symbolic-link cycles *)

Lemma is_ignored_no_dot p : DOT ∉ p → is_ignored p = false.
Proof.
  intros Hp. unfold is_ignored. simpl.
  rewrite !(includes_absent _ p DOT); [done| |done| |done| |done]; vm_compute; set_solver.
Qed.

Lemma loop_path_no_dot k : DOT ∉ loop_path k.
Proof.
  induction k as [|k IH]; simpl; [vm_compute; set_solver|].
  unfold resolve. rewrite elem_of_app, elem_of_cons. intros [?|[?|?]]; [done|discriminate|].
  revert H. vm_compute. set_solver.
Qed.

Lemma length_loop_path k : length (loop_path k) = 2 + 5 * k.
Proof. induction k as [|k IH]; simpl; [done|]. unfold resolve. rewrite length_app. simpl. lia. Qed.

Lemma split_resolve_loop p : split_on SLASH (resolve p (js "loop")) = split_on SLASH p ++ [js "loop"].
Proof. unfold resolve. rewrite split_on_app_sep, (split_on_no_sep SLASH (js "loop")); [done|vm_compute; set_solver]. Qed.

Lemma links_loop_path k : links_in (loop_path k) = k.
Proof.
  induction k as [|k IH]; [done|]. unfold links_in in *. cbn [loop_path].
  rewrite split_resolve_loop, filter_app, length_app, IH.
  assert (length (filter (λ w, w = js "loop") [js "loop"]) = 1) as -> by reflexivity. lia.
Qed.

Lemma loop_path_isDir k : k < MAXSYMLINKS → fs_isDir loop_fs (loop_path (S k)) = Some true.
Proof.
  intros Hk. cbn [fs_isDir loop_fs]. rewrite links_loop_path, decide_True by lia.
  cbn [loop_path]. rewrite split_resolve_loop, last_snoc. by rewrite bool_decide_eq_false_2.
Qed.

Lemma loop_path_eloop : fs_isDir loop_fs (loop_path (S MAXSYMLINKS)) = None.
Proof. cbn [fs_isDir loop_fs]. rewrite links_loop_path, decide_False by lia. done. Qed.

Lemma loop_path_readdir k : k ≤ MAXSYMLINKS → fs_readdir loop_fs (loop_path k) = Some [js "loop"; js "note.md"].
Proof. intros Hk. cbn [fs_readdir loop_fs]. by rewrite links_loop_path, decide_True. Qed.

Lemma loop_traverse n k v r :
  k ≤ MAXSYMLINKS → MAXSYMLINKS - k < n →
  (∀ x, x ∈ v → length x < length (loop_path k)) →
  traverse loop_fs [js ".md"] n (loop_path k) v r = Failed.
Proof.
  revert k v r. induction n as [|n IH]; intros k v r Hk Hn Hv; [lia|]. cbn [traverse].
  rewrite decide_False by (intros Hin; apply Hv in Hin; lia).
  rewrite loop_path_readdir by done. cbn [traverse_entries].
  rewrite is_ignored_no_dot by apply (loop_path_no_dot (S k)).
  change (resolve (loop_path k) (js "loop")) with (loop_path (S k)).
  destruct (decide (k = MAXSYMLINKS)) as [->|Hk']; [by rewrite loop_path_eloop|].
  rewrite loop_path_isDir by lia. rewrite IH; [done|lia|lia|].
  intros x Hx. apply elem_of_app in Hx as [Hx|Hx].
  - specialize (Hv x Hx). rewrite !length_loop_path in *. lia.
  - apply list_elem_of_singleton in Hx as ->. rewrite !length_loop_path. lia.
Qed.

(** ** Properties of [getAllFiles] *)

(** C25: every path [getAllFiles] returns is a plain file, outside the
    ignored directories, whose lower-cased extension is one of the
    requested ones. *)
Theorem getAllFiles_sound fs n dirs exts v res :
  getAllFiles fs n dirs exts = Done v res →
  Forall (listed fs (ext_string <$> exts)) res.
Proof.
  intros E. pose proof (traverse_all_sound fs (ext_string <$> exts) n dirs [] [] ltac:(constructor)) as H.
  unfold getAllFiles in E. by rewrite E in H.
Qed.

(** C26: on a file system whose directories nest at most [n] deep from the
    roots, [getAllFiles] with depth bound [n] completes (with the files or
    with a rejection), and a larger bound gives the same outcome. *)
Theorem getAllFiles_terminates fs n dirs exts :
  Forall (bounded fs n) dirs →
  ∃ o, o ≠ NoFuel ∧ ∀ m, n ≤ m → getAllFiles fs m dirs exts = o.
Proof.
  intros Hb. destruct (traverse_all_terminates fs (ext_string <$> exts) n dirs [] [] Hb) as [Hne Hm].
  exists (getAllFiles fs n dirs exts). split; [done|]. intros m Hnm. by apply Hm.
Qed.

(** The blacklist test is a substring test on the whole path, so a
    note under [.github] (which contains "/.git") is never listed, while
    [b.MD] is listed because the extension is lower-cased. *)
Example getAllFiles_ignores_github :
  getAllFiles demo_fs 3 [js "/v"] [MD] =
    Done [js "/v"; js "/v/sub"] [js "/v/notes.md"; js "/v/sub/b.MD"].
Proof. vm_compute. reflexivity. Qed.

(** [FileExtension.ALL] is the empty extension, so it selects the
    files without an extension instead of all files. *)
Example getAllFiles_ALL_only_extensionless :
  getAllFiles demo_fs 3 [js "/v"] [ALL] = Done [js "/v"; js "/v/sub"] [js "/v/README"].
Proof. vm_compute. reflexivity. Qed.

(** C27: [visitedDirs] holds path strings while [stat] follows
    symbolic links, so a link [loop -> /v] inside [/v] is not recognised:
    the traversal descends into [/v/loop/loop/...] until the path holds
    more than [MAXSYMLINKS] links, where [stat] rejects with ELOOP, and
    [getAllFiles] rejects; the note [/v/note.md] is never returned.  Any
    depth bound above [MAXSYMLINKS] reaches the rejection. *)
Theorem getAllFiles_symlink_cycle n :
  MAXSYMLINKS < n → getAllFiles loop_fs n [js "/v"] [MD] = Failed.
Proof.
  intros Hn. unfold getAllFiles. cbn [traverse_all fmap list_fmap ext_string].
  rewrite (loop_traverse n 0); [done|lia|lia|]. intros x Hx. set_solver.
Qed.

Lemma getAllFiles_symlink_cycle_witness :
  MAXSYMLINKS < 41 ∧ getAllFiles loop_fs 41 [js "/v"] [MD] = Failed.
Proof.
  assert (H : MAXSYMLINKS < 41) by (unfold MAXSYMLINKS; lia).
  split; [exact H|exact (getAllFiles_symlink_cycle 41 H)].
Defined.

Lemma getAllFiles_sound_witness :
  getAllFiles demo_fs 3 [js "/v"] [MD; TXT] =
    Done [js "/v"; js "/v/sub"] [js "/v/notes.md"; js "/v/sub/b.MD"; js "/v/sub/c.txt"] ∧
  Forall (listed demo_fs (ext_string <$> [MD; TXT]))
    [js "/v/notes.md"; js "/v/sub/b.MD"; js "/v/sub/c.txt"].
Proof.
  assert (H : getAllFiles demo_fs 3 [js "/v"] [MD; TXT] =
    Done [js "/v"; js "/v/sub"] [js "/v/notes.md"; js "/v/sub/b.MD"; js "/v/sub/c.txt"])
    by (vm_compute; reflexivity).
  split; [exact H|exact (getAllFiles_sound _ _ _ _ _ _ H)].
Defined.

Lemma getAllFiles_terminates_witness :
  Forall (bounded demo_fs 2) [js "/v"] ∧
  ∃ o, o ≠ NoFuel ∧ ∀ m, 2 ≤ m → getAllFiles demo_fs m [js "/v"] [MD] = o.
Proof.
  assert (H : Forall (bounded demo_fs 2) [js "/v"])
    by (constructor; [apply boundedb_sound; vm_compute; reflexivity|constructor]).
  split; [exact H|exact (getAllFiles_terminates _ _ _ _ H)].
Defined.

End GetAllFiles.
