(* ===== verification/FloatingWindow.v ===== *)
(** * FloatingWindow: the in-file search window of src/ui/floating-window.ts

    [FloatingWindow] (lines 31-174) with the [InFileFloatingWindow]
    specialisation (lines 176-202) and [FloatingWindowManager] (lines
    8-30).  The state of the window object is the record [FW]: the drag
    and resize fields, the container element (present while it is in the
    DOM), whether the Svelte component is mounted, the listeners the
    window has added to [document] (in registration order, without
    duplicates, as [addEventListener] deduplicates a listener), the
    [OuterSetting.ui] fields it reads and writes, and the number of
    [postSettingUpdated] calls.  Events are a step function; [run] folds
    a sequence of them and [reachable] is the inductive closure from the
    initial state.  A document event is delivered to the registered
    listeners of its type in registration order.  CSS lengths are either
    written by the code as [`${n}px`] ([CssPx n]) or copied from the
    settings ([CssRaw s]); the browser's resolution of a copied string to
    pixels is the section variable [layout_raw]. *)

From S2P Require Import Prelude.

Module FloatingWindow.

Inductive Css := CssPx (n : Z) | CssRaw (s : jstr).

(** The string a style property reads back as. *)
Definition css_string (c : Css) : jstr :=
  match c with CssPx n => string_of_Z n ++ js "px" | CssRaw s => s end.

(** The fields of [OuterSetting.ui] used by the window:
    [inFileFloatingWindowLeft/Top/Width/Height] ([""] when unset). *)
Record WindowSetting := mkWindowSetting { fwLeft : jstr; fwTop : jstr; fwWidth : jstr; fwHeight : jstr }.

(** The style of [containerEl] that the code reads or writes. *)
Record Container := mkContainer { c_left : Css; c_top : Css; c_width : Css; c_height : Css; c_opacity : jstr }.

(** The four listeners added to [document]: [handleMouseMove] and
    [handleResize] on "mousemove", [handleMouseUp] and [handleResizeEnd]
    on "mouseup". *)
Inductive DocListener := LMouseMove | LMouseUp | LResize | LResizeEnd.

#[export] Instance DocListener_eq_dec : EqDecision DocListener.
Proof. solve_decision. Defined.

Record FW := mkFW {
  isDragging : bool; dragStartX : Z; dragStartY : Z;
  isResizing : bool; resizeStartX : Z; resizeStartY : Z;
  resizeStartWidth : Z; resizeStartHeight : Z;
  containerEl : option Container;
  mountedElement : bool;
  listeners : list DocListener;
  uiSetting : WindowSetting;
  settingPosts : nat
}.

(** ** Record updates *)

Definition set_drag (b : bool) (x y : Z) (s : FW) : FW :=
  mkFW b x y (isResizing s) (resizeStartX s) (resizeStartY s) (resizeStartWidth s)
    (resizeStartHeight s) (containerEl s) (mountedElement s) (listeners s) (uiSetting s) (settingPosts s).
Definition set_resize (b : bool) (x y w h : Z) (s : FW) : FW :=
  mkFW (isDragging s) (dragStartX s) (dragStartY s) b x y w h
    (containerEl s) (mountedElement s) (listeners s) (uiSetting s) (settingPosts s).
Definition set_window (c : option Container) (m : bool) (ls : list DocListener) (s : FW) : FW :=
  mkFW (isDragging s) (dragStartX s) (dragStartY s) (isResizing s) (resizeStartX s)
    (resizeStartY s) (resizeStartWidth s) (resizeStartHeight s) c m ls (uiSetting s) (settingPosts s).
Definition set_saved (st : WindowSetting) (s : FW) : FW :=
  mkFW (isDragging s) (dragStartX s) (dragStartY s) (isResizing s) (resizeStartX s)
    (resizeStartY s) (resizeStartWidth s) (resizeStartHeight s) (containerEl s)
    (mountedElement s) (listeners s) st (S (settingPosts s)).
Definition set_setting (st : WindowSetting) (s : FW) : FW :=
  mkFW (isDragging s) (dragStartX s) (dragStartY s) (isResizing s) (resizeStartX s)
    (resizeStartY s) (resizeStartWidth s) (resizeStartHeight s) (containerEl s)
    (mountedElement s) (listeners s) st (settingPosts s).
Definition with_container (f : Container → Container) (s : FW) : FW :=
  set_window (f <$> containerEl s) (mountedElement s) (listeners s) s.

Definition set_position (l t : Css) (c : Container) : Container :=
  mkContainer l t (c_width c) (c_height c) (c_opacity c).
Definition set_size (w h : Css) (c : Container) : Container :=
  mkContainer (c_left c) (c_top c) w h (c_opacity c).
Definition set_opacity (o : jstr) (c : Container) : Container :=
  mkContainer (c_left c) (c_top c) (c_width c) (c_height c) o.

(** [document.addEventListener] (no duplicates) and [removeEventListener]. *)
Definition add_listener (l : DocListener) (ls : list DocListener) : list DocListener :=
  if decide (l ∈ ls) then ls else ls ++ [l].
Definition remove_listener (l : DocListener) (ls : list DocListener) : list DocListener :=
  filter (λ x, x ≠ l) ls.

Section Window.
Variable layout_raw : jstr → Z.

Definition css_px (c : Css) : Z := match c with CssPx n => n | CssRaw s => layout_raw s end.
Definition offsetLeft (c : Container) : Z := css_px (c_left c).
Definition offsetTop (c : Container) : Z := css_px (c_top c).
(** [minWidth: 200px], [minHeight: 100px]. *)
Definition offsetWidth (c : Container) : Z := Z.max 200 (css_px (c_width c)).
Definition offsetHeight (c : Container) : Z := Z.max 100 (css_px (c_height c)).

(** [InFileFloatingWindow.loadContainerElStates] *)
Definition loadContainerElStates (st : WindowSetting) (c : Container) : Container :=
  mkContainer (CssRaw (fwLeft st)) (CssRaw (fwTop st))
    (CssRaw (js_or (fwWidth st) (js "300px"))) (CssRaw (js_or (fwHeight st) (js "200px")))
    (c_opacity c).

(** [InFileFloatingWindow.saveContainerElStates] *)
Definition saveContainerElStates (c : Container) : WindowSetting :=
  mkWindowSetting (css_string (c_left c)) (css_string (c_top c))
    (css_string (c_width c)) (css_string (c_height c)).

(** A freshly created [div]. *)
Definition fresh_container : Container := mkContainer (CssRaw []) (CssRaw []) (CssRaw []) (CssRaw []) [].

(** [onClose]: remove the four listeners, destroy the component, remove
    the container.  [containerEl] is the container as attached to the
    document: [containerEl?.remove()] detaches the div, so it becomes
    [None] here, while the source's field keeps pointing to the detached
    div; no handler reads it before [toggle] builds a new one, since
    every listener is removed and the detached frame receives no
    event. *)
Definition onClose (s : FW) : FW :=
  set_window None false
    (remove_listener LResizeEnd (remove_listener LResize
      (remove_listener LMouseUp (remove_listener LMouseMove (listeners s))))) s.

(** [InFileFloatingWindow.mountComponent]: mount the Svelte modal in the
    content element. *)
Definition mountComponent (s : FW) : FW := set_window (containerEl s) true (listeners s) s.

(** [toggle]: close when mounted, otherwise build the container, load its
    geometry from the settings, add the listeners and mount. *)
Definition toggle (s : FW) : FW :=
  if mountedElement s then onClose s
  else
    let c := loadContainerElStates (uiSetting s) fresh_container in
    let ls := add_listener LMouseMove (listeners s) in
    let ls := add_listener LMouseUp ls in
    let ls := add_listener LResize ls in
    let ls := add_listener LResizeEnd ls in
    mountComponent (set_window (Some c) false ls s).

(** [handleMouseDown] on the title bar. *)
Definition handleMouseDown (x y : Z) (s : FW) : FW :=
  match containerEl s with
  | Some c =>
      with_container (set_opacity (js "0.75")) (set_drag true (x - offsetLeft c) (y - offsetTop c) s)
  | None => s
  end.

(** [handleMouseMove] *)
Definition handleMouseMove (x y : Z) (s : FW) : FW :=
  if isDragging s
  then with_container (set_position (CssPx (x - dragStartX s)) (CssPx (y - dragStartY s))) s
  else s.

(** [handleMouseUp]: no guard on [isDragging]. *)
Definition handleMouseUp (s : FW) : FW :=
  let s := set_drag false (dragStartX s) (dragStartY s) s in
  let s := with_container (set_opacity (js "1")) s in
  match containerEl s with
  | Some c => set_saved (saveContainerElStates c) s
  | None => s
  end.

(** [handleResizeStart] on the resize handle. *)
Definition handleResizeStart (x y : Z) (s : FW) : FW :=
  match containerEl s with
  | Some c => set_resize true x y (offsetWidth c) (offsetHeight c) s
  | None => s
  end.

(** [handleResize]: at least 200 by 100 pixels. *)
Definition handleResize (x y : Z) (s : FW) : FW :=
  if isResizing s then
    with_container
      (set_size (CssPx (Z.max 200 (resizeStartWidth s + (x - resizeStartX s))))
                (CssPx (Z.max 100 (resizeStartHeight s + (y - resizeStartY s))))) s
  else s.

(** [handleResizeEnd] *)
Definition handleResizeEnd (s : FW) : FW :=
  if isResizing s then
    let s := set_resize false (resizeStartX s) (resizeStartY s)
               (resizeStartWidth s) (resizeStartHeight s) s in
    match containerEl s with
    | Some c => set_saved (saveContainerElStates c) s
    | None => s
    end
  else s.

(** Delivery of a document event to one registered listener. *)
Definition run_listener (isMove : bool) (x y : Z) (s : FW) (l : DocListener) : FW :=
  match l, isMove with
  | LMouseMove, true => handleMouseMove x y s
  | LResize, true => handleResize x y s
  | LMouseUp, false => handleMouseUp s
  | LResizeEnd, false => handleResizeEnd s
  | _, _ => s
  end.

Definition dispatch (isMove : bool) (x y : Z) (s : FW) : FW :=
  fold_left (run_listener isMove x y) (listeners s) s.

Inductive UIEvent :=
  | EvToggle
  | EvCloseButton
  | EvFrameMouseDown (x y : Z)
  | EvResizeHandleMouseDown (x y : Z)
  | EvDocMouseMove (x y : Z)
  | EvDocMouseUp.

(** Element events reach the window only while its container exists. *)
Definition step (s : FW) (e : UIEvent) : FW :=
  match e with
  | EvToggle => toggle s
  | EvCloseButton => if containerEl s then onClose s else s
  | EvFrameMouseDown x y => handleMouseDown x y s
  | EvResizeHandleMouseDown x y => handleResizeStart x y s
  | EvDocMouseMove x y => dispatch true x y s
  | EvDocMouseUp => dispatch false 0 0 s
  end.

Definition run (s : FW) (evs : list UIEvent) : FW := fold_left step evs s.

(** The window object before its first [toggle]. *)
Definition initFW (st : WindowSetting) : FW := mkFW false 0 0 false 0 0 0 0 None false [] st 0.

Inductive reachable (st : WindowSetting) : FW → Prop :=
  | reach_init : reachable st (initFW st)
  | reach_step s e : reachable st s → reachable st (step s e).

(** [FloatingWindowManager.resetAllPositions]: reset the position in the
    (shared) settings, then toggle twice. *)
Definition resetAllPositions (s : FW) : FW :=
  let st := uiSetting s in
  toggle (toggle (set_setting (mkWindowSetting (js "2.7em") (js "2.5em") (fwWidth st) (fwHeight st)) s)).

End Window.

(** [FloatingWindowManager.toggle(windowType)]: only "inFile" exists;
    "inVault" throws [TO_BE_IMPL]. *)
Inductive WindowType := InFile | InVault.
Definition managerToggle (w : WindowType) (s : FW) : option FW :=
  match w with InFile => Some (toggle s) | InVault => None end.

(** [FloatingWindowManager.onunload] *)
Definition managerOnunload (s : FW) : FW := onClose s.

(** A browser that reads ["<n>px"] as [n] pixels and anything else as 0. *)
Definition px_layout (t : jstr) : Z := default 0%Z (Z_of_jstr (take (length t - 2) t)).

Definition demo_setting : WindowSetting := mkWindowSetting [] [] [] [].

(** ** The window invariant *)

Definition all_listeners : list DocListener := [LMouseMove; LMouseUp; LResize; LResizeEnd].

(** A width or height written by the code respects the minimum size; one
    copied from the settings is never empty (the loader falls back to
    "300px" / "200px"). *)
Definition size_ok (min : Z) (c : Css) : Prop :=
  match c with CssPx n => (min ≤ n)%Z | CssRaw s => s ≠ [] end.

Definition sizes_ok (s : FW) : Prop :=
  ∀ c, containerEl s = Some c → size_ok 200 (c_width c) ∧ size_ok 100 (c_height c).

(** The document listeners are exactly the four handlers while the
    component is mounted and none otherwise, and the component is mounted
    exactly while the container exists. *)
Definition window_inv (s : FW) : Prop :=
  listeners s = (if mountedElement s then all_listeners else []) ∧
  (mountedElement s = true ↔ is_Some (containerEl s)) ∧ sizes_ok s.

(** Handlers leave the window's frame (listeners, mount, container
    presence) alone. *)
Definition same_frame (s s' : FW) : Prop :=
  listeners s' = listeners s ∧ mountedElement s' = mountedElement s ∧
  (is_Some (containerEl s') ↔ is_Some (containerEl s)).

Lemma same_frame_refl s : same_frame s s.
Proof. done. Qed.

Lemma same_frame_trans s1 s2 s3 : same_frame s1 s2 → same_frame s2 s3 → same_frame s1 s3.
Proof. intros (?&?&?) (?&?&?). split_and!; try congruence. by etransitivity. Qed.

Lemma is_Some_fmap_iff {A B} (f : A → B) (o : option A) : is_Some (f <$> o) ↔ is_Some o.
Proof. destruct o; simpl; split; intros; eauto; by destruct H. Qed.

Ltac fw_unfold :=
  unfold run_listener, handleMouseMove, handleResize, handleMouseUp, handleResizeEnd,
    handleMouseDown, handleResizeStart, with_container, set_saved, set_drag,
    set_resize, set_window in *.

Section Props.
Variable layout_raw : jstr → Z.

Lemma same_frame_same_container s s' :
  listeners s' = listeners s → mountedElement s' = mountedElement s →
  containerEl s' = containerEl s → same_frame s s' ∧ (sizes_ok s → sizes_ok s').
Proof. intros Hl Hm Hc. unfold same_frame, sizes_ok. rewrite Hl, Hm, Hc. done. Qed.

Lemma with_container_frame f s :
  (∀ c, size_ok 200 (c_width c) → size_ok 100 (c_height c) →
        size_ok 200 (c_width (f c)) ∧ size_ok 100 (c_height (f c))) →
  same_frame s (with_container f s) ∧ (sizes_ok s → sizes_ok (with_container f s)).
Proof.
  intros Hf. unfold same_frame, sizes_ok, with_container, set_window; simpl.
  split; [split_and!; [done|done|apply is_Some_fmap_iff]|].
  intros Hs c' Hc'. destruct (containerEl s) as [c|] eqn:E; simplify_eq/=.
  destruct (Hs c eq_refl). by apply Hf.
Qed.

Lemma run_listener_frame isMove x y s l :
  same_frame s (run_listener isMove x y s l) ∧
  (sizes_ok s → sizes_ok (run_listener isMove x y s l)).
Proof.
  destruct l, isMove; simpl; try (by apply same_frame_same_container).
  - unfold handleMouseMove. destruct (isDragging s); [|by apply same_frame_same_container].
    apply with_container_frame. intros c ??. simpl. auto.
  - unfold handleMouseUp.
    set (s1 := set_drag false (dragStartX s) (dragStartY s) s).
    destruct (same_frame_same_container s s1) as [F1 S1]; [done|done|done|].
    destruct (with_container_frame (set_opacity (js "1")) s1) as [F2 S2]; [intros ???; simpl; auto|].
    set (s2 := with_container (set_opacity (js "1")) s1) in *.
    destruct (containerEl s2) eqn:E.
    + destruct (same_frame_same_container s2 (set_saved (saveContainerElStates c) s2)) as [F3 S3];
        [done|done|done|].
      split; [eauto using same_frame_trans|auto].
    + split; [eauto using same_frame_trans|auto].
  - unfold handleResize. destruct (isResizing s); [|by apply same_frame_same_container].
    apply with_container_frame. intros c ??. simpl. split; lia.
  - unfold handleResizeEnd. destruct (isResizing s); [|by apply same_frame_same_container].
    set (s1 := set_resize false _ _ _ _ s).
    destruct (same_frame_same_container s s1) as [F1 S1]; [done|done|done|].
    destruct (containerEl s1) eqn:E.
    + destruct (same_frame_same_container s1 (set_saved (saveContainerElStates c) s1)) as [F3 S3];
        [done|done|done|].
      split; [eauto using same_frame_trans|auto].
    + split; auto.
Qed.

Lemma dispatch_frame isMove x y s :
  same_frame s (dispatch isMove x y s) ∧
  (sizes_ok s → sizes_ok (dispatch isMove x y s)).
Proof.
  unfold dispatch. generalize (listeners s) as ls. intros ls. revert s.
  induction ls as [|l ls IH]; intros s; simpl; [done|].
  destruct (run_listener_frame isMove x y s l) as [Hf Hs].
  destruct (IH (run_listener isMove x y s l)) as [Hf' Hs'].
  split; [by eapply same_frame_trans|auto].
Qed.

Lemma window_inv_frame s s' :
  window_inv s → same_frame s s' → (sizes_ok s → sizes_ok s') → window_inv s'.
Proof.
  intros (Hl & Hm & Hs) (Hl' & Hm' & Hc') Hs'. split_and!; [by rewrite Hl', Hm'| |auto].
  by rewrite Hm', Hm, Hc'.
Qed.

Lemma window_inv_toggle s : window_inv s → window_inv (toggle s).
Proof.
  intros (Hl & Hm & Hs). unfold toggle, onClose, set_window.
  destruct (mountedElement s) eqn:Em; simpl.
  - rewrite Hl. split_and!; [done|split; [done|by intros []]|by intros ? ?].
  - rewrite Hl. split_and!; [done|split; eauto|].
    intros ? [= <-]. split; apply js_or_not_nil; discriminate.
Qed.

Lemma window_inv_step s e : window_inv s → window_inv (step layout_raw s e).
Proof.
  intros Hi. destruct e; simpl.
  - by apply window_inv_toggle.
  - destruct (containerEl s) eqn:E; [|done].
    destruct Hi as (Hl & Hm & Hs). assert (mountedElement s = true) as Hmt by (apply Hm; eauto).
    unfold onClose, set_window. simpl. rewrite Hl, Hmt.
    split_and!; [done|split; [done|by intros []]|by intros ? ?].
  - unfold handleMouseDown. destruct (containerEl s) as [c|] eqn:E; [|done].
    set (s1 := set_drag true _ _ s).
    destruct (same_frame_same_container s s1) as [F1 S1]; [done|done|done|].
    destruct (with_container_frame (set_opacity (js "0.75")) s1) as [F2 S2]; [intros ???; simpl; auto|].
    eapply window_inv_frame; [done|by eapply same_frame_trans|auto].
  - unfold handleResizeStart. destruct (containerEl s) as [c|] eqn:E; [|done].
    by apply (window_inv_frame s); [|apply same_frame_same_container..].
  - eapply window_inv_frame; [done|apply dispatch_frame|apply dispatch_frame].
  - eapply window_inv_frame; [done|apply dispatch_frame|apply dispatch_frame].
Qed.

(** ** Helper lemmas on open windows *)

Lemma window_inv_open s c :
  window_inv s → containerEl s = Some c → listeners s = all_listeners ∧ mountedElement s = true.
Proof.
  intros (Hl & Hm & _) Hc. assert (mountedElement s = true) as Hmt by (apply Hm; rewrite Hc; eauto).
  by rewrite Hl, Hmt.
Qed.

Lemma dispatch_all isMove x y s :
  listeners s = all_listeners →
  dispatch isMove x y s =
    if isMove then handleResize x y (handleMouseMove x y s) else handleResizeEnd (handleMouseUp s).
Proof. intros Hl. unfold dispatch. rewrite Hl. by destruct isMove. Qed.

Lemma css_px_string (c : Css) :
  (∀ n, layout_raw (string_of_Z n ++ js "px") = n) → layout_raw (css_string c) = css_px layout_raw c.
Proof. intros Hpx. destruct c; simpl; [apply Hpx|done]. Qed.

Lemma css_string_ok min (c : Css) : size_ok min c → css_string c ≠ [].
Proof. destruct c as [n|t]; simpl; [|done]. by destruct (string_of_Z n). Qed.

Lemma mouseup_step s c :
  listeners s = all_listeners → containerEl s = Some c →
  listeners (dispatch false 0 0 s) = all_listeners ∧
  mountedElement (dispatch false 0 0 s) = mountedElement s ∧
  uiSetting (dispatch false 0 0 s) = saveContainerElStates c.
Proof.
  intros Hl Hc. rewrite dispatch_all by done. unfold handleResizeEnd, handleMouseUp. simpl.
  rewrite Hc. simpl. destruct (isResizing s); simpl; rewrite ?Hc; simpl; split_and!; done.
Qed.

(** Closing and reopening reloads the geometry from the settings. *)
Lemma toggle_twice_open s :
  listeners s = all_listeners → mountedElement s = true →
  containerEl (toggle (toggle s)) = Some (loadContainerElStates (uiSetting s) fresh_container) ∧
  listeners (toggle (toggle s)) = all_listeners ∧ mountedElement (toggle (toggle s)) = true.
Proof. intros Hl Hm. unfold toggle. rewrite Hm. simpl. rewrite Hl. done. Qed.

Lemma reachable_window_inv_aux st s : reachable layout_raw st s → window_inv s.
Proof.
  induction 1 as [|s e _ IH]; [|by apply window_inv_step].
  split_and!; [done|split; [done|by intros []]|by intros ? ?].
Qed.

(** ** Properties of the floating window *)

(** C22: in every reachable state the window's document listeners are
    exactly its four handlers while the component is mounted and none
    otherwise (no leaked or duplicated listener), the component is
    mounted exactly while the container is in the DOM, and every width
    and height it has written respects the 200 by 100 pixel minimum. *)
Theorem reachable_window_inv st s : reachable layout_raw st s → window_inv s.
Proof. apply reachable_window_inv_aux. Qed.

(** Pressing the mouse on the title bar and moving it moves the
    window by exactly the mouse delta. *)
Theorem drag_moves_window st s c x0 y0 x y :
  reachable layout_raw st s → containerEl s = Some c →
  ∃ c', containerEl (run layout_raw s [EvFrameMouseDown x0 y0; EvDocMouseMove x y]) = Some c' ∧
    offsetLeft layout_raw c' = (offsetLeft layout_raw c + (x - x0))%Z ∧ offsetTop layout_raw c' = (offsetTop layout_raw c + (y - y0))%Z.
Proof.
  intros Hr Hc. destruct (window_inv_open s c) as [Hl _]; [exact (reachable_window_inv_aux st s Hr)|done|].
  unfold run. simpl. unfold handleMouseDown. rewrite Hc.
  rewrite dispatch_all by done. unfold handleResize, handleMouseMove. simpl.
  destruct (isResizing s); simpl; rewrite Hc; simpl; eexists; (split; [done|]); unfold offsetLeft, offsetTop; simpl; lia.
Qed.

(** A mouse-up anywhere in the document while the window is open
    stops the drag and writes the container's geometry to the settings,
    posting a settings update even when no drag or resize was in
    progress (twice while a resize is in progress). *)
Theorem mouseup_saves_settings st s c :
  reachable layout_raw st s → containerEl s = Some c →
  isDragging (step layout_raw s EvDocMouseUp) = false ∧
  uiSetting (step layout_raw s EvDocMouseUp) = saveContainerElStates c ∧
  settingPosts (step layout_raw s EvDocMouseUp) =
    settingPosts s + (if isResizing s then 2 else 1).
Proof.
  intros Hr Hc. destruct (window_inv_open s c) as [Hl _]; [exact (reachable_window_inv_aux st s Hr)|done|].
  simpl. rewrite dispatch_all by done. unfold handleResizeEnd, handleMouseUp. simpl. rewrite Hc. simpl.
  destruct (isResizing s); simpl; rewrite ?Hc; simpl; split_and!; try done; lia.
Qed.

(** The geometry survives a close and reopen: after a mouse-up, a
    close and an open, the reopened window has the position and the size
    it had, provided the browser reads ["<n>px"] back as [n] pixels. *)
Theorem geometry_persists st s c :
  (∀ n, layout_raw (string_of_Z n ++ js "px") = n) →
  reachable layout_raw st s → containerEl s = Some c →
  ∃ c', containerEl (run layout_raw s [EvDocMouseUp; EvToggle; EvToggle]) = Some c' ∧
    offsetLeft layout_raw c' = offsetLeft layout_raw c ∧ offsetTop layout_raw c' = offsetTop layout_raw c ∧
    offsetWidth layout_raw c' = offsetWidth layout_raw c ∧ offsetHeight layout_raw c' = offsetHeight layout_raw c.
Proof.
  intros Hpx Hr Hc. pose proof (reachable_window_inv_aux st s Hr) as Hi.
  destruct (window_inv_open s c) as [Hl Hm]; [done|done|].
  destruct (proj2 (proj2 Hi) c Hc) as [Hw Hh].
  destruct (mouseup_step s c Hl Hc) as (Hl' & Hm' & Hst).
  unfold run. simpl. destruct (toggle_twice_open (dispatch false 0 0 s)) as (Hc' & _); [done|by rewrite Hm'|].
  rewrite Hc', Hst. eexists. split; [done|].
  unfold offsetLeft, offsetTop, offsetWidth, offsetHeight; simpl.
  rewrite !js_or_nonempty by (eapply css_string_ok; eauto).
  by rewrite !css_px_string.
Qed.

(** [resetAllPositions] writes "2.7em" / "2.5em" to the shared
    settings and keeps the size; an open window is reopened at the reset
    position, and a closed window is opened and closed again, so it stays
    closed. *)
Theorem resetAllPositions_spec st s :
  reachable layout_raw st s →
  fwLeft (uiSetting (resetAllPositions s)) = js "2.7em" ∧
  fwTop (uiSetting (resetAllPositions s)) = js "2.5em" ∧
  fwWidth (uiSetting (resetAllPositions s)) = fwWidth (uiSetting s) ∧
  fwHeight (uiSetting (resetAllPositions s)) = fwHeight (uiSetting s) ∧
  mountedElement (resetAllPositions s) = mountedElement s ∧
  (mountedElement s = true →
   containerEl (resetAllPositions s) =
     Some (loadContainerElStates (uiSetting (resetAllPositions s)) fresh_container)).
Proof.
  intros Hr. destruct (reachable_window_inv_aux st s Hr) as (Hl & _ & _).
  unfold resetAllPositions. destruct (mountedElement s) eqn:Hm.
  - destruct (toggle_twice_open (set_setting (mkWindowSetting (js "2.7em") (js "2.5em")
      (fwWidth (uiSetting s)) (fwHeight (uiSetting s))) s)) as (Hc & _ & Hm'); [done|done|].
    rewrite Hc, Hm'. unfold toggle. simpl. rewrite ?Hm. simpl. by split_and!.
  - unfold toggle. simpl. rewrite Hm. simpl. by split_and!.
Qed.

(** C23: closing the window with the hotkey in the middle of a drag removes
    every document listener, the mouse-up one included, but leaves
    [isDragging] set; after reopening, a plain mouse move (no button
    pressed) moves the window to follow the pointer from the old grab
    point. *)
Theorem stale_drag_after_close st s x y :
  reachable layout_raw st s → mountedElement s = true → isDragging s = true →
  listeners (step layout_raw s EvToggle) = [] ∧
  isDragging (run layout_raw s [EvToggle; EvToggle]) = true ∧
  ∃ c, containerEl (run layout_raw s [EvToggle; EvToggle; EvDocMouseMove x y]) = Some c ∧
    c_left c = CssPx (x - dragStartX s) ∧ c_top c = CssPx (y - dragStartY s).
Proof.
  intros Hr Hm Hd. destruct (reachable_window_inv_aux st s Hr) as (Hl & _ & _). rewrite Hm in Hl.
  destruct (toggle_twice_open s Hl Hm) as (Hc & Hl2 & _).
  assert (Hd2 : isDragging (toggle (toggle s)) = true ∧ dragStartX (toggle (toggle s)) = dragStartX s ∧
                dragStartY (toggle (toggle s)) = dragStartY s) by (unfold toggle; rewrite Hm; done).
  split; [simpl; unfold toggle; rewrite Hm; unfold onClose; simpl; by rewrite Hl|]. split; [apply Hd2|].
  unfold run. cbn [fold_left step]. rewrite dispatch_all by done.
  unfold handleMouseMove. destruct Hd2 as (-> & -> & ->).
  unfold handleResize, with_container, set_window. simpl. rewrite Hc. simpl.
  destruct (isResizing _); simpl; eexists; split_and!; done.
Qed.

End Props.

(** ** A concrete browser and examples *)

Lemma px_layout_px n : px_layout (string_of_Z n ++ js "px") = n.
Proof.
  unfold px_layout. rewrite length_app. simpl length.
  rewrite Nat.add_sub, take_app_length. by rewrite Z_of_string_of_Z.
Qed.

Lemma stale_drag_after_close_witness :
  reachable px_layout demo_setting (run px_layout (initFW demo_setting) [EvToggle; EvFrameMouseDown 100 50]) ∧
  mountedElement (run px_layout (initFW demo_setting) [EvToggle; EvFrameMouseDown 100 50]) = true ∧
  isDragging (run px_layout (initFW demo_setting) [EvToggle; EvFrameMouseDown 100 50]) = true ∧
  isDragging (run px_layout (run px_layout (initFW demo_setting) [EvToggle; EvFrameMouseDown 100 50])
                [EvToggle; EvToggle]) = true.
Proof.
  assert (H1 : reachable px_layout demo_setting (run px_layout (initFW demo_setting) [EvToggle; EvFrameMouseDown 100 50]))
    by (apply reach_step, reach_step, reach_init).
  assert (H2 : mountedElement (run px_layout (initFW demo_setting) [EvToggle; EvFrameMouseDown 100 50]) = true)
    by reflexivity.
  assert (H3 : isDragging (run px_layout (initFW demo_setting) [EvToggle; EvFrameMouseDown 100 50]) = true)
    by reflexivity.
  split_and!; [exact H1|exact H2|exact H3|].
  exact (proj1 (proj2 (stale_drag_after_close px_layout _ _ 400 300 H1 H2 H3))).
Defined.

Lemma reachable_window_inv_witness :
  reachable px_layout demo_setting (step px_layout (initFW demo_setting) EvToggle) ∧
  window_inv (step px_layout (initFW demo_setting) EvToggle).
Proof.
  assert (H : reachable px_layout demo_setting (step px_layout (initFW demo_setting) EvToggle))
    by (apply reach_step, reach_init).
  split; [exact H|exact (reachable_window_inv px_layout _ _ H)].
Defined.

Lemma drag_moves_window_witness :
  let s := step px_layout (initFW demo_setting) EvToggle in
  let c := loadContainerElStates demo_setting fresh_container in
  reachable px_layout demo_setting s ∧ containerEl s = Some c ∧
  ∃ c', containerEl (run px_layout s [EvFrameMouseDown 10 20; EvDocMouseMove 15 40]) = Some c' ∧
    offsetLeft px_layout c' = (offsetLeft px_layout c + (15 - 10))%Z ∧
    offsetTop px_layout c' = (offsetTop px_layout c + (40 - 20))%Z.
Proof.
  intros s c.
  assert (H1 : reachable px_layout demo_setting s) by (apply reach_step, reach_init).
  assert (H2 : containerEl s = Some c) by reflexivity.
  split_and!; [exact H1|exact H2|exact (drag_moves_window px_layout _ _ _ 10 20 15 40 H1 H2)].
Defined.

Lemma mouseup_saves_settings_witness :
  let s := step px_layout (initFW demo_setting) EvToggle in
  let c := loadContainerElStates demo_setting fresh_container in
  reachable px_layout demo_setting s ∧ containerEl s = Some c ∧
  isDragging (step px_layout s EvDocMouseUp) = false ∧
  uiSetting (step px_layout s EvDocMouseUp) = saveContainerElStates c ∧
  settingPosts (step px_layout s EvDocMouseUp) = settingPosts s + (if isResizing s then 2 else 1).
Proof.
  intros s c.
  assert (H1 : reachable px_layout demo_setting s) by (apply reach_step, reach_init).
  assert (H2 : containerEl s = Some c) by reflexivity.
  split_and!; [exact H1|exact H2|..]; apply (mouseup_saves_settings px_layout _ _ _ H1 H2).
Defined.

Lemma geometry_persists_witness :
  let s := run px_layout (initFW demo_setting) [EvToggle; EvResizeHandleMouseDown 0 0;
             EvDocMouseMove 350 250] in
  ∃ c, (∀ n, px_layout (string_of_Z n ++ js "px") = n) ∧
  reachable px_layout demo_setting s ∧ containerEl s = Some c ∧
  ∃ c', containerEl (run px_layout s [EvDocMouseUp; EvToggle; EvToggle]) = Some c' ∧
    offsetLeft px_layout c' = offsetLeft px_layout c ∧ offsetTop px_layout c' = offsetTop px_layout c ∧
    offsetWidth px_layout c' = offsetWidth px_layout c ∧ offsetHeight px_layout c' = offsetHeight px_layout c.
Proof.
  intros s.
  assert (H1 : reachable px_layout demo_setting s) by (repeat apply reach_step; apply reach_init).
  set (c := default fresh_container (containerEl s)).
  assert (H2 : containerEl s = Some c) by reflexivity.
  exists c. split_and!; [exact px_layout_px|exact H1|exact H2|].
  exact (geometry_persists px_layout _ _ _ px_layout_px H1 H2).
Defined.

Lemma resetAllPositions_spec_witness :
  let s := step px_layout (initFW demo_setting) EvToggle in
  reachable px_layout demo_setting s ∧
  fwLeft (uiSetting (resetAllPositions s)) = js "2.7em" ∧
  fwTop (uiSetting (resetAllPositions s)) = js "2.5em" ∧
  fwWidth (uiSetting (resetAllPositions s)) = fwWidth (uiSetting s) ∧
  fwHeight (uiSetting (resetAllPositions s)) = fwHeight (uiSetting s) ∧
  mountedElement (resetAllPositions s) = mountedElement s ∧
  (mountedElement s = true →
   containerEl (resetAllPositions s) =
     Some (loadContainerElStates (uiSetting (resetAllPositions s)) fresh_container)).
Proof.
  intros s.
  assert (H1 : reachable px_layout demo_setting s) by (apply reach_step, reach_init).
  split; [exact H1|exact (resetAllPositions_spec px_layout _ _ H1)].
Defined.

End FloatingWindow.
