(* ===== verification/CommandRegistry.v ===== *)
(** * CommandRegistry: commands and navigation hotkeys

    Models src/services/obsidian/command-registry.ts.  The navigation
    hotkeys ([AbstractNavigationHotkeys], lines 125-151, with the
    [GlobalNavigationHotkeys] and [ModalNavigationHotkeys] subclasses,
    lines 153-185) register key bindings in an Obsidian [Scope] and keep
    the returned handler objects in [handlers].  [Scope] is Obsidian's,
    not this repository's: it is the interface [KeyScope] (register a
    binding and get a fresh handler back, unregister a handler, list the
    bindings), whose laws the hotkey theorems assume and which the list
    model [ListScope] satisfies.  [emitEvent] (lines 116-122) is the
    [EventEnum] a binding emits.  The commands of [CommandRegistry]
    (lines 27-114) are records with an inductive callback, and a
    callback's run is the list of effects it performs, in order. *)

From S2P Require Import Prelude SearchTypes.

Module CommandRegistry.

(** Obsidian's [Modifier]. *)
Inductive Modifier := Mod | Ctrl | Meta | Shift | Alt.

#[export] Instance Modifier_eq_dec : EqDecision Modifier.
Proof. solve_decision. Defined.

(** The [EventEnum] members the registry emits (src/globals/enums.ts is
    not in the snapshot; the members are those used here). *)
Inductive EventEnum :=
  | NEXT_ITEM_FLOATING_WINDOW | PREV_ITEM_FLOATING_WINDOW
  | NEXT_ITEM | PREV_ITEM | CONFIRM_ITEM | CONFIRM_ITEM_IN_BACKGROUND
  | NEXT_SUB_ITEM | PREV_SUB_ITEM | SWITCH_LEXICAL_SEMANTIC_MODE | INSERT_FILE_LINK
  | IN_VAULT_SEARCH.

#[export] Instance EventEnum_eq_dec : EqDecision EventEnum.
Proof. solve_decision. Defined.

(** A key binding: [scope.register(modifiers, key, emitEvent(eventEnum))]. *)
Record KeyBinding := mkBinding { kb_mods : list Modifier; kb_key : jstr; kb_event : EventEnum }.

#[export] Instance KeyBinding_eq_dec : EqDecision KeyBinding.
Proof. solve_decision. Defined.

(** ** The [Scope] interface *)

Class KeyScope (S : Type) := {
  scope_register : list Modifier → jstr → EventEnum → S → S * nat;
  scope_unregister : nat → S → S;
  scope_bindings : S → list (nat * KeyBinding);
  scope_wf : S → Prop
}.

(** What the hotkeys rely on: [register] appends the binding under a
    handler that is new to the scope, [unregister] removes exactly that
    handler's binding, and both keep the scope well formed. *)
Class KeyScopeLaws (S : Type) `{KeyScope S} := {
  register_bindings mods key ev s :
    scope_wf s →
    scope_bindings (scope_register mods key ev s).1 =
      scope_bindings s ++ [((scope_register mods key ev s).2, mkBinding mods key ev)];
  register_fresh mods key ev s :
    scope_wf s → (scope_register mods key ev s).2 ∉ (scope_bindings s).*1;
  register_wf mods key ev s : scope_wf s → scope_wf (scope_register mods key ev s).1;
  unregister_bindings h s :
    scope_wf s → scope_bindings (scope_unregister h s) = filter (λ b, b.1 ≠ h) (scope_bindings s);
  unregister_wf h s : scope_wf s → scope_wf (scope_unregister h s)
}.

(** ** Navigation hotkeys *)

Section Hotkeys.
Context {S : Type} `{KeyScope S}.

(** [AbstractNavigationHotkeys]: [handlers] and [scope]. *)
Record Hotkeys := mkHotkeys { handlers : list nat; scope : S }.

(** [register(modifiers, key, eventEnum)] *)
Definition register (mods : list Modifier) (key : jstr) (ev : EventEnum) (hk : Hotkeys) : Hotkeys :=
  let '(s', h) := scope_register mods key ev (scope hk) in
  mkHotkeys (handlers hk ++ [h]) s'.

(** [unregisterAll()] *)
Definition unregisterAll (hk : Hotkeys) : Hotkeys :=
  mkHotkeys [] (fold_left (λ s h, scope_unregister h s) (handlers hk) (scope hk)).

Definition register_table (tbl : list KeyBinding) (hk : Hotkeys) : Hotkeys :=
  fold_left (λ hk b, register (kb_mods b) (kb_key b) (kb_event b) hk) tbl hk.

(** The bindings of [GlobalNavigationHotkeys.registerAll]. *)
Definition global_table : list KeyBinding :=
  [mkBinding [Ctrl] (js "J") NEXT_ITEM_FLOATING_WINDOW;
   mkBinding [Ctrl] (js "K") PREV_ITEM_FLOATING_WINDOW].

(** [new GlobalNavigationHotkeys()]: the app's scope, no handlers. *)
Definition newGlobalNavigationHotkeys (appScope : S) : Hotkeys := mkHotkeys [] appScope.

(** [new ModalNavigationHotkeys(scope)] *)
Definition newModalNavigationHotkeys (modalScope : S) : Hotkeys := mkHotkeys [] modalScope.

(** [GlobalNavigationHotkeys.registerAll]: forget the tracked handlers,
    then register. *)
Definition globalRegisterAll (hk : Hotkeys) : Hotkeys :=
  register_table global_table (mkHotkeys [] (scope hk)).

(** The bindings of [ModalNavigationHotkeys.registerAll]. *)
Definition modal_table : list KeyBinding :=
  [mkBinding [Ctrl] (js "J") NEXT_ITEM;
   mkBinding [Ctrl] (js "K") PREV_ITEM;
   mkBinding [] (js "ArrowDown") NEXT_ITEM;
   mkBinding [] (js "ArrowUp") PREV_ITEM;
   mkBinding [] (js "Enter") CONFIRM_ITEM;
   mkBinding [Ctrl] (js "Enter") CONFIRM_ITEM_IN_BACKGROUND;
   mkBinding [Ctrl] (js "N") NEXT_SUB_ITEM;
   mkBinding [Ctrl] (js "P") PREV_SUB_ITEM;
   mkBinding [Ctrl] (js "S") SWITCH_LEXICAL_SEMANTIC_MODE;
   mkBinding [Alt] (js "I") INSERT_FILE_LINK].

(** [ModalNavigationHotkeys.registerAll] *)
Definition modalRegisterAll (hk : Hotkeys) : Hotkeys := register_table modal_table hk.

End Hotkeys.

Arguments Hotkeys S : clear implicits.

(** The events a key press triggers: those of the bindings for exactly
    that modifier set and key. *)
Definition events_for (mods : list Modifier) (key : jstr) (bs : list (nat * KeyBinding)) : list EventEnum :=
  (λ b, kb_event b.2) <$> filter (λ b, kb_mods b.2 = mods ∧ kb_key b.2 = key) bs.

(** ** A list model of [Scope] *)

Record ListScope := mkListScope { ls_keys : list (nat * KeyBinding); ls_next : nat }.

#[export] Instance list_scope : KeyScope ListScope := {
  scope_register mods key ev s :=
    (mkListScope (ls_keys s ++ [(ls_next s, mkBinding mods key ev)]) (S (ls_next s)), ls_next s);
  scope_unregister h s := mkListScope (filter (λ b, b.1 ≠ h) (ls_keys s)) (ls_next s);
  scope_bindings := ls_keys;
  scope_wf s := Forall (λ b, b.1 < ls_next s) (ls_keys s)
}.

(** ** Commands *)

Inductive Effect :=
  | ToggleInFileWindow
  | OpenSearchModal (searchType : SearchType) (isSemantic : bool) (query : option jstr)
  | TogglePrivacyMode
  | RunDevTest
  | Emit (ev : EventEnum)
  | PreventDefault
  | ConsoleLog (msg : jstr).

Inductive Callback :=
  | CbToggleFloatingWindow | CbDevTest | CbSearchInFile | CbTogglePrivacy
  | CbSearchInVault | CbSearchInFileWithOmnisearch | CbSearchInVaultSemantic.

Record Command := mkCommand { cmd_id : jstr; cmd_name : jstr; callback : Callback }.

(** What a callback does, given [setting.ui.floatingWindowForInFile] and
    the last Omnisearch query. *)
Definition run_callback (floatingWindowForInFile : bool) (lastQuery : jstr) (cb : Callback) : list Effect :=
  match cb with
  | CbToggleFloatingWindow => [ToggleInFileWindow]
  | CbDevTest => [RunDevTest]
  | CbSearchInFile =>
      if floatingWindowForInFile then [ToggleInFileWindow] else [OpenSearchModal IN_FILE false None]
  | CbTogglePrivacy => [TogglePrivacyMode]
  | CbSearchInVault => [Emit IN_VAULT_SEARCH; OpenSearchModal IN_VAULT false None]
  | CbSearchInFileWithOmnisearch => [OpenSearchModal IN_FILE false (Some lastQuery)]
  | CbSearchInVaultSemantic => [OpenSearchModal IN_VAULT true None]
  end.

(** [emitEvent(eventEnum)]: the handler a binding runs. *)
Definition emitEvent (ev : EventEnum) : list Effect := [PreventDefault; Emit ev; ConsoleLog (js "emit...")].

(** A key press in a scope: the handlers of the matching bindings run. *)
Definition key_press (mods : list Modifier) (key : jstr) (bs : list (nat * KeyBinding)) : list Effect :=
  concat (emitEvent <$> events_for mods key bs).

(** [addDevCommands()] *)
Definition addDevCommands (isDevEnvironment : bool) (cmds : list Command) : list Command :=
  if isDevEnvironment then
    cmds ++ [mkCommand (js "cs-in-file-search-floating-window") (js "In file search - floating window")
               CbToggleFloatingWindow;
             mkCommand (js "clever-search-triggerTest") (js "clever-search-triggerTest") CbDevTest]
  else cmds.

(** [addCommandsWithoutDependency()] *)
Definition addCommandsWithoutDependency (cmds : list Command) : list Command :=
  cmds ++ [mkCommand (js "clever-search-in-file") (js "Search in file") CbSearchInFile;
           mkCommand (js "cs-toggle-privacy-mode") (js "Toggle privacy mode") CbTogglePrivacy].

(** [addInVaultCommands()] *)
Definition addInVaultCommands (cmds : list Command) : list Command :=
  cmds ++ [mkCommand (js "clever-search-in-vault") (js "Search in Vault") CbSearchInVault;
           mkCommand (js "cs-in-file-search-with-omnisearch-query")
             (js "Search in file with last Omnisearch query") CbSearchInFileWithOmnisearch;
           mkCommand (js "clever-search-in-vault-semantic") (js "Search in vault semantically")
             CbSearchInVaultSemantic].

(** [new CommandRegistry()]: registers the global hotkeys in the app
    scope; [onunload()] unregisters them. *)
Definition newCommandRegistry {S} `{KeyScope S} (global : Hotkeys S) : Hotkeys S :=
  globalRegisterAll global.
Definition onunload {S} `{KeyScope S} (global : Hotkeys S) : Hotkeys S := unregisterAll global.

(** ** Hotkey lemmas, against the [Scope] laws *)

Section HotkeyProps.
Context {S : Type} `{KeyScopeLaws S}.

Lemma register_spec mods key ev (hk : Hotkeys S) :
  scope_wf (scope hk) →
  ∃ h, handlers (register mods key ev hk) = handlers hk ++ [h] ∧
    scope_bindings (scope (register mods key ev hk)) =
      scope_bindings (scope hk) ++ [(h, mkBinding mods key ev)] ∧
    h ∉ (scope_bindings (scope hk)).*1 ∧ scope_wf (scope (register mods key ev hk)).
Proof.
  intros Hwf. unfold register.
  pose proof (register_bindings mods key ev _ Hwf) as Hb.
  pose proof (register_fresh mods key ev _ Hwf) as Hf.
  pose proof (register_wf mods key ev _ Hwf) as Hw.
  destruct (scope_register mods key ev (scope hk)) as [s' h]. simpl in *. eauto.
Qed.

Lemma register_table_spec tbl (hk : Hotkeys S) :
  scope_wf (scope hk) →
  ∃ hs, length hs = length tbl ∧ handlers (register_table tbl hk) = handlers hk ++ hs ∧
    scope_bindings (scope (register_table tbl hk)) = scope_bindings (scope hk) ++ zip hs tbl ∧
    NoDup hs ∧ Forall (λ h, h ∉ (scope_bindings (scope hk)).*1) hs ∧
    scope_wf (scope (register_table tbl hk)).
Proof.
  revert hk. induction tbl as [|b tbl IH]; intros hk Hwf; simpl.
  - exists []. rewrite !app_nil_r. split_and!; first [done|apply NoDup_nil_2|constructor].
  - destruct (register_spec (kb_mods b) (kb_key b) (kb_event b) hk Hwf) as (h & Hh & Hb & Hf & Hw).
    destruct (IH _ Hw) as (hs & Hl & Hhs & Hbs & Hnd & Hfr & Hw'). exists (h :: hs).
    rewrite Hhs, Hbs, Hh, Hb, <- !app_assoc. rewrite Hb in Hfr.
    assert (Hfr' : Forall (λ h', h' ∉ (scope_bindings (scope hk)).*1 ∧ h' ≠ h) hs).
    { eapply Forall_impl; [exact Hfr|]. intros h' Hn. rewrite fmap_app in Hn. set_solver. }
    split_and!; [simpl; lia|done|by destruct b| | |done].
    + constructor; [|done]. intros Hin. rewrite Forall_forall in Hfr'. by destruct (Hfr' h Hin).
    + constructor; [done|]. eapply Forall_impl; [exact Hfr'|]. by intros ? [].
Qed.

Lemma unregister_fold_spec hs (s : S) :
  scope_wf s →
  scope_bindings (fold_left (λ s h, scope_unregister h s) hs s) =
    filter (λ b, b.1 ∉ hs) (scope_bindings s) ∧
  scope_wf (fold_left (λ s h, scope_unregister h s) hs s).
Proof.
  revert s. induction hs as [|h hs IH]; intros s Hwf; simpl.
  - split; [|done]. symmetry. apply list_filter_all. intros ??. set_solver.
  - destruct (IH (scope_unregister h s)) as [Hb Hw]; [by apply unregister_wf|].
    split; [|done]. rewrite Hb, unregister_bindings, list_filter_filter by done.
    apply list_filter_iff. intros x. set_solver.
Qed.

Lemma filter_zip_new {A} (hs : list nat) (tbl : list A) (orig : list (nat * A)) :
  Forall (λ h, h ∉ orig.*1) hs → length hs = length tbl →
  filter (λ b, b.1 ∉ hs) (orig ++ zip hs tbl) = orig.
Proof.
  intros Hf Hl. rewrite filter_app.
  rewrite (list_filter_all _ orig), (list_filter_none _ (zip hs tbl)), app_nil_r; [done| |].
  - intros [h a] Hin. simpl. intros Hh. apply elem_of_zip_l in Hin. by apply Hh.
  - intros [h a] Hin Hh. rewrite Forall_forall in Hf. apply (Hf h Hh).
    by apply (list_elem_of_fmap_2 fst orig (h, a)).
Qed.

Lemma events_for_app mods key bs1 bs2 :
  events_for mods key (bs1 ++ bs2) = events_for mods key bs1 ++ events_for mods key bs2.
Proof. unfold events_for. by rewrite filter_app, fmap_app. Qed.

Lemma events_for_zip mods key (hs : list nat) tbl :
  length hs = length tbl →
  events_for mods key (zip hs tbl) = kb_event <$> filter (λ b, kb_mods b = mods ∧ kb_key b = key) tbl.
Proof.
  revert tbl. induction hs as [|h hs IH]; intros [|b tbl] Hl; simpl in *; try done.
  unfold events_for in *. rewrite !filter_cons. simpl.
  case_decide; simpl; rewrite IH by lia; done.
Qed.

(** Registering a table from no tracked handlers and unregistering all
    leaves the scope's bindings as they were. *)
Lemma register_table_unregister tbl (hk : Hotkeys S) :
  scope_wf (scope hk) → handlers hk = [] →
  scope_bindings (scope (unregisterAll (register_table tbl hk))) = scope_bindings (scope hk).
Proof.
  intros Hwf Hh0. destruct (register_table_spec tbl hk Hwf) as (hs & Hl & Hh & Hb & _ & Hfr & Hw).
  unfold unregisterAll. simpl. rewrite Hh, Hh0. simpl.
  destruct (unregister_fold_spec hs _ Hw) as [Hb' _]. rewrite Hb', Hb. by apply filter_zip_new.
Qed.

(** ** Properties of the hotkeys *)

(** C28: a modal's hotkeys leave no trace: registering them all and then
    unregistering them all restores the scope's bindings. *)
Theorem modal_hotkeys_roundtrip (modalScope : S) :
  scope_wf modalScope →
  scope_bindings (scope (unregisterAll (modalRegisterAll (newModalNavigationHotkeys modalScope)))) =
    scope_bindings modalScope.
Proof. intros Hwf. by apply register_table_unregister. Qed.

(** Creating the command registry and unloading it restores the
    app scope's bindings. *)
Theorem registry_lifecycle_clean (g : Hotkeys S) :
  scope_wf (scope g) →
  scope_bindings (scope (onunload (newCommandRegistry g))) = scope_bindings (scope g).
Proof. intros Hwf. by apply (register_table_unregister global_table (mkHotkeys [] (scope g))). Qed.

(** C29: [GlobalNavigationHotkeys.registerAll] forgets the handlers it
    tracked without unregistering them: after two calls and an
    [unregisterAll], the first Ctrl+J and Ctrl+K bindings are still in the
    scope. *)
Theorem global_registerAll_twice_leaks (g : Hotkeys S) :
  scope_wf (scope g) →
  ∃ h1 h2, scope_bindings (scope (unregisterAll (globalRegisterAll (globalRegisterAll g)))) =
    scope_bindings (scope g) ++
      [(h1, mkBinding [Ctrl] (js "J") NEXT_ITEM_FLOATING_WINDOW);
       (h2, mkBinding [Ctrl] (js "K") PREV_ITEM_FLOATING_WINDOW)].
Proof.
  intros Hwf. set (g1 := globalRegisterAll g).
  destruct (register_table_spec global_table (mkHotkeys [] (scope g)) Hwf)
    as ([|h1 [|h2 [|]]] & Hl & _ & Hb & _ & _ & Hw); try discriminate.
  exists h1, h2. unfold globalRegisterAll at 1.
  rewrite (register_table_unregister global_table (mkHotkeys [] (scope g1))) by done.
  exact Hb.
Qed.

Lemma modal_events_unique (hk : Hotkeys S) b :
  scope_wf (scope hk) → b ∈ modal_table →
  events_for (kb_mods b) (kb_key b) (scope_bindings (scope (modalRegisterAll hk))) =
    events_for (kb_mods b) (kb_key b) (scope_bindings (scope hk)) ++ [kb_event b].
Proof.
  intros Hwf Hb. destruct (register_table_spec modal_table hk Hwf) as (hs & Hl & _ & Hbs & _).
  unfold modalRegisterAll. rewrite Hbs, events_for_app, events_for_zip by done. f_equal.
  revert b Hb. apply Forall_forall. vm_compute. repeat constructor.
Qed.

(** After a modal's [registerAll], pressing any of its shortcuts
    runs exactly one more handler than before, [emitEvent] of that
    shortcut's event: no two bindings share a key combination. *)
Theorem modal_shortcut_effects (hk : Hotkeys S) b :
  scope_wf (scope hk) → b ∈ modal_table →
  key_press (kb_mods b) (kb_key b) (scope_bindings (scope (modalRegisterAll hk))) =
    key_press (kb_mods b) (kb_key b) (scope_bindings (scope hk)) ++ emitEvent (kb_event b).
Proof.
  intros Hwf Hb. unfold key_press. rewrite modal_events_unique by done.
  rewrite fmap_app, concat_app. simpl. by rewrite ?app_nil_r.
Qed.

End HotkeyProps.

#[export] Instance list_scope_laws : KeyScopeLaws ListScope.
Proof.
  split; cbn.
  - intros; reflexivity.
  - intros mods key ev s Hwf Hin. apply list_elem_of_fmap in Hin as ([h b] & Heq & Hin).
    simpl in Heq. subst h. rewrite Forall_forall in Hwf. specialize (Hwf _ Hin). simpl in Hwf. lia.
  - intros mods key ev s Hwf. apply Forall_app. split; [|repeat constructor; simpl; lia].
    eapply Forall_impl; [exact Hwf|]. simpl. lia.
  - intros; reflexivity.
  - intros h s Hwf. rewrite Forall_forall in Hwf |- *. intros x Hx. apply list_elem_of_filter in Hx as [_ Hx]. by apply Hwf.
Qed.

(** The app scope before the plugin registers anything. *)
Definition empty_scope : ListScope := mkListScope [] 0.

Lemma modal_hotkeys_roundtrip_witness :
  scope_wf empty_scope ∧
  scope_bindings (scope (unregisterAll (modalRegisterAll (newModalNavigationHotkeys empty_scope)))) =
    scope_bindings empty_scope.
Proof.
  assert (H1 : scope_wf empty_scope) by constructor.
  split; [exact H1|exact (modal_hotkeys_roundtrip _ H1)].
Defined.

Lemma registry_lifecycle_clean_witness :
  scope_wf (scope (mkHotkeys [] empty_scope)) ∧
  scope_bindings (scope (onunload (newCommandRegistry (mkHotkeys [] empty_scope)))) =
    scope_bindings (scope (mkHotkeys [] empty_scope)).
Proof.
  assert (H1 : scope_wf (scope (mkHotkeys [] empty_scope))) by constructor.
  split; [exact H1|exact (registry_lifecycle_clean _ H1)].
Defined.

Lemma global_registerAll_twice_leaks_witness :
  scope_wf (scope (mkHotkeys [] empty_scope)) ∧
  ∃ h1 h2, scope_bindings (scope (unregisterAll (globalRegisterAll (globalRegisterAll
      (mkHotkeys [] empty_scope))))) =
    scope_bindings (scope (mkHotkeys [] empty_scope)) ++
      [(h1, mkBinding [Ctrl] (js "J") NEXT_ITEM_FLOATING_WINDOW);
       (h2, mkBinding [Ctrl] (js "K") PREV_ITEM_FLOATING_WINDOW)].
Proof.
  assert (H1 : scope_wf (scope (mkHotkeys [] empty_scope))) by constructor.
  split; [exact H1|exact (global_registerAll_twice_leaks _ H1)].
Defined.

Lemma modal_shortcut_effects_witness :
  scope_wf (scope (mkHotkeys [] empty_scope)) ∧
  mkBinding [Ctrl] (js "Enter") CONFIRM_ITEM_IN_BACKGROUND ∈ modal_table ∧
  key_press [Ctrl] (js "Enter")
    (scope_bindings (scope (modalRegisterAll (mkHotkeys [] empty_scope)))) =
  key_press [Ctrl] (js "Enter") (scope_bindings (scope (mkHotkeys [] empty_scope)))
    ++ emitEvent CONFIRM_ITEM_IN_BACKGROUND.
Proof.
  assert (H1 : scope_wf (scope (mkHotkeys [] empty_scope))) by constructor.
  assert (H2 : mkBinding [Ctrl] (js "Enter") CONFIRM_ITEM_IN_BACKGROUND ∈ modal_table)
    by (vm_compute; do 5 right; left).
  split_and!; [exact H1|exact H2|exact (modal_shortcut_effects _ _ H1 H2)].
Defined.

End CommandRegistry.
