(* ===== verification/Assets.v ===== *)
(** * Assets: downloading and loading the tokenizer assets

    Models src/utils/web/assets-provider.ts: [AssetsProvider.downloadFile]
    (lines 71-108), [readLinesAsSet] (lines 63-69) and [initAsync] (lines
    45-61), with the target paths and source URLs of lines 11-35 and the
    shared [EMPTY_ASSETS] object (lines 111-121) that [_assets] aliases.
    The effects go through a small state-and-error monad [M] over a world
    record: the files and directories of the disk, the paths the process
    may not touch, what each URL answers, the URLs fetched so far, and the
    assets object.  A thrown error is the left injection of [Err + A];
    [try_] is a [try]/[catch] block.  [fs.promises.readFile(jieba)] is not
    awaited: [jiebaBinary] becomes a promise settled with the file's
    content or with the read error; [EMPTY_ASSETS.jiebaBinary] is
    [new Promise(() => null)], a promise that never settles ([PNever]).
    A [Set] of lines is the list of lines, used through membership.
    [fs.promises.writeFile] is not atomic: it opens the target (creating
    or truncating it) and then writes; the world's [w_writeLimit] gives
    the room left for a path, and a body longer than that leaves its
    prefix on disk and rejects with ENOSPC. *)

From S2P Require Import Prelude Engines.

Module Assets.

Inductive Err := ENOENT | EEXIST | EACCES | ENOSPC | HttpError (statusText : jstr) | NetworkError.

#[export] Instance Err_eq_dec : EqDecision Err.
Proof. solve_decision. Defined.

(** What [fetch(url)] gives: an ok response with its body, a response
    that is not ok, or a network failure (the promise rejects). *)
Inductive Response := RespOk (body : jstr) | RespNotOk (statusText : jstr) | RespNetErr.

Inductive JsPromise := PNever | PResolved (v : jstr) | PRejected (e : Err).

(** [type Assets] *)
Record Assets := mkAssets {
  stopWordsZh : option (list jstr);
  stopWordsEn : option (list jstr);
  jiebaBinary : JsPromise
}.

(** [EMPTY_ASSETS] *)
Definition EMPTY_ASSETS : Assets := mkAssets None None PNever.

Record World := mkWorld {
  w_files : gmap jstr jstr;
  w_dirs : gset jstr;
  w_denied : gset jstr;
  w_remote : jstr → Response;
  w_writeLimit : jstr → option nat;
  w_fetched : list jstr;
  w_assets : Assets
}.

(** ** The monad *)

Definition M (A : Type) : Type := World → (Err + A) * World.

#[export] Instance M_ret : MRet M := λ A x w, (inr x, w).
#[export] Instance M_bind : MBind M := λ A B f m w,
  match m w with (inl e, w') => (inl e, w') | (inr x, w') => f x w' end.

Definition throw {A} (e : Err) : M A := λ w, (inl e, w).
Definition try_ {A} (m : M A) : M (Err + A) := λ w, let '(r, w') := m w in (inr r, w').
Definition modify (f : World → World) : M unit := λ w, (inr (), f w).
Definition gets {A} (f : World → A) : M A := λ w, (inr (f w), w).

(** ** The file system and the network *)

Definition set_files (fs : gmap jstr jstr) (w : World) : World :=
  mkWorld fs (w_dirs w) (w_denied w) (w_remote w) (w_writeLimit w) (w_fetched w) (w_assets w).
Definition set_dirs (ds : gset jstr) (w : World) : World :=
  mkWorld (w_files w) ds (w_denied w) (w_remote w) (w_writeLimit w) (w_fetched w) (w_assets w).
Definition log_fetch (u : jstr) (w : World) : World :=
  mkWorld (w_files w) (w_dirs w) (w_denied w) (w_remote w) (w_writeLimit w) (w_fetched w ++ [u]) (w_assets w).
Definition set_assets (a : Assets) (w : World) : World :=
  mkWorld (w_files w) (w_dirs w) (w_denied w) (w_remote w) (w_writeLimit w) (w_fetched w) a.

(** [pathUtil.dirname(p)] and [pathUtil.join(dir, name)] on normalised
    POSIX paths. *)
Definition dirname (p : jstr) : jstr := join [SLASH] (removelast (split_on SLASH p)).
Definition path_join (dir name : jstr) : jstr := dir ++ SLASH :: name.

(** [fsUtil.promises.access(p)] *)
Definition access (p : jstr) : M unit := λ w,
  if decide (p ∈ w_denied w) then (inl EACCES, w)
  else match w_files w !! p with Some _ => (inr (), w) | None => (inl ENOENT, w) end.

(** [fsUtil.promises.mkdir(d, { recursive: true })] *)
Definition mkdir (d : jstr) : M unit := λ w,
  if decide (d ∈ w_denied w) then (inl EACCES, w) else (inr (), set_dirs ({[d]} ∪ w_dirs w) w).

(** [fetch(url)] with [response.ok] and the body. *)
Definition fetch (u : jstr) : M (bool * jstr * jstr) := λ w,
  let w := log_fetch u w in
  match w_remote w u with
  | RespOk b => (inr (true, b, []), w)
  | RespNotOk st => (inr (false, [], st), w)
  | RespNetErr => (inl NetworkError, w)
  end.

(** What a write of [data] leaves in the file when the disk accepts
    [lim] code units for it ([None]: no limit), and whether it succeeds. *)
Definition written (lim : option nat) (data : jstr) : jstr :=
  match lim with Some n => take n data | None => data end.
Definition write_ok (lim : option nat) (data : jstr) : bool :=
  match lim with Some n => bool_decide (length data ≤ n) | None => true end.

(** [fsUtil.promises.writeFile(p, data)]: the file is opened (created or
    truncated) and then written; a write that fails part way (a full
    disk) leaves the part already written. *)
Definition writeFile (p data : jstr) : M unit := λ w,
  if decide (p ∈ w_denied w) then (inl EACCES, w)
  else if decide (dirname p ∈ w_dirs w) then
    let w' := set_files (<[p := written (w_writeLimit w p) data]> (w_files w)) w in
    if write_ok (w_writeLimit w p) data then (inr (), w') else (inl ENOSPC, w')
  else (inl ENOENT, w).

(** [fsUtil.promises.readFile(p)] *)
Definition readFile (p : jstr) : M jstr := λ w,
  if decide (p ∈ w_denied w) then (inl EACCES, w)
  else match w_files w !! p with Some c => (inr c, w) | None => (inl ENOENT, w) end.

(** ** [AssetsProvider] *)

(** [downloadFile(targetPath, sourceUrl)] *)
Definition downloadFile (targetPath sourceUrl : jstr) : M unit :=
  r ← try_ (access targetPath);
  match r with
  | inr _ => mret ()
  | inl error =>
      if decide (error ≠ ENOENT) then throw error
      else
        let targetDir := dirname targetPath in
        r ← try_ (mkdir targetDir);
        _ ← (match r with
             | inl error => if decide (error ≠ EEXIST) then throw error else mret ()
             | inr _ => mret ()
             end : M unit);
        '(ok, body, statusText) ← fetch sourceUrl;
        if negb ok then throw (HttpError statusText)
        else
          r ← try_ (writeFile targetPath body);
          match r with inl error => throw error | inr _ => mret () end
  end.

(** The [assets] getter of [AssetsProvider]: [_assets], which is the
    [EMPTY_ASSETS] object itself, mutated in place. *)
Definition assets (w : World) : Assets := w_assets w.

(** [readLinesAsSet(path)] *)
Definition readLinesAsSet (path : jstr) : M (list jstr) :=
  c ← readFile path; mret (split_eol c).

(** The unawaited [fsUtil.promises.readFile(path)]: a promise settled by
    the read. *)
Definition readFilePromise (path : jstr) : M JsPromise := λ w,
  match readFile path w with
  | (inr c, _) => (inr (PResolved c), w)
  | (inl e, _) => (inr (PRejected e), w)
  end.

Definition update_assets (f : Assets → Assets) : M unit := modify (λ w, set_assets (f (w_assets w)) w).

Section Provider.
(** [userDataPath] of Electron and the source URLs. *)
Context (userDataPath : jstr).

Definition assetsDir : jstr := path_join userDataPath (js "clever-search").
Definition unpkgUrl : jstr := js "https://unpkg.com/".
Definition myRemoteDirUrl1 : jstr := unpkgUrl ++ js "obsidian-clever-search@latest/assets/for-program/".
(** The two mirrors and the tiktoken asset are declared but no download
    uses them. *)
Definition myRemoteDirUrl2 : jstr := js "https://raw.githubusercontent.com/yan42685/obsidian-clever-search/dev/assets/for-program/".
Definition myRemoteDirUrl3 : jstr := js "https://gitee.com/alexyan333777/obsidian-clever-search/raw/dev/assets/for-program/".
Definition tiktokenSourceUrl : jstr := unpkgUrl ++ js "@dqbd/tiktoken@1.0.7/tiktoken_bg.wasm".
Definition tiktokenTargetUrl : jstr := path_join assetsDir (js "tiktoken_bg.wasm").
Definition jiebaSourceUrl : jstr := unpkgUrl ++ js "jieba-wasm@0.0.2/pkg/web/jieba_rs_wasm_bg.wasm".
Definition jiebaTargetUrl : jstr := path_join assetsDir (js "jieba_rs_wasm_bg.wasm").
Definition stopWordsZhSourceUrl : jstr := myRemoteDirUrl1 ++ js "stop-words-zh.txt".
Definition stopWordsZhTargetUrl : jstr := path_join assetsDir (js "stop-words-zh.txt").
Definition stopWordsEnSourceUrl : jstr := myRemoteDirUrl1 ++ js "stop-words-en.txt".
Definition stopWordsEnTargetUrl : jstr := path_join assetsDir (js "stop-words-en.txt").

(** [initAsync()] with [setting.enableChinesePatch]. *)
Definition initAsync (enableChinesePatch : bool) : M unit :=
  _ ← (if enableChinesePatch then
         _ ← downloadFile jiebaTargetUrl jiebaSourceUrl;
         _ ← downloadFile stopWordsZhTargetUrl stopWordsZhSourceUrl;
         j ← readFilePromise jiebaTargetUrl;
         _ ← update_assets (λ a, mkAssets (stopWordsZh a) (stopWordsEn a) j);
         zh ← readLinesAsSet stopWordsZhTargetUrl;
         update_assets (λ a, mkAssets (Some zh) (stopWordsEn a) (jiebaBinary a))
       else mret ());
  _ ← downloadFile stopWordsEnTargetUrl stopWordsEnSourceUrl;
  en ← readLinesAsSet stopWordsEnTargetUrl;
  update_assets (λ a, mkAssets (stopWordsZh a) (Some en) (jiebaBinary a)).

End Provider.

(** A first start: nothing on disk, every URL answers [body]. *)
Definition fresh_world (remote : jstr → Response) : World := mkWorld ∅ ∅ ∅ remote (λ _, None) [] EMPTY_ASSETS.

(** ** Lemmas *)

Lemma bind_run {A B} (m : M A) (f : A → M B) w :
  (m ≫= f) w = match m w with (inl e, w') => (inl e, w') | (inr x, w') => f x w' end.
Proof. done. Qed.

(** [downloadFile] on every branch. *)
Lemma downloadFile_eq t s w :
  downloadFile t s w =
    if decide (t ∈ w_denied w) then (inl EACCES, w)
    else match w_files w !! t with
      | Some _ => (inr (), w)
      | None =>
          if decide (dirname t ∈ w_denied w) then (inl EACCES, w)
          else
            let w1 := log_fetch s (set_dirs ({[dirname t]} ∪ w_dirs w) w) in
            match w_remote w s with
            | RespOk b =>
                let w2 := set_files (<[t := written (w_writeLimit w t) b]> (w_files w)) w1 in
                if write_ok (w_writeLimit w t) b then (inr (), w2) else (inl ENOSPC, w2)
            | RespNotOk st => (inl (HttpError st), w1)
            | RespNetErr => (inl NetworkError, w1)
            end
      end.
Proof.
  unfold downloadFile, try_, access, mkdir, fetch, writeFile, mret, M_ret, mbind, M_bind, throw.
  simpl. case_decide as Hd; [done|]. destruct (w_files w !! t) eqn:Ht; [done|].
  simpl. case_decide as Hdd; simpl; [done|].
  destruct (w_remote w s); simpl; [|done|done].
  rewrite decide_False by done. rewrite decide_True by set_solver. simpl.
  by destruct (write_ok _ _).
Qed.

Lemma downloadFile_assets t s w : w_assets (downloadFile t s w).2 = w_assets w.
Proof. rewrite downloadFile_eq. repeat (case_decide || case_match); done. Qed.

Lemma downloadFile_denied t s w : w_denied (downloadFile t s w).2 = w_denied w.
Proof. rewrite downloadFile_eq. repeat (case_decide || case_match); done. Qed.

(** An existing target is neither fetched nor written again. *)
Lemma downloadFile_existing t s w : t ∉ w_denied w → is_Some (w_files w !! t) → downloadFile t s w = (inr (), w).
Proof. rewrite downloadFile_eq. intros Hd [c Hc]. by rewrite decide_False, Hc. Qed.

Lemma written_ok lim b : write_ok lim b = true → written lim b = b.
Proof. destruct lim as [n|]; simpl; [|done]. intros ?%bool_decide_eq_true. by apply take_ge. Qed.

Lemma written_fail lim b :
  write_ok lim b = false → ∃ n, lim = Some n ∧ n < length b ∧ written lim b = take n b.
Proof. destruct lim as [n|]; simpl; [|done]. intros ?%bool_decide_eq_false. exists n. split_and!; [done|lia|done]. Qed.

(** ** Properties of [downloadFile] *)

(** C30: [downloadFile] touches no file but its target; an existing
    target is neither fetched again nor overwritten; on success the target
    holds its old content or the fetched body; on failure the target is
    unchanged, or it did not exist and holds the part of the fetched body
    the disk accepted before the write failed. *)
Theorem downloadFile_spec t s w :
  (∀ p, p ≠ t → w_files (downloadFile t s w).2 !! p = w_files w !! p) ∧
  (t ∉ w_denied w → is_Some (w_files w !! t) → downloadFile t s w = (inr (), w)) ∧
  ((downloadFile t s w).1 = inr () →
     w_files (downloadFile t s w).2 !! t = w_files w !! t ∨
     (w_files w !! t = None ∧ ∃ b, w_remote w s = RespOk b ∧ w_files (downloadFile t s w).2 !! t = Some b)) ∧
  (∀ e, (downloadFile t s w).1 = inl e →
     w_files (downloadFile t s w).2 !! t = w_files w !! t ∨
     (w_files w !! t = None ∧ ∃ b n, w_remote w s = RespOk b ∧ w_writeLimit w t = Some n ∧
        n < length b ∧ w_files (downloadFile t s w).2 !! t = Some (take n b))).
Proof.
  split_and!; [|apply downloadFile_existing|..]; rewrite ?downloadFile_eq.
  - intros p Hp. repeat (case_decide || case_match); simpl; try done; by rewrite lookup_insert_ne.
  - repeat (case_decide || case_match); simpl; intros Hr; try done; try by left.
    match goal with H : write_ok _ _ = true |- _ => rewrite (written_ok _ _ H) end.
    right. split; [done|]. eexists. split; [done|]. by rewrite lookup_insert_eq.
  - intros e. repeat (case_decide || case_match); simpl; intros Hr; try done; try by left.
    match goal with H : write_ok _ _ = false |- _ => destruct (written_fail _ _ H) as (n & Hn & Hlt & ->) end.
    right. split; [done|]. eexists _, n. split_and!; [done|done|lia|by rewrite lookup_insert_eq].
Qed.

(** Once [downloadFile] has succeeded, calling it again changes
    nothing and fetches nothing. *)
Theorem downloadFile_idempotent t s w :
  (downloadFile t s w).1 = inr () →
  downloadFile t s (downloadFile t s w).2 = (inr (), (downloadFile t s w).2).
Proof.
  intros Hr. apply downloadFile_existing.
  - rewrite downloadFile_denied. revert Hr. rewrite downloadFile_eq. by case_decide.
  - revert Hr. rewrite downloadFile_eq.
    repeat (case_decide || case_match); simpl; intros Hr; try done; by simplify_map_eq.
Qed.

(** C31: a download whose write fails part way leaves a truncated target,
    and every later call returns at once because the target exists: the
    truncated asset is never fetched or written again. *)
Theorem truncated_download_persists t s w b n :
  t ∉ w_denied w → dirname t ∉ w_denied w → w_files w !! t = None →
  w_remote w s = RespOk b → w_writeLimit w t = Some n → n < length b →
  (downloadFile t s w).1 = inl ENOSPC ∧
  w_files (downloadFile t s w).2 !! t = Some (take n b) ∧
  downloadFile t s (downloadFile t s w).2 = (inr (), (downloadFile t s w).2).
Proof.
  intros Hd Hdd Ht Hr Hl Hn.
  assert (Hw : write_ok (w_writeLimit w t) b = false) by (rewrite Hl; simpl; apply bool_decide_eq_false_2; lia).
  assert (E : downloadFile t s w =
    (inl ENOSPC, set_files (<[t := take n b]> (w_files w))
                   (log_fetch s (set_dirs ({[dirname t]} ∪ w_dirs w) w)))).
  { rewrite downloadFile_eq, decide_False, Ht, decide_False, Hr by done. cbv zeta. by rewrite Hw, Hl. }
  rewrite E. split_and!; [done|simpl; by rewrite lookup_insert_eq|].
  apply downloadFile_existing; [done|]. simpl. rewrite lookup_insert_eq. eauto.
Qed.

(** ** Properties of [initAsync] *)

(** With the Chinese patch on, a failed download of the jieba binary
    aborts [initAsync] before the English stop words are loaded: the
    assets object is left as it was. *)
Theorem initAsync_zh_failure_blocks_en u w :
  w_files w !! jiebaTargetUrl u = None → jiebaTargetUrl u ∉ w_denied w →
  (∀ b, w_remote w jiebaSourceUrl ≠ RespOk b) →
  (∃ e, (initAsync u true w).1 = inl e) ∧ w_assets (initAsync u true w).2 = w_assets w.
Proof.
  intros Ht Hd Hr.
  assert (Hdl : ∃ e, (downloadFile (jiebaTargetUrl u) jiebaSourceUrl w).1 = inl e).
  { rewrite downloadFile_eq, decide_False, Ht by done. case_decide; [eauto|].
    destruct (w_remote w jiebaSourceUrl) eqn:R; [exfalso; by eapply Hr|eauto..]. }
  pose proof (downloadFile_assets (jiebaTargetUrl u) jiebaSourceUrl w) as Ha.
  unfold initAsync. rewrite bind_run. cbv iota beta. rewrite bind_run.
  destruct (downloadFile (jiebaTargetUrl u) jiebaSourceUrl w) as [[e|[]] w1]; simpl in *;
    [split; eauto|by destruct Hdl].
Qed.

(** Without the Chinese patch, a successful [initAsync] sets the
    English stop words to the lines of the downloaded file and leaves the
    other assets as they were: [jiebaBinary] stays the never-settling
    promise of [EMPTY_ASSETS]. *)
Theorem initAsync_loads_en u w :
  (initAsync u false w).1 = inr () →
  ∃ c, w_files (initAsync u false w).2 !! stopWordsEnTargetUrl u = Some c ∧
    w_assets (initAsync u false w).2 =
      mkAssets (stopWordsZh (w_assets w)) (Some (split_eol c)) (jiebaBinary (w_assets w)).
Proof.
  pose proof (downloadFile_assets (stopWordsEnTargetUrl u) stopWordsEnSourceUrl w) as Ha.
  unfold initAsync. rewrite bind_run. cbv iota beta. simpl. rewrite bind_run.
  destruct (downloadFile (stopWordsEnTargetUrl u) stopWordsEnSourceUrl w) as [[e|[]] w1];
    simpl in *; [done|].
  unfold readLinesAsSet. rewrite bind_run, bind_run. unfold readFile.
  case_decide; [done|]. destruct (w_files w1 !! stopWordsEnTargetUrl u) as [c|] eqn:Hc; [|done].
  intros _. exists c. simpl. rewrite Ha. by split.
Qed.

(** Without the Chinese patch and with no English stop words on disk,
    [initAsync] fetches exactly the English stop-words URL. *)
Lemma initAsync_en_fetches u w :
  w_files w !! stopWordsEnTargetUrl u = None → stopWordsEnTargetUrl u ∉ w_denied w →
  dirname (stopWordsEnTargetUrl u) ∉ w_denied w →
  w_fetched (initAsync u false w).2 = w_fetched w ++ [stopWordsEnSourceUrl].
Proof.
  intros Hf Hd Hdd.
  assert (Hdl : w_fetched (downloadFile (stopWordsEnTargetUrl u) stopWordsEnSourceUrl w).2 =
                w_fetched w ++ [stopWordsEnSourceUrl]).
  { rewrite downloadFile_eq, decide_False, Hf, decide_False by done.
    destruct (w_remote w stopWordsEnSourceUrl); [|done|done]. by destruct (write_ok _ _). }
  unfold initAsync. rewrite bind_run. cbv iota beta. simpl. rewrite bind_run.
  destruct (downloadFile (stopWordsEnTargetUrl u) stopWordsEnSourceUrl w) as [[e|[]] w1];
    simpl in *; [done|].
  unfold readLinesAsSet. rewrite bind_run, bind_run. unfold readFile.
  case_decide; [done|]. by destruct (w_files w1 !! stopWordsEnTargetUrl u).
Qed.

Lemma initAsync_zh_failure_blocks_en_witness :
  let w := fresh_world (λ _, RespNotOk (js "Not Found")) in
  w_files w !! jiebaTargetUrl (js "/cfg") = None ∧ jiebaTargetUrl (js "/cfg") ∉ w_denied w ∧
  (∀ b, w_remote w jiebaSourceUrl ≠ RespOk b) ∧
  (∃ e, (initAsync (js "/cfg") true w).1 = inl e) ∧
  w_assets (initAsync (js "/cfg") true w).2 = w_assets w.
Proof.
  intros w.
  assert (H1 : w_files w !! jiebaTargetUrl (js "/cfg") = None) by reflexivity.
  assert (H2 : jiebaTargetUrl (js "/cfg") ∉ w_denied w) by set_solver.
  assert (H3 : ∀ b, w_remote w jiebaSourceUrl ≠ RespOk b) by discriminate.
  split_and!; [exact H1|exact H2|exact H3|..]; apply (initAsync_zh_failure_blocks_en _ _ H1 H2 H3).
Defined.

Lemma initAsync_loads_en_witness :
  let w := fresh_world (λ _, RespOk (js "a" ++ [LF] ++ js "the")) in
  (initAsync (js "/cfg") false w).1 = inr () ∧
  ∃ c, w_files (initAsync (js "/cfg") false w).2 !! stopWordsEnTargetUrl (js "/cfg") = Some c ∧
    w_assets (initAsync (js "/cfg") false w).2 =
      mkAssets (stopWordsZh (w_assets w)) (Some (split_eol c)) (jiebaBinary (w_assets w)).
Proof.
  intros w. assert (H : (initAsync (js "/cfg") false w).1 = inr ()) by (vm_compute; reflexivity).
  split; [exact H|exact (initAsync_loads_en _ _ H)].
Defined.

Lemma downloadFile_idempotent_witness :
  let w := fresh_world (λ _, RespOk (js "the")) in
  (downloadFile (js "/cfg/a.txt") (js "https://x/a.txt") w).1 = inr () ∧
  downloadFile (js "/cfg/a.txt") (js "https://x/a.txt")
    (downloadFile (js "/cfg/a.txt") (js "https://x/a.txt") w).2 =
  (inr (), (downloadFile (js "/cfg/a.txt") (js "https://x/a.txt") w).2).
Proof.
  intros w. assert (H : (downloadFile (js "/cfg/a.txt") (js "https://x/a.txt") w).1 = inr ())
    by (vm_compute; reflexivity).
  split; [exact H|exact (downloadFile_idempotent _ _ _ H)].
Defined.

(** A disk that accepts three code units of any write. *)
Definition full_disk_world : World :=
  mkWorld ∅ ∅ ∅ (λ _, RespOk (js "abcdef")) (λ _, Some 3) [] EMPTY_ASSETS.

Lemma truncated_download_persists_witness :
  js "/cfg/a.txt" ∉ w_denied full_disk_world ∧ dirname (js "/cfg/a.txt") ∉ w_denied full_disk_world ∧
  w_files full_disk_world !! js "/cfg/a.txt" = None ∧
  w_remote full_disk_world (js "https://x/a.txt") = RespOk (js "abcdef") ∧
  w_writeLimit full_disk_world (js "/cfg/a.txt") = Some 3 ∧ 3 < length (js "abcdef") ∧
  (downloadFile (js "/cfg/a.txt") (js "https://x/a.txt") full_disk_world).1 = inl ENOSPC ∧
  w_files (downloadFile (js "/cfg/a.txt") (js "https://x/a.txt") full_disk_world).2 !! js "/cfg/a.txt"
    = Some (take 3 (js "abcdef")) ∧
  downloadFile (js "/cfg/a.txt") (js "https://x/a.txt")
    (downloadFile (js "/cfg/a.txt") (js "https://x/a.txt") full_disk_world).2 =
  (inr (), (downloadFile (js "/cfg/a.txt") (js "https://x/a.txt") full_disk_world).2).
Proof.
  assert (H1 : js "/cfg/a.txt" ∉ w_denied full_disk_world) by set_solver.
  assert (H2 : dirname (js "/cfg/a.txt") ∉ w_denied full_disk_world) by set_solver.
  assert (H3 : w_files full_disk_world !! js "/cfg/a.txt" = None) by reflexivity.
  assert (H4 : w_remote full_disk_world (js "https://x/a.txt") = RespOk (js "abcdef")) by reflexivity.
  assert (H5 : w_writeLimit full_disk_world (js "/cfg/a.txt") = Some 3) by reflexivity.
  assert (H6 : 3 < length (js "abcdef")) by (simpl; lia).
  split_and!; [exact H1|exact H2|exact H3|exact H4|exact H5|exact H6|..];
    apply (truncated_download_persists _ _ _ _ _ H1 H2 H3 H4 H5 H6).
Defined.

End Assets.
