(* ===== verification/ElasticService.v ===== *)
(** * ElasticService: the earlier Elasticsearch-backed service

    Models src/search-service.ts, class [SearchService] of the first
    version of the plugin.  The constructor (lines 16-52) watches each
    path of [getWatchedPaths()] with chokidar ([watches]: the path and
    everything below it) and sends every "add" and "change" event to ONE
    [debounce(3000, this.indexFile)] shared by all files and watchers;
    [indexFile] (lines 71-89) reads the file and indexes it under its path
    as id; [reIndexAll] (lines 92-99) only deletes the index.  The
    Elasticsearch index is a map from document id to document, and the
    server accepts or rejects each request according to [es_up], a
    function of time: a rejected request is only logged by the [catch].
    Time is in milliseconds; the debounced function keeps one pending
    timer with the latest argument, and a timer whose deadline has passed
    fires, at its deadline, before the next event is handled.  [flush]
    lets the last timer fire.  A file that has disappeared when its timer
    fires makes [readFileSync] throw inside the timer callback, and
    nothing is indexed.

    Theorems: the shared timer drops all but the last of close changes
    (C38); with spaced events and an available server the debounced
    indexer refines an immediate one (C39); the last change is indexed if
    the server accepts it (C40); a rejected request is never retried; and
    overlapping watched paths change nothing. *)

From S2P Require Import Prelude.

Module ElasticService.

(** The document of [client.index]. *)
Record Doc := mkDoc { doc_path : jstr; doc_title : jstr; doc_content : jstr }.

(** [pathUtils.basename(path)] *)
Definition basename (p : jstr) : jstr := default [] (last (split_on SLASH p)).

(** A chokidar event with its time: the file's new content for "add"
    and "change". *)
Inductive FsEvent :=
  | FsAdd (t : Z) (p : jstr) (c : jstr)
  | FsChange (t : Z) (p : jstr) (c : jstr)
  | FsUnlink (t : Z) (p : jstr).

Definition ev_time (e : FsEvent) : Z :=
  match e with FsAdd t _ _ | FsChange t _ _ | FsUnlink t _ => t end.

Definition ev_path (e : FsEvent) : jstr :=
  match e with FsAdd _ p _ | FsChange _ p _ | FsUnlink _ p => p end.

(** The files on disk, the documents of the Elasticsearch index, and the
    one timer of the shared debounced [indexFile] with its deadline and
    its latest argument. *)
Record Svc := mkSvc {
  disk : gmap jstr jstr;
  index : gmap jstr Doc;
  pending : option (Z * jstr)
}.

Definition DEBOUNCE_MS : Z := 3000.

(** [chokidar.watch(path)] reports the events of [path] and of every
    file below it. *)
Definition watches (w p : jstr) : bool :=
  bool_decide (p = w) || starts_with (w ++ [SLASH]) p.

(** Some watched path covers the file. *)
Definition watched (ws : list jstr) (p : jstr) : bool := existsb (λ w, watches w p) ws.

Section Client.
(** The Elasticsearch server at [http://localhost:9200]: a request sent
    at time [t] is accepted when [es_up t] and rejected otherwise. *)
Context (es_up : Z → bool).
(** [pluginStates.getWatchedPaths()] (the earlier PluginManager is not
    in the snapshot). *)
Context (watchedPaths : list jstr).

(** [indexFile(path)] at time [now]: [readFileSync] throws when the file
    is gone, and a rejected [client.index] is only logged. *)
Definition indexFile (now : Z) (p : jstr) (s : Svc) : Svc :=
  match disk s !! p with
  | Some content =>
      if es_up now then mkSvc (disk s) (<[p := mkDoc p (basename p) content]> (index s)) (pending s)
      else s
  | None => s
  end.

(** The pending timer fires, at its deadline, if the deadline has passed. *)
Definition fire_due (now : Z) (s : Svc) : Svc :=
  match pending s with
  | Some (d, p) => if (d <=? now)%Z then indexFile d p (mkSvc (disk s) (index s) None) else s
  | None => s
  end.

(** An add or change event before the handlers run: a due timer fires,
    then the file is written. *)
Definition write (t : Z) (p c : jstr) (s : Svc) : Svc :=
  let s := fire_due t s in mkSvc (<[p := c]> (disk s)) (index s) (pending s).

(** [indexFileDebounced(path)]: restart the timer with the new argument. *)
Definition indexFileDebounced (now : Z) (p : jstr) (s : Svc) : Svc :=
  mkSvc (disk s) (index s) (Some (now + DEBOUNCE_MS, p))%Z.

(** A chokidar event: the disk changes, then the "add" or "change"
    handler of every watcher whose path covers the file runs. *)
Definition handle (s : Svc) (e : FsEvent) : Svc :=
  match e with
  | FsAdd t p c | FsChange t p c =>
      foldl (λ s w, if watches w p then indexFileDebounced t p s else s) (write t p c s) watchedPaths
  | FsUnlink t p =>
      let s := fire_due t s in
      mkSvc (delete p (disk s)) (index s) (pending s)
  end.

(** The last timer fires at its deadline. *)
Definition flush (s : Svc) : Svc :=
  match pending s with Some (d, p) => indexFile d p (mkSvc (disk s) (index s) None) | None => s end.

(** The service after a sequence of events, once the last timer has
    fired. *)
Definition run (s : Svc) (evs : list FsEvent) : Svc := flush (fold_left handle evs s).

(** [reIndexAll()] at time [now]: the index is deleted and nothing is
    indexed again; a rejected delete is only logged. *)
Definition reIndexAll (now : Z) (s : Svc) : Svc :=
  if es_up now then mkSvc (disk s) ∅ (pending s) else s.

End Client.

(** What [client.search] resolves to: the hits, or a rejection. *)
Inductive SearchReply := Hits (hits : list Doc) | EmptyArray.

(** [search(query)]: a rejected request is caught and [[]] returned in
    place of the response. *)
Definition search (clientSearch : jstr → option (list Doc)) (query : jstr) : SearchReply :=
  match clientSearch query with Some hs => Hits hs | None => EmptyArray end.

(** The constructor's [this.search("hello").then(result => ...
    result.hits.hits ...)]: [None] is the [TypeError] of reading [hits] of
    [[].hits], which is [undefined]. *)
Definition constructor_search_demo (clientSearch : jstr → option (list Doc)) : option (list Doc) :=
  match search clientSearch (js "hello") with Hits hs => Some hs | EmptyArray => None end.

(** An indexer without debouncing: each add or change is indexed at
    once (reference). *)
Definition index_now (m : gmap jstr Doc) (e : FsEvent) : gmap jstr Doc :=
  match e with
  | FsAdd _ p c | FsChange _ p c => <[p := mkDoc p (basename p) c]> m
  | FsUnlink _ _ => m
  end.

(** Events at least [DEBOUNCE_MS] apart, none of them an unlink. *)
Fixpoint spaced (t0 : Z) (evs : list FsEvent) : Prop :=
  match evs with
  | [] => True
  | e :: rest =>
      (t0 + DEBOUNCE_MS ≤ ev_time e)%Z ∧
      (match e with FsUnlink _ _ => False | _ => True end) ∧ spaced (ev_time e) rest
  end.

(** ** Lemmas *)

Section ClientLemmas.
Context (es_up : Z → bool) (ws : list jstr).

Lemma indexFileDebounced_idem t p s :
  indexFileDebounced t p (indexFileDebounced t p s) = indexFileDebounced t p s.
Proof. done. Qed.

(** Every watcher covering the file restarts the same timer with the same
    argument, so the watchers act as one. *)
Lemma foldl_debounce t p (l : list jstr) s :
  foldl (λ s w, if watches w p then indexFileDebounced t p s else s) s l =
    if watched l p then indexFileDebounced t p s else s.
Proof.
  revert s. induction l as [|w l IH]; intros s; [done|]. simpl. rewrite IH.
  destruct (watches w p), (watched l p); done.
Qed.

Lemma handle_change s t p c :
  handle es_up ws s (FsChange t p c) =
    if watched ws p then indexFileDebounced t p (write es_up t p c s) else write es_up t p c s.
Proof. apply foldl_debounce. Qed.

Lemma handle_add s t p c : handle es_up ws s (FsAdd t p c) = handle es_up ws s (FsChange t p c).
Proof. done. Qed.

Lemma fire_due_flush now s :
  (∀ d p, pending s = Some (d, p) → (d ≤ now)%Z) → fire_due es_up now s = flush es_up s.
Proof.
  unfold fire_due, flush. destruct (pending s) as [[d p]|]; [|done].
  intros Hd. by rewrite (proj2 (Z.leb_le d now) (Hd d p eq_refl)).
Qed.

Lemma flush_pending s : pending (flush es_up s) = None.
Proof. unfold flush, indexFile. repeat case_match; simplify_eq/=; done. Qed.

(** The timer of a write fires at its deadline and indexes the content
    written when the server accepts the request then. *)
Lemma flush_write_indexed (t : Z) (p c : jstr) (d : gmap jstr jstr) (m : gmap jstr Doc) (q : option (Z * jstr)) :
  es_up (t + DEBOUNCE_MS)%Z = true →
  index (flush es_up (indexFileDebounced t p (mkSvc (<[p := c]> d) m q))) =
    <[p := mkDoc p (basename p) c]> m.
Proof. intros Hup. unfold flush, indexFile. simpl. by rewrite lookup_insert_eq, Hup. Qed.

(** ** A path whose last request is rejected keeps its document *)

(** [p] has the document [v] in the index, and a timer pending for [p]
    would fire when the server rejects requests. *)
Definition keeps (p : jstr) (v : option Doc) (s : Svc) : Prop :=
  index s !! p = v ∧ ∀ d, pending s = Some (d, p) → es_up d = false.

Lemma keeps_indexFile p v now q s :
  (q = p → es_up now = false) → keeps p v s → keeps p v (indexFile es_up now q s).
Proof.
  intros Hq Hk. unfold indexFile. destruct (disk s !! q); [|done].
  destruct (es_up now) eqn:Hup; [|done].
  destruct (decide (q = p)) as [->|Hne]; [specialize (Hq eq_refl); congruence|].
  destruct Hk as [Hi Hd]. split; [simpl; by rewrite lookup_insert_ne|done].
Qed.

Lemma keeps_fire p v now s : keeps p v s → keeps p v (fire_due es_up now s).
Proof.
  intros Hk. unfold fire_due. destruct (pending s) as [[d q]|] eqn:Hp; [|done].
  case_match; [|done]. apply keeps_indexFile.
  - intros ->. by apply (proj2 Hk).
  - split; [apply (proj1 Hk)|done].
Qed.

Lemma keeps_flush p v s : keeps p v s → keeps p v (flush es_up s).
Proof.
  intros Hk. unfold flush. destruct (pending s) as [[d q]|] eqn:Hp; [|done].
  apply keeps_indexFile; [intros ->; by apply (proj2 Hk)|split; [apply (proj1 Hk)|done]].
Qed.

Lemma keeps_write p v t q c s : keeps p v s → keeps p v (write es_up t q c s).
Proof. intros Hk. apply (keeps_fire _ _ t) in Hk. unfold write. destruct Hk. by split. Qed.

Lemma keeps_handle p v s e : ev_path e ≠ p → keeps p v s → keeps p v (handle es_up ws s e).
Proof.
  intros Hne Hk. destruct e as [t q c|t q c|t q]; simpl in Hne;
    [rewrite handle_add| |]; try rewrite handle_change.
  1,2: apply (keeps_write p v t q c) in Hk; case_match; [|done];
       destruct Hk; split; [done|intros d [= _ ?]; congruence].
  apply (keeps_fire p v t) in Hk. destruct Hk. by split.
Qed.

Lemma keeps_fold p v s evs :
  Forall (λ e, ev_path e ≠ p) evs → keeps p v s → keeps p v (fold_left (handle es_up ws) evs s).
Proof.
  intros Hf. revert s. induction Hf as [|e evs He Hf IH]; intros s Hk; [done|].
  simpl. apply IH, keeps_handle; done.
Qed.

End ClientLemmas.

(** [chokidar.watch] on a directory covers every path below it. *)
Lemma watches_below w r p : watches (w ++ SLASH :: r) p = true → watches w p = true.
Proof.
  unfold watches, starts_with. intros H. apply orb_true_iff. right. apply bool_decide_eq_true.
  apply orb_true_iff in H as [Hp|Hp]; apply bool_decide_eq_true in Hp.
  - subst. exists r. by rewrite <- app_assoc.
  - etrans; [|exact Hp]. exists (r ++ [SLASH]). by rewrite <- !app_assoc.
Qed.

(** The service depends on the watched paths only through the files they
    cover. *)
Lemma run_watched_ext es_up ws1 ws2 s evs :
  (∀ p, watched ws1 p = watched ws2 p) → run es_up ws1 s evs = run es_up ws2 s evs.
Proof.
  intros Hw. unfold run. f_equal. revert s. induction evs as [|e evs IH]; intros s; [done|].
  simpl. rewrite IH. f_equal.
  destruct e; [rewrite !handle_add| |done]; by rewrite !handle_change, Hw.
Qed.

Lemma run_spaced es_up ws evs : ∀ s t0,
  (∀ t, es_up t = true) → Forall (λ e, watched ws (ev_path e) = true) evs →
  spaced t0 evs → (∀ d p, pending s = Some (d, p) → (d ≤ t0 + DEBOUNCE_MS)%Z) →
  index (run es_up ws s evs) = fold_left index_now evs (index (flush es_up s)).
Proof.
  induction evs as [|e rest IH]; intros s t0 Hup Hw Hsp Hd; [done|].
  inversion Hw as [|? ? He Hw']; subst. destruct Hsp as (Ht & Hne & Hrest). unfold run in *.
  cbn [fold_left]. destruct e as [t p c|t p c|t p]; cbn [ev_path ev_time] in *; [rewrite handle_add| |done];
  (rewrite handle_change, He; rewrite (IH _ t Hup Hw' Hrest) by (intros d q [= <- _]; lia);
   f_equal; unfold write; rewrite fire_due_flush by (intros d q Hq; specialize (Hd d q Hq); lia);
   by apply flush_write_indexed).
Qed.

(** ** Properties *)

Section Properties.
Context (es_up : Z → bool) (ws : list jstr).

(** C33: the debounce is shared by all files: when a second file
    changes less than three seconds after a first one, only the second is
    indexed, and the first change never reaches the index. *)
Theorem debounce_drops_first_file s0 t d p q cp cq :
  p ≠ q → (0 ≤ d < DEBOUNCE_MS)%Z → pending s0 = None →
  watched ws p = true → watched ws q = true → es_up (t + d + DEBOUNCE_MS)%Z = true →
  index (run es_up ws s0 [FsChange t p cp; FsChange (t + d) q cq]) =
    <[q := mkDoc q (basename q) cq]> (index s0) ∧
  index (run es_up ws s0 [FsChange t p cp; FsChange (t + d) q cq]) !! p = index s0 !! p.
Proof.
  intros Hpq Hd Hs0 Hp Hq Hup.
  assert (E : fold_left (handle es_up ws) [FsChange t p cp; FsChange (t + d) q cq] s0 =
    indexFileDebounced (t + d) q (mkSvc (<[q := cq]> (<[p := cp]> (disk s0))) (index s0) None)).
  { cbn [fold_left]. rewrite !handle_change, Hp, Hq. unfold write, fire_due. rewrite Hs0. simpl.
    rewrite (proj2 (Z.leb_gt _ _)) by (unfold DEBOUNCE_MS in *; lia). done. }
  unfold run. rewrite E, flush_write_indexed by done.
  split; [done|]. by rewrite lookup_insert_ne by congruence.
Qed.

(** C34: when the server accepts every request and the adds and changes
    of watched files are at least three seconds apart, the debounced
    indexer ends with the same index as an indexer that indexes every
    event at once. *)
Theorem debounce_spaced_refines s0 t0 evs :
  (∀ t, es_up t = true) → Forall (λ e, watched ws (ev_path e) = true) evs →
  pending s0 = None → spaced t0 evs →
  index (run es_up ws s0 evs) = fold_left index_now evs (index s0).
Proof.
  intros Hup Hw Hs0 Hsp. rewrite (run_spaced es_up ws evs s0 t0 Hup Hw Hsp) by (rewrite Hs0; done).
  unfold flush. by rewrite Hs0.
Qed.

(** C35: the last add or change of a watched file is eventually indexed:
    once its timer has fired, if the server accepts the request then, the
    index holds the file with the content of that event, whatever the
    events before it. *)
Theorem debounce_last_change_indexed s evs t p c :
  watched ws p = true → es_up (t + DEBOUNCE_MS)%Z = true →
  index (run es_up ws s (evs ++ [FsChange t p c])) !! p = Some (mkDoc p (basename p) c) ∧
  index (run es_up ws s (evs ++ [FsAdd t p c])) !! p = Some (mkDoc p (basename p) c).
Proof.
  intros Hw Hup. unfold run. rewrite !fold_left_app. cbn [fold_left]. rewrite handle_add, handle_change, Hw.
  unfold write. by rewrite flush_write_indexed, lookup_insert_eq.
Qed.

(** C36: a rejected [client.index] is never retried: when the server is down
    at the deadline of a change, that change never reaches the index,
    whatever events on other files follow. *)
Theorem index_rejection_never_retried s0 t p c evs :
  es_up (t + DEBOUNCE_MS)%Z = false → (∀ d, pending s0 ≠ Some (d, p)) →
  Forall (λ e, ev_path e ≠ p) evs →
  index (run es_up ws s0 (FsChange t p c :: evs)) !! p = index s0 !! p.
Proof.
  intros Hdown Hs0 Hevs.
  enough (Hk : keeps es_up p (index s0 !! p) (run es_up ws s0 (FsChange t p c :: evs))) by apply Hk.
  unfold run. cbn [fold_left]. apply keeps_flush, keeps_fold; [done|]. rewrite handle_change.
  assert (Hw : keeps es_up p (index s0 !! p) (write es_up t p c s0)).
  { apply keeps_write. split; [done|]. intros d Hd. by destruct (Hs0 d). }
  case_match; [|done]. destruct Hw. split; [done|]. by intros d [= <-].
Qed.

(** C37: watching a path a second time, or a directory below a watched one
    (the duplicate sub-directories of the constructor's TODO), changes
    nothing: the watchers share one debounced indexer. *)
Theorem nested_watch_harmless w sub s evs :
  w ∈ ws → (sub = w ∨ ∃ r, sub = w ++ SLASH :: r) →
  run es_up (ws ++ [sub]) s evs = run es_up ws s evs.
Proof.
  intros Hin Hsub. apply run_watched_ext. intros p. unfold watched. rewrite existsb_app. simpl.
  destruct (watches sub p) eqn:Hs; [|by rewrite !orb_false_r].
  rewrite orb_true_r. symmetry. apply existsb_exists. exists w. split; [by apply list_elem_of_In|].
  destruct Hsub as [->|[r ->]]; [done|]. by eapply watches_below.
Qed.

End Properties.

(** [fs.unlink] is not watched: a deleted note stays in the index. *)
Example unlink_keeps_document :
  index (run (λ _, true) [js "/v"] (mkSvc ∅ ∅ None)
           [FsAdd 0 (js "/v/a.md") (js "x"); FsUnlink 5000 (js "/v/a.md")])
    !! js "/v/a.md" = Some (mkDoc (js "/v/a.md") (js "a.md") (js "x")).
Proof. vm_compute. reflexivity. Qed.

(** A file outside the watched paths is never indexed. *)
Example unwatched_not_indexed :
  index (run (λ _, true) [js "/v"] (mkSvc ∅ ∅ None) [FsAdd 0 (js "/w/a.md") (js "x")])
    !! js "/w/a.md" = None.
Proof. vm_compute. reflexivity. Qed.

(** When Elasticsearch is unreachable, [search] swallows the error and
    the constructor's callback then fails on [result.hits.hits]. *)
Example search_failure_breaks_demo : constructor_search_demo (λ _, None) = None.
Proof. reflexivity. Qed.

(** ** Witnesses on a vault watched at [/v] *)

Abbreviation up := (λ _ : Z, true).
Abbreviation vault := [js "/v"].

Lemma debounce_drops_first_file_witness :
  js "/v/a.md" ≠ js "/v/b.md" ∧ (0 ≤ 1000 < DEBOUNCE_MS)%Z ∧ pending (mkSvc ∅ ∅ None) = None ∧
  watched vault (js "/v/a.md") = true ∧ watched vault (js "/v/b.md") = true ∧ up (0 + 1000 + DEBOUNCE_MS)%Z = true ∧
  index (run up vault (mkSvc ∅ ∅ None) [FsChange 0 (js "/v/a.md") (js "x"); FsChange (0 + 1000) (js "/v/b.md") (js "y")]) =
    <[js "/v/b.md" := mkDoc (js "/v/b.md") (basename (js "/v/b.md")) (js "y")]> (index (mkSvc ∅ ∅ None)) ∧
  index (run up vault (mkSvc ∅ ∅ None) [FsChange 0 (js "/v/a.md") (js "x"); FsChange (0 + 1000) (js "/v/b.md") (js "y")])
    !! js "/v/a.md" = index (mkSvc ∅ ∅ None) !! js "/v/a.md".
Proof.
  assert (H1 : js "/v/a.md" ≠ js "/v/b.md") by discriminate.
  assert (H2 : (0 ≤ 1000 < DEBOUNCE_MS)%Z) by (unfold DEBOUNCE_MS; lia).
  assert (H3 : pending (mkSvc ∅ ∅ None) = None) by reflexivity.
  assert (H4 : watched vault (js "/v/a.md") = true) by reflexivity.
  assert (H5 : watched vault (js "/v/b.md") = true) by reflexivity.
  assert (H6 : up (0 + 1000 + DEBOUNCE_MS)%Z = true) by reflexivity.
  split; [exact H1|]. split; [exact H2|]. split; [exact H3|]. split; [exact H4|].
  split; [exact H5|]. split; [exact H6|].
  exact (debounce_drops_first_file up vault _ _ _ _ _ _ _ H1 H2 H3 H4 H5 H6).
Defined.

Lemma debounce_spaced_refines_witness :
  (∀ t, up t = true) ∧
  Forall (λ e, watched vault (ev_path e) = true) [FsAdd 3000 (js "/v/a.md") (js "x"); FsChange 6000 (js "/v/b.md") (js "y")] ∧
  pending (mkSvc ∅ ∅ None) = None ∧
  spaced 0 [FsAdd 3000 (js "/v/a.md") (js "x"); FsChange 6000 (js "/v/b.md") (js "y")] ∧
  index (run up vault (mkSvc ∅ ∅ None) [FsAdd 3000 (js "/v/a.md") (js "x"); FsChange 6000 (js "/v/b.md") (js "y")]) =
    fold_left index_now [FsAdd 3000 (js "/v/a.md") (js "x"); FsChange 6000 (js "/v/b.md") (js "y")]
      (index (mkSvc ∅ ∅ None)).
Proof.
  assert (H0 : ∀ t, up t = true) by reflexivity.
  assert (H1 : Forall (λ e, watched vault (ev_path e) = true)
      [FsAdd 3000 (js "/v/a.md") (js "x"); FsChange 6000 (js "/v/b.md") (js "y")]) by repeat constructor.
  assert (H2 : pending (mkSvc ∅ ∅ None) = None) by reflexivity.
  assert (H3 : spaced 0 [FsAdd 3000 (js "/v/a.md") (js "x"); FsChange 6000 (js "/v/b.md") (js "y")])
    by (simpl; unfold DEBOUNCE_MS; lia).
  split; [exact H0|]. split; [exact H1|]. split; [exact H2|]. split; [exact H3|].
  exact (debounce_spaced_refines up vault _ _ _ H0 H1 H2 H3).
Defined.

Lemma debounce_last_change_indexed_witness :
  watched vault (js "/v/a.md") = true ∧ up (0 + DEBOUNCE_MS)%Z = true ∧
  index (run up vault (mkSvc ∅ ∅ None) ([] ++ [FsChange 0 (js "/v/a.md") (js "x")])) !! js "/v/a.md" =
    Some (mkDoc (js "/v/a.md") (basename (js "/v/a.md")) (js "x")).
Proof.
  assert (H1 : watched vault (js "/v/a.md") = true) by reflexivity.
  assert (H2 : up (0 + DEBOUNCE_MS)%Z = true) by reflexivity.
  split; [exact H1|]. split; [exact H2|].
  exact (proj1 (debounce_last_change_indexed up vault _ [] _ _ _ H1 H2)).
Defined.

(** The server is down at 3 s: the change of a.md at 0 is lost, though
    b.md changes at 4 s while the server is up again. *)
Lemma index_rejection_never_retried_witness :
  (λ t : Z, negb (t =? 3000)%Z) (0 + DEBOUNCE_MS)%Z = false ∧
  (∀ d, pending (mkSvc ∅ ∅ None) ≠ Some (d, js "/v/a.md")) ∧
  Forall (λ e, ev_path e ≠ js "/v/a.md") [FsChange 4000 (js "/v/b.md") (js "y")] ∧
  index (run (λ t : Z, negb (t =? 3000)%Z) vault (mkSvc ∅ ∅ None)
           [FsChange 0 (js "/v/a.md") (js "x"); FsChange 4000 (js "/v/b.md") (js "y")])
    !! js "/v/a.md" = index (mkSvc ∅ ∅ None) !! js "/v/a.md".
Proof.
  assert (H1 : (λ t : Z, negb (t =? 3000)%Z) (0 + DEBOUNCE_MS)%Z = false) by reflexivity.
  assert (H2 : ∀ d, pending (mkSvc ∅ ∅ None) ≠ Some (d, js "/v/a.md")) by discriminate.
  assert (H3 : Forall (λ e, ev_path e ≠ js "/v/a.md") [FsChange 4000 (js "/v/b.md") (js "y")])
    by (repeat constructor; discriminate).
  split; [exact H1|]. split; [exact H2|]. split; [exact H3|].
  exact (index_rejection_never_retried _ vault _ _ _ _ _ H1 H2 H3).
Defined.

Lemma nested_watch_harmless_witness :
  js "/v" ∈ vault ∧ (js "/v/sub" = js "/v" ∨ ∃ r, js "/v/sub" = js "/v" ++ SLASH :: r) ∧
  run up (vault ++ [js "/v/sub"]) (mkSvc ∅ ∅ None) [FsAdd 0 (js "/v/sub/a.md") (js "x")] =
    run up vault (mkSvc ∅ ∅ None) [FsAdd 0 (js "/v/sub/a.md") (js "x")].
Proof.
  assert (H1 : js "/v" ∈ vault) by constructor.
  assert (H2 : js "/v/sub" = js "/v" ∨ ∃ r, js "/v/sub" = js "/v" ++ SLASH :: r)
    by (right; exists (js "sub"); reflexivity).
  split; [exact H1|]. split; [exact H2|].
  exact (nested_watch_harmless up vault _ _ _ _ H1 H2).
Defined.

End ElasticService.
