(* ===== verification/PluginSetting.v ===== *)
(** * PluginSetting: the settings records and their defaults

    Models src/globals/plugin-setting.ts: [OuterSetting] (lines 5-14) with
    its [ApiProvider] (lines 44-47) and [UISetting] (lines 49-53) parts,
    [DEFAULT_OUTER_SETTING] (lines 16-38), whose Chinese options depend on
    [window.localStorage.getItem("language")] and whose log level depends
    on [isDevEnvironment] (my-lib.ts line 9), and [innerSetting] (lines
    56-87), the search weights, with the fractional ones as rationals.
    The composition with Assets.v: [AssetsProvider.initAsync] reads
    [enableChinesePatch] from the settings object it is given. *)

From Stdlib Require Import QArith.
From S2P Require Import Prelude Assets.

Module PluginSetting.
Import Assets.Assets.

(** [LogLevel] of src/utils/logger.ts (not in the snapshot): the levels
    the settings use. *)
Inductive LogLevel := trace | debug | info | warn | error.

(** [type LogLevelOptions = { [K in LogLevel]: K }]: every level maps
    to itself. *)
Definition LogLevelOptions : Type := ∀ K : LogLevel, { k : LogLevel | k = K }.

(** [type ApiProvider] *)
Record ApiProvider := mkApiProvider { domain : jstr; key : jstr }.

(** [showedExtension: "none" | "except md" | "all"] *)
Inductive ShowedExtension := ShowNone | ShowExceptMd | ShowAll.

(** [type UISetting] *)
Record UISetting := mkUISetting {
  openInNewPane : bool; maxItemResults : Z; showedExtension : ShowedExtension
}.

(** [class OuterSetting] *)
Record OuterSetting := mkOuterSetting {
  logLevel : LogLevel;
  enableStopWordsEn : bool;
  enableChinesePatch : bool;
  enableStopWordsZh : bool;
  apiProvider1 : ApiProvider;
  apiProvider2 : ApiProvider;
  excludeExtensions : list jstr;
  ui : UISetting
}.

(** [isChineseUser]: the stored interface language is "zh". *)
Definition isChineseUser (language : option jstr) : bool := bool_decide (language = Some (js "zh")).

(** [DEFAULT_OUTER_SETTING] *)
Definition DEFAULT_OUTER_SETTING (isDevEnvironment : bool) (language : option jstr) : OuterSetting :=
  mkOuterSetting
    (if isDevEnvironment then trace else info)
    true
    (if isChineseUser language then true else false)
    (if isChineseUser language then true else false)
    (mkApiProvider [] [])
    (mkApiProvider [] [])
    []
    (mkUISetting true 30 ShowExceptMd).

(** [type InnerSetting] and [innerSetting]. *)
Record SearchWeights := mkSearchWeights {
  minTermLengthForPrefix : Z; fuzzyProportion : Q; minTermLengthForPrefixSearch : Z;
  weightFilename : Q; weightFolder : Q; weightTagText : Q; weightHeading : Q
}.

Definition innerSetting : SearchWeights :=
  mkSearchWeights 3 (2 # 10) 2 3 2 (115 # 100) (127 # 100).

(** ** Properties *)

(** The default setting enables the Chinese patch exactly for a user
    whose stored language is "zh". *)
Lemma default_chinese_patch dev lang :
  enableChinesePatch (DEFAULT_OUTER_SETTING dev lang) = bool_decide (lang = Some (js "zh")).
Proof. unfold DEFAULT_OUTER_SETTING, isChineseUser. simpl. by case_bool_decide. Qed.

(** C32: on a first start with the default settings, a user whose
    language is not Chinese downloads only the English stop words: the
    jieba binary and the Chinese stop words are never fetched. *)
Theorem default_setting_fetches_only_en u dev lang remote :
  lang ≠ Some (js "zh") →
  w_fetched (initAsync u (enableChinesePatch (DEFAULT_OUTER_SETTING dev lang)) (fresh_world remote)).2
    = [stopWordsEnSourceUrl].
Proof.
  intros Hl. rewrite default_chinese_patch, bool_decide_eq_false_2 by done.
  apply initAsync_en_fetches; [apply lookup_empty|set_solver|set_solver].
Qed.

Lemma default_setting_fetches_only_en_witness :
  Some (js "en") ≠ Some (js "zh") ∧
  w_fetched (initAsync (js "/cfg") (enableChinesePatch (DEFAULT_OUTER_SETTING false (Some (js "en"))))
    (fresh_world (λ _, RespNetErr))).2 = [stopWordsEnSourceUrl].
Proof.
  assert (H : Some (js "en") ≠ Some (js "zh")) by discriminate.
  split; [exact H|exact (default_setting_fetches_only_en _ _ _ _ H)].
Defined.

End PluginSetting.
