(* ===== verification/DevTest.v ===== *)
(** * DevTest: the developer test command

    Models src/dev-test.ts as the list of effects each function performs,
    in order.  [devTest] (lines 11-42) runs only [testTokenizer] (lines
    107-118): it starts the asset download without awaiting it, awaits the
    CJK patch's initialisation, and logs the two segmentations of a fixed
    mixed-script sentence.  [testLexicalSearch] (lines 64-86), which
    [devTest] no longer calls, queries the lexical engine through the
    [LexicalEngine] interface of Engines.v and reports what the vault has
    at the path of the first or-mode result.  The CJK segmenter
    ([CjkPatch.cutForSearch]) is not in the snapshot and is a parameter.
    The remaining helpers, [getApp], [testStemmer], [testTsyringe] and
    [testUnsupportedExtensions] (lines 44-62), resolve objects through
    [getInstance], modelled as tsyringe's container: [testTsyringe] logs
    "test equal: true" from any container because [SearchService] is
    decorated [@singleton()] ([testTsyringe_logs_true]). *)

From S2P Require Import Prelude SearchTypes Engines.

Module DevTest.

(** What the vault has at a path: [vault.getAbstractFileByPath]. *)
Inductive VaultEntry := TFileEntry | TFolderEntry.

Inductive DevEffect :=
  | StartAssetsDownload
  | AwaitCjkInit
  | LogInfo (msg : jstr)
  | LogDebug (results : list MatchedFile).

(** "smart-Connection用起来还不错" *)
Definition tokenizer_text : jstr :=
  js "smart-Connection" ++ [29992; 36215; 26469; 36824; 19981; 38169]%Z.

Section Dev.
Context (cutForSearch : jstr → bool → jstr).

(** [testTokenizer()] *)
Definition testTokenizer : list DevEffect :=
  [StartAssetsDownload; AwaitCjkInit;
   LogInfo (cutForSearch tokenizer_text false); LogInfo (cutForSearch tokenizer_text true)].

(** [devTest()]: every other test is commented out. *)
Definition devTest : list DevEffect := testTokenizer.

End Dev.

(** [testLexicalSearch()] *)
Definition testLexicalSearch {E Snapshot} `{LexicalEngine E Snapshot} (e : E)
    (getAbstractFileByPath : option jstr → option VaultEntry) : list DevEffect :=
  let query := js "whoknowthisfolder/whereisit" in
  let resultsOr := searchFiles e query ModeOr in
  let _resultsAnd := searchFiles e query ModeAnd in
  let firstPath := mf_path <$> head resultsOr in
  LogDebug resultsOr ::
  match getAbstractFileByPath firstPath with
  | Some TFileEntry =>
      [LogInfo (js "find first one: " ++ default [] firstPath)]
  | Some TFolderEntry => [LogInfo (js "it's a folder: [object Object]")]
  | None => [LogInfo (js "no document is found")]
  end.

(** ** The dependency-injection container behind [getInstance]

    [getInstance] (utils/my-lib.ts in the plugin, not in the snapshot)
    resolves a class token in tsyringe's root container.  An object
    registered with [registerInstance] or already built for a class
    decorated [@singleton()] is returned as it is; a singleton class not
    yet built is constructed and cached; any other class is constructed
    afresh on every resolution.  Objects are numbered by construction. *)
Record DiContainer := mkDi { di_instances : gmap jstr nat; di_next : nat }.

(** The classes of src/ decorated [@singleton()]. *)
Definition singletonClasses : list jstr :=
  js <$> ["FloatingWindowManager"; "InFileFloatingWindow"; "PrivateApi"; "PluginManager";
          "CommandRegistry"; "GlobalNavigationHotkeys"; "SearchService"; "AssetsProvider"]%string.

Definition is_singleton (token : jstr) : bool := bool_decide (token ∈ singletonClasses).

Definition registerInstance (token : jstr) (o : nat) (c : DiContainer) : DiContainer :=
  mkDi (<[token := o]> (di_instances c)) (di_next c).

Definition getInstance (token : jstr) (c : DiContainer) : nat * DiContainer :=
  match di_instances c !! token with
  | Some o => (o, c)
  | None =>
      let o := di_next c in
      if is_singleton token then (o, mkDi (<[token := o]> (di_instances c)) (S o))
      else (o, mkDi (di_instances c) (S o))
  end.

(** [getApp()] *)
Definition getApp (c : DiContainer) : nat * DiContainer := getInstance (js "App") c.

(** [testStemmer()]: the word list is built and not used. *)
Definition testStemmer : list DevEffect := [].

Definition js_bool (b : bool) : jstr := js (if b then "true" else "false").

(** [testTsyringe()] *)
Definition testTsyringe (c : DiContainer) : list DevEffect * DiContainer :=
  let '(obj1, c1) := getInstance (js "SearchService") c in
  let '(obj2, c2) := getInstance (js "SearchService") c1 in
  ([LogInfo (js "test equal: " ++ js_bool (Nat.eqb obj1 obj2))], c2).

(** [testUnsupportedExtensions()]: [getConfig] is the vault's private
    option lookup, rendered as the logger renders it. *)
Definition testUnsupportedExtensions (getConfig : nat → jstr → jstr) (c : DiContainer)
    : list DevEffect * DiContainer :=
  let '(app, c1) := getApp c in
  ([LogInfo (getConfig app (js "showUnsupportedFiles"))], c1).

(** ** Resolution *)

Lemma getInstance_cached token c o :
  di_instances c !! token = Some o → getInstance token c = (o, c).
Proof. intros H. unfold getInstance. by rewrite H. Qed.

(** A second resolution of a singleton class returns the object of the
    first one, whatever the container held before. *)
Lemma getInstance_singleton_stable token c :
  is_singleton token = true →
  (getInstance token (getInstance token c).2).1 = (getInstance token c).1.
Proof.
  intros Hs. unfold getInstance at 2 3.
  destruct (di_instances c !! token) as [o|] eqn:E; cbn [fst snd].
  - by rewrite (getInstance_cached _ _ o).
  - rewrite Hs. cbn [fst snd]. rewrite (getInstance_cached _ _ (di_next c)); [done|].
    apply lookup_insert_eq.
Qed.

(** A class that is neither registered nor a singleton yields two
    distinct objects: without [@singleton()] on [SearchService] the test
    would log false. *)
Lemma getInstance_transient_fresh token c :
  di_instances c !! token = None → is_singleton token = false →
  (getInstance token (getInstance token c).2).1 ≠ (getInstance token c).1.
Proof. intros E Hs. unfold getInstance. rewrite E, Hs. simpl. rewrite E, ?Hs. simpl. lia. Qed.

(** [testTsyringe] logs "test equal: true" from any container, because
    [SearchService] is a singleton. *)
Theorem testTsyringe_logs_true c :
  (testTsyringe c).1 = [LogInfo (js "test equal: true")].
Proof.
  pose proof (getInstance_singleton_stable (js "SearchService") c eq_refl) as H.
  unfold testTsyringe.
  destruct (getInstance _ c) as [o1 c1] eqn:E1; simpl in H.
  destruct (getInstance _ c1) as [o2 c2]; simpl in *. subst. by rewrite Nat.eqb_refl.
Qed.

(** [getApp] returns the application object registered at start-up. *)
Lemma getApp_registered app c :
  (getApp (registerInstance (js "App") app c)).1 = app.
Proof. unfold getApp. by rewrite (getInstance_cached _ _ app) by apply lookup_insert_eq. Qed.

End DevTest.
