(* ===== verification/PluginManager.v ===== *)
(** * PluginManager: start-up sequence and the private API wrappers

    Models src/services/obsidian/plugin-manager.ts, [PluginManager.initAsync]
    (lines 8-14): the settings manager is initialised and awaited, then the
    search service's [initAsync] (search-service.ts lines 30-33, which
    awaits [initSearchEngines]).  The settings manager is not in the
    snapshot; its completion is one event.  Also models
    src/services/obsidian/private-api.ts (lines 8-25): the three wrappers
    over Obsidian calls that the official typings do not declare; what a
    wrapper returns to its caller is a [JsValue]. *)

From S2P Require Import Prelude SearchTypes Engines SearchService.

Module PluginManager.
Import SearchService.SearchService.

Inductive StartEvent := SettingsInitialized | SearchInit (ev : InitEvent).

Section Startup.
Context {Snapshot E : Type} `{LexicalEngine E Snapshot}.

(** [SearchService.initAsync()] *)
Definition searchServiceInitAsync (h : Host Snapshot) (e : E) : E * list InitEvent :=
  initSearchEngines h e.

(** [PluginManager.initAsync()] *)
Definition initAsync (h : Host Snapshot) (e : E) : E * list StartEvent :=
  let '(e', evs) := searchServiceInitAsync h e in
  (e', SettingsInitialized :: (SearchInit <$> evs)).

End Startup.

(** [PrivateApi.getFileBacklinks(file)]: the backlinks are computed by
    [metadataCache.getBacklinksForFile(file)] but not returned. *)
Definition getFileBacklinks {B} (getBacklinksForFile : jstr → B) (file : jstr) : JsValue :=
  let _ := getBacklinksForFile file in JsUndefined.

(** [PrivateApi.getAppId()]: [app.appId], [undefined] where the field
    has been removed. *)
Definition getAppId (appId : option jstr) : JsValue :=
  match appId with Some id => JsString id | None => JsUndefined end.

(** [PrivateApi.executeCommandById(commandId)]: the command run. *)
Definition executeCommandById (commandId : jstr) : list jstr := [commandId].

(** The plugin reports the lexical engine ready only after the settings
    are initialised and after the reindex has started. *)
Lemma initAsync_order {Snapshot E} `{LexicalEngine E Snapshot} (h : Host Snapshot) (e : E) :
  ∃ fromSnapshot rest,
    (initAsync h e).2 = SettingsInitialized :: SearchInit (EvReindexStarted fromSnapshot) :: rest ∧
    last (initAsync h e).2 = Some (SearchInit EvEngineReady).
Proof.
  unfold initAsync, searchServiceInitAsync, initSearchEngines.
  destruct (miniSearchData h); simpl; eauto.
Qed.

End PluginManager.
