(* ===== verification/Tokenizer.v ===== *)
(** * Tokenizer: the segmenter of the lexical engine (spec section 4.1)

    The tokenizer lives in utils/nlp.ts and services/search/tokenizer.ts,
    which are not part of the snapshot under src/; it is modelled from the
    specification.  A text is cut into maximal runs of one script (Latin,
    CJK, separator); a Latin run is one lower-cased token, a CJK run is
    handed to the dictionary segmenter ([CjkPatch.cut] in coarse mode,
    [cutForSearch] in fine mode), and separator runs are dropped.  Whether
    a hyphen separates is a setting.  Without the CJK resources (the
    degraded mode) a CJK run is kept as one token.  Stop words are then
    removed per script, unless that would leave no token at all.

    The dictionary segmenter is an interface ([Segmenter]) with its laws:
    it only cuts its run into non-empty pieces.  [fmm_cut], a forward
    maximum-matching segmenter with jieba's search-mode expansion, is an
    instance used by the examples. *)

From S2P Require Import Prelude DevTest.
Import DevTest.DevTest.

Module Tokenizer.

Inductive Script := Latin | Cjk | Sep.

#[export] Instance Script_eq_dec : EqDecision Script.
Proof. solve_decision. Defined.

Local Open Scope Z_scope.

(** CJK ideographs: the unified block, extension A and the compatibility
    block. *)
Definition is_cjk (c : Z) : bool :=
  (13312 <=? c) && (c <=? 19903) || (19968 <=? c) && (c <=? 40959)
  || (63744 <=? c) && (c <=? 64255).

(** ASCII punctuation and symbols. *)
Definition is_ascii_punct (c : Z) : bool :=
  (33 <=? c) && (c <=? 47) || (58 <=? c) && (c <=? 64)
  || (91 <=? c) && (c <=? 96) && negb (c =? 95) || (123 <=? c) && (c <=? 126).

(** CJK symbols and punctuation, full-width punctuation. *)
Definition is_cjk_punct (c : Z) : bool :=
  (12288 <=? c) && (c <=? 12351) || (65281 <=? c) && (c <=? 65295)
  || (65306 <=? c) && (c <=? 65312).

Local Close Scope Z_scope.

(** The script of a code unit; [splitHyphen] makes [-] a separator. *)
Definition script_of (splitHyphen : bool) (c : Z) : Script :=
  if is_cjk c then Cjk
  else if is_js_space c || is_cjk_punct c
          || is_ascii_punct c && (splitHyphen || negb (Z.eqb c HYPHEN)) then Sep
  else Latin.

(** Maximal runs of one script, in order. *)
Fixpoint runs (sc : Z → Script) (s : jstr) : list (Script * jstr) :=
  match s with
  | [] => []
  | c :: r =>
      match runs sc r with
      | (k, w) :: rs => if decide (sc c = k) then (k, c :: w) :: rs else (sc c, [c]) :: (k, w) :: rs
      | [] => [(sc c, [c])]
      end
  end.

(** ** The dictionary segmenter *)

Definition infix_of (t w : jstr) : Prop := ∃ a b, w = a ++ t ++ b.

Class Segmenter := {
  (** [cut(run)] when [fine = false], [cutForSearch(run)] otherwise *)
  cut : jstr → bool → list jstr
}.

Class SegmenterLaws `{Segmenter} := {
  cut_infix w fine t : t ∈ cut w fine → t ≠ [] ∧ infix_of t w;
  cut_nonempty w fine : w ≠ [] → cut w fine ≠ []
}.

(** ** Configuration and segmentation *)

Record TokenizerConfig := mkTokenizerConfig {
  tc_splitHyphen : bool;
  tc_cjkAvailable : bool;
  tc_enableStopWordsEn : bool;
  tc_stopWordsEn : list jstr;
  tc_enableStopWordsZh : bool;
  tc_stopWordsZh : list jstr
}.

Section Segment.
Context `{Segmenter} (cfg : TokenizerConfig).

(** The tokens of one run, tagged with its script. *)
Definition run_tokens (fine : bool) (r : Script * jstr) : list (Script * jstr) :=
  match r with
  | (Latin, w) => [(Latin, to_lower <$> w)]
  | (Cjk, w) => if tc_cjkAvailable cfg then pair Cjk <$> cut w fine else [(Cjk, w)]
  | (Sep, _) => []
  end.

Definition is_stop (tk : Script * jstr) : bool :=
  match tk.1 with
  | Latin => tc_enableStopWordsEn cfg && bool_decide (tk.2 ∈ tc_stopWordsEn cfg)
  | Cjk => tc_enableStopWordsZh cfg && bool_decide (tk.2 ∈ tc_stopWordsZh cfg)
  | Sep => false
  end.

(** Stop-word removal that never leaves an empty field. *)
Definition stop_filter (toks : list (Script * jstr)) : list (Script * jstr) :=
  match filter (λ tk, is_stop tk = false) toks with
  | [] => toks
  | kept => kept
  end.

Definition tagged_tokens (fine : bool) (s : jstr) : list (Script * jstr) :=
  stop_filter (concat (run_tokens fine <$> runs (script_of (tc_splitHyphen cfg)) s)).

(** [segment(text, fine)] *)
Definition segment (fine : bool) (s : jstr) : list jstr := snd <$> tagged_tokens fine s.

(** The query processor: [parse(query)] segments in fine mode. *)
Definition parseQuery (q : jstr) : list jstr := segment true q.

End Segment.

(** ** A dictionary segmenter: forward maximum matching *)

Section Fmm.
Context (dict : list jstr).

(** Length of the longest dictionary word starting [s], at least one. *)
Definition longest_word (s : jstr) : nat :=
  foldr (λ w acc, if bool_decide (w `prefix_of` s) then Nat.max (length w) acc else acc) 1 dict.

Fixpoint fmm (fuel : nat) (s : jstr) : list jstr :=
  match fuel, s with
  | _, [] => []
  | 0, _ => [s]
  | S f, _ => take (longest_word s) s :: fmm f (drop (longest_word s) s)
  end.

(** The [k]-grams of [w]. *)
Definition ngrams (k : nat) (w : jstr) : list jstr :=
  (λ i, take k (drop i w)) <$> seq 0 (S (length w - k)).

(** jieba's [cut_for_search]: before each word longer than two (three)
    units, the dictionary words among its 2-grams (3-grams). *)
Definition search_expand (w : jstr) : list jstr :=
  (if bool_decide (2 < length w) then filter (λ g, g ∈ dict) (ngrams 2 w) else [])
  ++ (if bool_decide (3 < length w) then filter (λ g, g ∈ dict) (ngrams 3 w) else [])
  ++ [w].

Definition fmm_cut (w : jstr) (fine : bool) : list jstr :=
  let ws := fmm (length w) w in
  if fine then concat (search_expand <$> ws) else ws.

End Fmm.

(** ** Runs *)

Lemma elem_of_concat {A} (x : A) (ls : list (list A)) : x ∈ concat ls ↔ ∃ l, x ∈ l ∧ l ∈ ls.
Proof. rewrite list_elem_of_In, in_concat. setoid_rewrite list_elem_of_In. naive_solver. Qed.

Section Runs.
Context (sc : Z → Script).

Lemma runs_concat s : concat (snd <$> runs sc s) = s.
Proof.
  induction s as [|c r IH]; [done|]. simpl.
  destruct (runs sc r) as [|[k w] rs]; simpl in *; [by subst|].
  case_decide; simpl; by rewrite <- IH.
Qed.

Lemma runs_homogeneous s k w :
  (k, w) ∈ runs sc s → w ≠ [] ∧ Forall (λ c, sc c = k) w.
Proof.
  revert k w. induction s as [|c r IH]; intros k w; simpl; [set_solver|].
  destruct (runs sc r) as [|[k' w'] rs] eqn:E.
  { intros [= -> ->]%list_elem_of_singleton. split; [done|by repeat constructor]. }
  case_decide as Hk; intros [[= -> ->]|Hin]%elem_of_cons.
  - destruct (IH k' w') as [_ Hf]; [by constructor|]. split; [done|by repeat constructor].
  - apply IH. by constructor.
  - split; [done|by repeat constructor].
  - by apply IH.
Qed.

Lemma runs_alternate s i k1 w1 k2 w2 :
  runs sc s !! i = Some (k1, w1) → runs sc s !! S i = Some (k2, w2) → k1 ≠ k2.
Proof.
  revert i k1 w1 k2 w2. induction s as [|c r IH]; intros i k1 w1 k2 w2; simpl; [done|].
  destruct (runs sc r) as [|[k w] rs] eqn:E.
  { by destruct i. }
  case_decide as Hk; destruct i as [|i]; simpl.
  - intros [= <- <-] H2. by eapply (IH 0).
  - intros H1 H2. by eapply (IH (S i)).
  - intros [= <- <-] [= <- <-]. congruence.
  - intros H1 H2. by eapply (IH i).
Qed.

Lemma runs_elem s c : c ∈ s → ∃ k w, (k, w) ∈ runs sc s ∧ c ∈ w.
Proof.
  rewrite <- (runs_concat s) at 1.
  intros (w & Hc & (r & -> & Hr)%list_elem_of_fmap)%elem_of_concat.
  destruct r as [k w]. eauto.
Qed.

End Runs.

(** ** Segmentation keeps scripts apart *)

Lemma to_lower_script h c : script_of h c = Latin → script_of h (to_lower c) = Latin.
Proof.
  unfold to_lower. destruct ((65 <=? c) && (c <=? 90))%Z eqn:E; [|done].
  intros _. bool_props. apply Z.leb_le in H, H0.
  unfold script_of, is_cjk, is_js_space, is_cjk_punct, is_ascii_punct.
  repeat match goal with
  | |- context [(?a <=? ?b)%Z] => destruct (Z.leb_spec a b); try lia
  | |- context [(?a =? ?b)%Z] => destruct (Z.eqb_spec a b); try lia
  end; by rewrite ?orb_false_r, ?andb_false_r.
Qed.

Lemma Forall_infix (P : Z → Prop) t w : infix_of t w → Forall P w → Forall P t.
Proof. intros (a & b & ->). rewrite !Forall_app. naive_solver. Qed.

Lemma infix_trans a b c : infix_of a b → infix_of b c → infix_of a c.
Proof. intros (x & y & ->) (u & v & ->). exists (u ++ x), (y ++ v). by simplify_list_eq. Qed.

Lemma infix_take_drop i k w : infix_of (take k (drop i w)) w.
Proof. exists (take i w), (drop k (drop i w)). by rewrite !take_drop. Qed.

Section SegmentLemmas.
Context `{SegmenterLaws} (cfg : TokenizerConfig).

Lemma stop_filter_sub toks tk : tk ∈ stop_filter cfg toks → tk ∈ toks.
Proof.
  unfold stop_filter. destruct (filter _ toks) eqn:E; [done|].
  rewrite <- E. by intros [_ ?]%list_elem_of_filter.
Qed.

Lemma stop_filter_not_nil toks : toks ≠ [] → stop_filter cfg toks ≠ [].
Proof. unfold stop_filter. by destruct (filter _ toks). Qed.

Lemma run_tokens_script fine k w k' t :
  w ≠ [] → Forall (λ c, script_of (tc_splitHyphen cfg) c = k) w →
  (k', t) ∈ run_tokens cfg fine (k, w) →
  t ≠ [] ∧ k' ≠ Sep ∧ Forall (λ c, script_of (tc_splitHyphen cfg) c = k') t.
Proof.
  intros Hw Hf. destruct k; simpl; [| |set_solver].
  - intros [= -> ->]%list_elem_of_singleton.
    split_and!; [by destruct w|done|]. apply Forall_fmap, (Forall_impl _ _ _ Hf).
    intros c. apply to_lower_script.
  - destruct (tc_cjkAvailable cfg).
    + intros (t' & [= -> ->] & Ht)%list_elem_of_fmap.
      destruct (cut_infix _ _ _ Ht) as [? Hi]. split_and!; [done..|]. by eapply Forall_infix.
    + intros [= -> ->]%list_elem_of_singleton. done.
Qed.

Lemma tagged_tokens_script fine s k t :
  (k, t) ∈ tagged_tokens cfg fine s →
  t ≠ [] ∧ k ≠ Sep ∧ Forall (λ c, script_of (tc_splitHyphen cfg) c = k) t.
Proof.
  intros (ts & Ht & (r & -> & Hr)%list_elem_of_fmap)%stop_filter_sub%elem_of_concat.
  destruct r as [k0 w]. destruct (runs_homogeneous _ _ _ _ Hr).
  by eapply run_tokens_script.
Qed.

End SegmentLemmas.

Lemma infix_refl w : infix_of w w.
Proof. exists [], []. by rewrite app_nil_r. Qed.

(** ** The forward maximum-matching segmenter satisfies the laws *)

Section FmmLaws.
Context (dict : list jstr).

Lemma longest_word_pos s : 1 ≤ longest_word dict s.
Proof. unfold longest_word. induction dict as [|w d IH]; simpl; [lia|]. case_bool_decide; lia. Qed.

Lemma fmm_infix fuel s t : t ∈ fmm dict fuel s → t ≠ [] ∧ infix_of t s.
Proof.
  revert s. induction fuel as [|f IH]; intros [|c r]; simpl; try set_solver.
  - intros ->%list_elem_of_singleton. split; [done|apply infix_refl].
  - pose proof (longest_word_pos (c :: r)).
    intros [->|(? & Hi)%IH]%elem_of_cons.
    + split; [by destruct (longest_word dict (c :: r)); [lia|]|apply (infix_take_drop 0)].
    + split; [done|]. eapply infix_trans; [exact Hi|].
      exists (take (longest_word dict (c :: r)) (c :: r)), []. by rewrite app_nil_r, take_drop.
Qed.

Lemma ngram_spec k w g : g ∈ ngrams k w → k ≤ length w → length g = k ∧ infix_of g w.
Proof.
  intros (i & -> & Hi%elem_of_seq)%list_elem_of_fmap Hk. split; [|apply infix_take_drop].
  rewrite length_take, length_drop. lia.
Qed.

Lemma search_expand_spec w g : w ≠ [] → g ∈ search_expand dict w → g ≠ [] ∧ infix_of g w.
Proof.
  intros Hw. unfold search_expand. rewrite !elem_of_app, list_elem_of_singleton.
  intros [Hg|[Hg| ->]]; [| |split; [|apply infix_refl]].
  all: try (case_bool_decide; [|set_solver]; apply list_elem_of_filter in Hg as [_ Hg];
            destruct (ngram_spec _ _ _ Hg) as [Hl ?]; [lia|]; split; [|done];
            intros ->; simpl in Hl; lia).
  done.
Qed.

Lemma fmm_cut_infix w fine t : t ∈ fmm_cut dict w fine → t ≠ [] ∧ infix_of t w.
Proof.
  unfold fmm_cut. destruct fine; [|apply fmm_infix].
  intros (ws & Ht & (u & -> & Hu)%list_elem_of_fmap)%elem_of_concat.
  destruct (fmm_infix _ _ _ Hu) as [Hu0 ?], (search_expand_spec u t Hu0 Ht).
  split; [done|]. by eapply infix_trans.
Qed.

Lemma fmm_cut_nonempty w fine : w ≠ [] → fmm_cut dict w fine ≠ [].
Proof.
  unfold fmm_cut. destruct w as [|c r]; [done|]. intros _. simpl.
  destruct fine; [|done]. simpl. unfold search_expand.
  intros Hn%(f_equal length). rewrite !length_app in Hn. simpl in Hn. lia.
Qed.

End FmmLaws.

Definition fmm_segmenter (dict : list jstr) : Segmenter := {| cut := fmm_cut dict |}.

Lemma fmm_segmenter_laws dict : @SegmenterLaws (fmm_segmenter dict).
Proof. split; [apply fmm_cut_infix|apply fmm_cut_nonempty]. Qed.

(** ** Properties of [segment] *)

Section SegmentProps.
Context `{SegmenterLaws} (cfg : TokenizerConfig).

Lemma run_tokens_not_nil fine k w : k ≠ Sep → w ≠ [] → run_tokens cfg fine (k, w) ≠ [].
Proof.
  intros Hk Hw. destruct k; simpl; [done| |done].
  destruct (tc_cjkAvailable cfg); [|done].
  intros ?%fmap_nil_inv. by eapply cut_nonempty.
Qed.

(** No token mixes scripts: every token [segment] returns is
    non-empty and all its code units are of one script, Latin or CJK;
    in particular a Latin run and an adjacent CJK run never share a
    token. *)
Theorem segment_single_script fine s t :
  t ∈ segment cfg fine s →
  t ≠ [] ∧ ∃ k, k ≠ Sep ∧ Forall (λ c, script_of (tc_splitHyphen cfg) c = k) t.
Proof.
  intros ([k t'] & -> & Hin)%list_elem_of_fmap.
  destruct (tagged_tokens_script _ _ _ _ _ Hin) as (? & ? & ?). eauto.
Qed.

(** A text with a letter or an ideograph has at least one token:
    stop-word removal never empties a field, and the segmenter never
    drops a run. *)
Theorem segment_not_nil fine s :
  (∃ c, c ∈ s ∧ script_of (tc_splitHyphen cfg) c ≠ Sep) → segment cfg fine s ≠ [].
Proof.
  intros (c & Hc & Hk). unfold segment, tagged_tokens.
  intros Hn%fmap_nil_inv. revert Hn. apply stop_filter_not_nil.
  destruct (runs_elem (script_of (tc_splitHyphen cfg)) s c Hc) as (k & w & Hr & Hw).
  destruct (runs_homogeneous _ _ _ _ Hr) as [Hne Hf].
  assert (k ≠ Sep) as Hk' by (rewrite Forall_forall in Hf; by rewrite <- (Hf c)).
  destruct (run_tokens cfg fine (k, w)) as [|x xs] eqn:Ex; [exfalso; by eapply run_tokens_not_nil|].
  intros Hnil. assert (x ∈ concat (run_tokens cfg fine <$> runs (script_of (tc_splitHyphen cfg)) s)) as Hx.
  { apply elem_of_concat. exists (x :: xs). split; [by left|]. apply list_elem_of_fmap. eauto. }
  rewrite Hnil in Hx. set_solver.
Qed.

End SegmentProps.

(** ** The mixed-script example of spec section 8 *)

(** The dictionary "起来", "不错". *)
Definition demo_dict : list jstr := [[36215; 26469]; [19981; 38169]]%Z.

Definition demo_config (splitHyphen : bool) : TokenizerConfig :=
  mkTokenizerConfig splitHyphen true false [] false [].

Definition demo_segmenter : Segmenter := fmm_segmenter demo_dict.

(** "smart-Connection用起来还不错" (the text of the developer test)
    is cut into "smart", "connection", "用", "起来", "还", "不错" when the
    hyphen separates, and into "smart-connection" and the same CJK words
    when it does not. *)
Example segment_mixed_script_demo :
  @segment demo_segmenter (demo_config true) false tokenizer_text
    = [js "smart"; js "connection"; [29992]; [36215; 26469]; [36824]; [19981; 38169]]%Z ∧
  @segment demo_segmenter (demo_config false) false tokenizer_text
    = [js "smart-connection"; [29992]; [36215; 26469]; [36824]; [19981; 38169]]%Z.
Proof. split; vm_compute; reflexivity. Qed.

Lemma script_of_cjk h c : script_of h c = Cjk ↔ is_cjk c = true.
Proof. unfold script_of. destruct (is_cjk c); [done|]. by case_match. Qed.

(** C12: the mixed-script text of the developer test (dev-test.ts line
    115), "smart-Connection用起来还不错", is cut in coarse mode, by every
    segmenter satisfying the laws and under every configuration, into
    non-empty tokens that are each all CJK or all non-CJK: the Latin run
    and the CJK run never share a token. *)
Theorem tokenizer_text_scripts_disjoint `{SegmenterLaws} (cfg : TokenizerConfig) t :
  t ∈ segment cfg false tokenizer_text →
  t ≠ [] ∧ (Forall (λ c, is_cjk c = true) t ∨ Forall (λ c, is_cjk c = false) t).
Proof.
  intros (Hne & k & Hk & Hf)%segment_single_script. split; [done|].
  destruct k; [right|left|done]; eapply Forall_impl; [exact Hf| |exact Hf|];
    intros c Hc; simpl in Hc.
  - destruct (is_cjk c) eqn:E; [|done]. apply (script_of_cjk (tc_splitHyphen cfg)) in E. congruence.
  - by apply script_of_cjk in Hc.
Qed.

Lemma tokenizer_text_scripts_disjoint_witness :
  js "connection" ∈ @segment demo_segmenter (demo_config true) false tokenizer_text ∧
  js "connection" ≠ [] ∧
  (Forall (λ c, is_cjk c = true) (js "connection") ∨ Forall (λ c, is_cjk c = false) (js "connection")).
Proof.
  assert (Hin : js "connection" ∈ @segment demo_segmenter (demo_config true) false tokenizer_text)
    by (apply (bool_decide_unpack _); vm_compute; exact I).
  split; [exact Hin|].
  exact (@tokenizer_text_scripts_disjoint demo_segmenter (fmm_segmenter_laws demo_dict) (demo_config true)
           _ Hin).
Defined.

Lemma segment_not_nil_witness :
  (∃ c, c ∈ tokenizer_text ∧ script_of true c ≠ Sep) ∧
  @segment demo_segmenter (demo_config true) true tokenizer_text ≠ [].
Proof.
  assert (Hc : ∃ c, c ∈ tokenizer_text ∧ script_of true c ≠ Sep).
  { exists 29992%Z. split; [apply (bool_decide_unpack _); vm_compute; exact I|vm_compute; discriminate]. }
  split; [exact Hc|].
  exact (@segment_not_nil demo_segmenter (fmm_segmenter_laws demo_dict) (demo_config true)
           true tokenizer_text Hc).
Defined.

End Tokenizer.
