(* ===== verification/EditDistance.v ===== *)
(** * EditDistance: the edit distance of fuzzy term matching (spec 4.2)

    The fuzzy matcher of the lexical engine (MiniSearch's
    [fuzzySearch], not in the snapshot under src/) measures the
    Levenshtein distance between a query term and an indexed term.  [lev]
    is the reference definition by structural recursion on both strings
    (exponential); [lev_dp] is the dynamic programme the engine runs, one
    row of distances per code unit of the query term, each row filled
    from the right.  [lev_dp_correct] shows they agree. *)

From S2P Require Import Prelude.

Module EditDistance.

(** The Levenshtein distance (insertions, deletions, substitutions). *)
Fixpoint lev (a : jstr) : jstr → nat :=
  match a with
  | [] => length
  | x :: a' =>
      fix lev_a (b : jstr) : nat :=
        match b with
        | [] => length a
        | y :: b' => Nat.min (Nat.min (S (lev a' b)) (S (lev_a b')))
                             (lev a' b' + if Z.eqb x y then 0 else 1)
        end
  end.

(** The suffixes of [b], longest first, ending with the empty one. *)
Fixpoint suffixes (b : jstr) : list jstr :=
  match b with
  | [] => [[]]
  | _ :: b' => b :: suffixes b'
  end.

(** From the row of [a'] (its distance to each suffix of [b]) to the
    row of [x :: a']. *)
Fixpoint next_row (x : Z) (b : jstr) (prev : list nat) : list nat :=
  match b, prev with
  | y :: b', p0 :: prev' =>
      let r := next_row x b' prev' in
      Nat.min (Nat.min (S p0) (S (hd 0 r))) (hd 0 prev' + if Z.eqb x y then 0 else 1) :: r
  | [], [p0] => [S p0]
  | _, _ => []
  end.

Definition row (a b : jstr) : list nat :=
  foldr (λ x r, next_row x b r) (length <$> suffixes b) a.

(** The engine's edit distance. *)
Definition lev_dp (a b : jstr) : nat := hd 0 (row a b).

(** ** The dynamic programme computes the distance *)

Lemma lev_nil_r a : lev a [] = length a.
Proof. by destruct a. Qed.

Lemma lev_cons_cons x a y b :
  lev (x :: a) (y :: b) =
    Nat.min (Nat.min (S (lev a (y :: b))) (S (lev (x :: a) b))) (lev a b + if Z.eqb x y then 0 else 1).
Proof. done. Qed.

Lemma hd_suffixes {A} (f : jstr → A) d b : hd d (f <$> suffixes b) = f b.
Proof. by destruct b. Qed.

Lemma next_row_spec x a b : next_row x b (lev a <$> suffixes b) = lev (x :: a) <$> suffixes b.
Proof.
  induction b as [|y b IH]; [simpl; by rewrite lev_nil_r|].
  change (suffixes (y :: b)) with ((y :: b) :: suffixes b). rewrite !fmap_cons.
  cbn [next_row]. by rewrite IH, !hd_suffixes, lev_cons_cons.
Qed.

Lemma row_spec a b : row a b = lev a <$> suffixes b.
Proof.
  induction a as [|x a IH]; [done|]. unfold row in *. cbn [foldr]. rewrite IH. apply next_row_spec.
Qed.

(** The row-by-row edit distance the fuzzy matcher computes is the
    Levenshtein distance. *)
Theorem lev_dp_correct a b : lev_dp a b = lev a b.
Proof. unfold lev_dp. by rewrite row_spec, hd_suffixes. Qed.

(** ** Facts the matcher relies on *)

Lemma lev_refl a : lev a a = 0.
Proof.
  induction a as [|x a IH]; [done|]. rewrite lev_cons_cons, IH, Z.eqb_refl. lia.
Qed.

Lemma lev_le_length a b : lev a b ≤ Nat.max (length a) (length b).
Proof.
  revert b. induction a as [|x a IH]; intros b; [simpl; lia|].
  destruct b as [|y b]; [rewrite lev_nil_r; simpl; lia|].
  rewrite lev_cons_cons. specialize (IH b). cbn [length]. destruct (Z.eqb x y); lia.
Qed.

End EditDistance.
