(* ===== verification/LexicalIndex.v ===== *)
(** * LexicalIndex: the document index of the lexical engine (spec 3, 4.2)

    The index lives in services/search/search-engine.ts (a MiniSearch
    instance), which is not part of the snapshot under src/; it is
    modelled from the specification.  The index owns

    - [docs]: for each indexed path, its document id and its tokenized
      fields (basename, folder, aliases, content, tokenized in coarse
      mode);
    - [idToPath]: the inverse table from document ids to paths;
    - [postings]: for each term, for each document id holding it, the
      term frequency in each field (fields where it does not occur are
      omitted);
    - [nextId]: the next fresh id.  Ids are handed out once and never
      reused, also across [reindexAll].

    [upsert] removes the previous version of the path and adds the new one
    under a fresh id; [remove] of an unknown path changes nothing;
    [reindexAll] empties the index and upserts every document.  The
    invariant [wf] states that the two tables are inverse, that ids are
    below [nextId], and that the postings are exactly those of the current
    tokenization of the indexed documents, with no entry for a removed
    document and no term left with an empty posting list. *)

From S2P Require Import Prelude SearchTypes Engines Tokenizer.

Module LexicalIndex.
Import Tokenizer.Tokenizer.

(** The tokenized fields of a document. *)
Abbreviation Fields := (list (DocField * list jstr)).

(** A document's posting for one term: the frequency in each field. *)
Abbreviation Posting := (list (DocField * nat)).

Abbreviation Postings := (gmap jstr (gmap nat Posting)).

Record Index := mkIndex {
  docs : gmap jstr (nat * Fields);
  idToPath : gmap nat jstr;
  postings : Postings;
  nextId : nat
}.

Definition emptyIndex : Index := mkIndex ∅ ∅ ∅ 0.

(** Occurrences of [t] in a token list. *)
Definition tf (t : jstr) (ts : list jstr) : nat := length (filter (λ x, x = t) ts).

Definition doc_posting (fs : Fields) (t : jstr) : Posting :=
  filter (λ fp, fp.2 ≠ 0) ((λ '(f, ts), (f, tf t ts)) <$> fs).

Definition doc_terms (fs : Fields) : list jstr := concat (snd <$> fs).

Definition nonempty {A} (l : list A) : option (list A) :=
  match l with [] => None | _ => Some l end.

(** Record the postings of document [id] for each of its terms. *)
Definition add_doc_postings (id : nat) (fs : Fields) (P : Postings) : Postings :=
  foldr (λ t P, <[t := <[id := doc_posting fs t]> (default ∅ (P !! t))]> P) P (doc_terms fs).

(** Drop document [id] from the postings of [t], and [t] itself when no
    document is left. *)
Definition del_term (id : nat) (t : jstr) (P : Postings) : Postings :=
  let m := delete id (default ∅ (P !! t)) in
  if decide (m = ∅) then delete t P else <[t := m]> P.

Definition del_doc_postings (id : nat) (fs : Fields) (P : Postings) : Postings :=
  foldr (del_term id) P (doc_terms fs).

(** [remove(path)]: a no-op on a path that is not indexed. *)
Definition remove (p : jstr) (ix : Index) : Index :=
  match docs ix !! p with
  | None => ix
  | Some (id, fs) =>
      mkIndex (delete p (docs ix)) (delete id (idToPath ix))
        (del_doc_postings id fs (postings ix)) (nextId ix)
  end.

(** Add tokenized fields under a fresh id. *)
Definition add_fields (p : jstr) (fs : Fields) (ix : Index) : Index :=
  let id := nextId ix in
  mkIndex (<[p := (id, fs)]> (docs ix)) (<[id := p]> (idToPath ix))
    (add_doc_postings id fs (postings ix)) (S id).

Definition upsert_fields (p : jstr) (fs : Fields) (ix : Index) : Index :=
  add_fields p fs (remove p ix).

(** The index emptied, keeping the id counter. *)
Definition clear (ix : Index) : Index := mkIndex ∅ ∅ ∅ (nextId ix).

Section WithTokenizer.
Context `{Segmenter} (cfg : TokenizerConfig).

(** Each field tokenized in coarse mode; a missing field is empty. *)
Definition tokenize_doc (d : IndexedDocument) : Fields :=
  [(F_basename, segment cfg false (doc_basename d));
   (F_folder, segment cfg false (doc_folder d));
   (F_aliases, segment cfg false (default [] (doc_aliases d)));
   (F_content, segment cfg false (default [] (doc_content d)))].

(** [upsert(document)] *)
Definition upsert (d : IndexedDocument) (ix : Index) : Index :=
  upsert_fields (doc_path d) (tokenize_doc d) ix.

(** [reindexAll(documents)] *)
Definition reindexAll (ds : list IndexedDocument) (ix : Index) : Index :=
  foldl (λ ix d, upsert d ix) (clear ix) ds.

(** The file events and rebuilds the index receives, in order. *)
Inductive Op :=
  | OpUpsert (d : IndexedDocument)
  | OpRemove (p : jstr)
  | OpReindexAll (ds : list IndexedDocument).

Definition step (ix : Index) (op : Op) : Index :=
  match op with
  | OpUpsert d => upsert d ix
  | OpRemove p => remove p ix
  | OpReindexAll ds => reindexAll ds ix
  end.

Definition run (ops : list Op) (ix : Index) : Index := foldl step ix ops.

End WithTokenizer.

(** The abstract index: the tokenized fields of each indexed path. *)
Definition fields_of (ix : Index) : gmap jstr Fields := snd <$> docs ix.

(** The contract of the index operations on the abstract index. *)
Section Abstract.
Context `{Segmenter} (cfg : TokenizerConfig).

Definition abs_step (M : gmap jstr Fields) (op : Op) : gmap jstr Fields :=
  match op with
  | OpUpsert d => <[doc_path d := tokenize_doc cfg d]> M
  | OpRemove p => delete p M
  | OpReindexAll ds => foldl (λ M d, <[doc_path d := tokenize_doc cfg d]> M) ∅ ds
  end.

Definition abs_run (ops : list Op) (M : gmap jstr Fields) : gmap jstr Fields := foldl abs_step M ops.

End Abstract.

(** ** The invariant *)

(** What the postings of [t] must hold for [id], read off the documents. *)
Definition ref_posting (ix : Index) (t : jstr) (id : nat) : option Posting :=
  match idToPath ix !! id with
  | Some p => match docs ix !! p with Some (_, fs) => nonempty (doc_posting fs t) | None => None end
  | None => None
  end.

Record wf (ix : Index) : Prop := {
  wf_docs_ids p id fs : docs ix !! p = Some (id, fs) → idToPath ix !! id = Some p;
  wf_ids_docs id p : idToPath ix !! id = Some p → ∃ fs, docs ix !! p = Some (id, fs);
  wf_fresh id p : idToPath ix !! id = Some p → id < nextId ix;
  wf_postings t id : postings ix !! t ≫= (.!! id) = ref_posting ix t id;
  wf_no_empty t m : postings ix !! t = Some m → m ≠ ∅
}.

(** ** Postings *)

Ltac decide_cases := repeat case_decide; try done; set_solver.

Lemma tf_pos t ts : tf t ts ≠ 0 ↔ t ∈ ts.
Proof.
  unfold tf. induction ts as [|x ts IH]; simpl; [set_solver|].
  rewrite filter_cons, elem_of_cons, <- IH. case_decide; simpl; naive_solver lia.
Qed.

Lemma doc_posting_nil fs t : doc_posting fs t = [] ↔ t ∉ doc_terms fs.
Proof.
  unfold doc_posting, doc_terms. induction fs as [|[f ts] fs IH]; simpl; [set_solver|].
  rewrite filter_cons. simpl. case_decide as Hc.
  - split; [done|]. intros Hn. destruct Hn. apply elem_of_app. left. by apply tf_pos.
  - rewrite IH, elem_of_app. assert (t ∉ ts) by (rewrite <- tf_pos; lia). naive_solver.
Qed.

Lemma nonempty_posting fs t :
  nonempty (doc_posting fs t) = if decide (t ∈ doc_terms fs) then Some (doc_posting fs t) else None.
Proof. pose proof (doc_posting_nil fs t). case_decide; destruct (doc_posting fs t); naive_solver. Qed.

Lemma lookup_default_bind (mo : option (gmap nat Posting)) j : default ∅ mo !! j = mo ≫= (.!! j).
Proof. destruct mo; simpl; [done|apply lookup_empty]. Qed.

Lemma add_doc_postings_lookup id fs P t j :
  add_doc_postings id fs P !! t ≫= (.!! j) =
    if decide (t ∈ doc_terms fs ∧ j = id) then Some (doc_posting fs t) else P !! t ≫= (.!! j).
Proof.
  unfold add_doc_postings. induction (doc_terms fs) as [|t0 ts IH]; simpl; [decide_cases|].
  destruct (decide (t = t0)) as [->|Hne].
  - rewrite lookup_insert_eq. simpl. destruct (decide (j = id)) as [->|Hj].
    + rewrite lookup_insert_eq. decide_cases.
    + rewrite lookup_insert_ne, lookup_default_bind, IH by done. decide_cases.
  - rewrite lookup_insert_ne, IH by done. decide_cases.
Qed.

Lemma add_doc_postings_no_empty id fs P :
  (∀ t m, P !! t = Some m → m ≠ ∅) → ∀ t m, add_doc_postings id fs P !! t = Some m → m ≠ ∅.
Proof.
  intros HP t. unfold add_doc_postings. induction (doc_terms fs) as [|t0 ts IH]; simpl; [apply HP|].
  destruct (decide (t = t0)) as [->|Hne].
  - rewrite lookup_insert_eq. intros m [= <-]. apply insert_non_empty.
  - rewrite lookup_insert_ne by done. apply IH.
Qed.

Lemma del_term_lookup id t0 P t j :
  del_term id t0 P !! t ≫= (.!! j) = if decide (t = t0 ∧ j = id) then None else P !! t ≫= (.!! j).
Proof.
  destruct (decide (t = t0 ∧ j = id)) as [[-> ->]|Hn]; unfold del_term; case_decide as Hm.
  - by rewrite lookup_delete_eq.
  - rewrite lookup_insert_eq. simpl. by rewrite lookup_delete_eq.
  - destruct (decide (t = t0)) as [->|Ht]; [|by rewrite lookup_delete_ne].
    rewrite lookup_delete_eq. simpl.
    rewrite <- lookup_default_bind, <- (lookup_delete_ne _ id j), Hm by naive_solver.
    by rewrite lookup_empty.
  - destruct (decide (t = t0)) as [->|Ht]; [|by rewrite lookup_insert_ne].
    rewrite lookup_insert_eq. simpl. by rewrite lookup_delete_ne, lookup_default_bind by naive_solver.
Qed.

Lemma del_doc_postings_lookup id fs P t j :
  del_doc_postings id fs P !! t ≫= (.!! j) =
    if decide (t ∈ doc_terms fs ∧ j = id) then None else P !! t ≫= (.!! j).
Proof.
  unfold del_doc_postings. induction (doc_terms fs) as [|t0 ts IH]; simpl; [decide_cases|].
  rewrite del_term_lookup, IH. decide_cases.
Qed.

Lemma del_doc_postings_no_empty id fs P :
  (∀ t m, P !! t = Some m → m ≠ ∅) → ∀ t m, del_doc_postings id fs P !! t = Some m → m ≠ ∅.
Proof.
  intros HP. unfold del_doc_postings. induction (doc_terms fs) as [|t0 ts IH]; simpl; [apply HP|].
  intros t m. unfold del_term at 1. case_decide as Hm; destruct (decide (t = t0)) as [->|Hne].
  - by rewrite lookup_delete_eq.
  - rewrite lookup_delete_ne by done. apply IH.
  - rewrite lookup_insert_eq. by intros [= <-].
  - rewrite lookup_insert_ne by done. apply IH.
Qed.

(** ** Every operation preserves the invariant *)

Lemma wf_clear ix : wf (clear ix).
Proof.
  constructor; unfold ref_posting; simpl; intros *; by rewrite ?lookup_empty.
Qed.

Lemma wf_emptyIndex : wf emptyIndex.
Proof. apply (wf_clear emptyIndex). Qed.

Lemma remove_docs p ix : docs (remove p ix) = delete p (docs ix).
Proof.
  unfold remove. destruct (docs ix !! p) as [[]|] eqn:E; [done|]. by rewrite delete_id.
Qed.

Lemma remove_nextId p ix : nextId (remove p ix) = nextId ix.
Proof. unfold remove. by destruct (docs ix !! p) as [[]|]. Qed.

Lemma wf_remove p ix : wf ix → wf (remove p ix).
Proof.
  intros Hw. unfold remove. destruct (docs ix !! p) as [[id fs]|] eqn:Hp; [|done].
  pose proof (wf_docs_ids _ Hw _ _ _ Hp) as Hid.
  constructor; simpl.
  - intros p' id' fs' (Hne & Hp')%lookup_delete_Some.
    pose proof (wf_docs_ids _ Hw _ _ _ Hp'). rewrite lookup_delete_ne; [done|]. congruence.
  - intros id' p' (Hne & Hi)%lookup_delete_Some.
    destruct (wf_ids_docs _ Hw _ _ Hi) as [fs' Hfs']. exists fs'.
    rewrite lookup_delete_ne; [done|]. congruence.
  - intros id' p' (_ & Hi)%lookup_delete_Some. by eapply wf_fresh.
  - intros t j. rewrite del_doc_postings_lookup, (wf_postings _ Hw). unfold ref_posting; simpl.
    destruct (decide (j = id)) as [->|Hj].
    + rewrite lookup_delete_eq, Hid, Hp, nonempty_posting. decide_cases.
    + rewrite lookup_delete_ne by done.
      destruct (idToPath ix !! j) as [p'|] eqn:Hj'; [|decide_cases].
      destruct (wf_ids_docs _ Hw _ _ Hj') as [fs' Hfs'].
      rewrite lookup_delete_ne by congruence. decide_cases.
  - apply del_doc_postings_no_empty, Hw.
Qed.

Lemma wf_add_fields p fs ix : wf ix → docs ix !! p = None → wf (add_fields p fs ix).
Proof.
  intros Hw Hp.
  assert (Hfresh : idToPath ix !! nextId ix = None).
  { destruct (idToPath ix !! nextId ix) eqn:E; [|done]. apply (wf_fresh _ Hw) in E. lia. }
  constructor; simpl.
  - intros p' id' fs' Hp'. destruct (decide (p' = p)) as [->|Hne].
    + rewrite lookup_insert_eq in Hp'. injection Hp' as ? ?; subst. by rewrite lookup_insert_eq.
    + rewrite lookup_insert_ne in Hp' by done. pose proof (wf_docs_ids _ Hw _ _ _ Hp') as Hi.
      rewrite lookup_insert_ne; [done|]. apply (wf_fresh _ Hw) in Hi. lia.
  - intros id' p' Hi. destruct (decide (id' = nextId ix)) as [->|Hne].
    + rewrite lookup_insert_eq in Hi. injection Hi as ?; subst. exists fs. by rewrite lookup_insert_eq.
    + rewrite lookup_insert_ne in Hi by done. destruct (wf_ids_docs _ Hw _ _ Hi) as [fs' Hfs'].
      exists fs'. rewrite lookup_insert_ne; [done|]. congruence.
  - intros id' p' Hi. destruct (decide (id' = nextId ix)) as [->|Hne]; [lia|].
    rewrite lookup_insert_ne in Hi by done. apply (wf_fresh _ Hw) in Hi. lia.
  - intros t j. rewrite add_doc_postings_lookup, (wf_postings _ Hw). unfold ref_posting; simpl.
    destruct (decide (j = nextId ix)) as [->|Hj].
    + rewrite Hfresh, !lookup_insert_eq, nonempty_posting. decide_cases.
    + rewrite lookup_insert_ne by done.
      destruct (idToPath ix !! j) as [p'|] eqn:Hj'; [|decide_cases].
      destruct (wf_ids_docs _ Hw _ _ Hj') as [fs' Hfs'].
      rewrite lookup_insert_ne by congruence. decide_cases.
  - apply add_doc_postings_no_empty, Hw.
Qed.

Lemma wf_upsert_fields p fs ix : wf ix → wf (upsert_fields p fs ix).
Proof.
  intros Hw. apply wf_add_fields; [by apply wf_remove|].
  rewrite remove_docs. apply lookup_delete_eq.
Qed.


Section WfTokenizer.
Context `{Segmenter} (cfg : TokenizerConfig).

Lemma wf_upsert d ix : wf ix → wf (upsert cfg d ix).
Proof. apply wf_upsert_fields. Qed.

Lemma wf_foldl_upsert ds ix : wf ix → wf (foldl (λ ix d, upsert cfg d ix) ix ds).
Proof. revert ix. induction ds; simpl; auto using wf_upsert. Qed.

Lemma wf_reindexAll ds ix : wf (reindexAll cfg ds ix).
Proof. apply wf_foldl_upsert, wf_clear. Qed.

End WfTokenizer.

(** ** The abstract index *)

Lemma fields_of_remove p ix : fields_of (remove p ix) = delete p (fields_of ix).
Proof. unfold fields_of. by rewrite remove_docs, fmap_delete. Qed.

Lemma fields_of_upsert_fields p fs ix : fields_of (upsert_fields p fs ix) = <[p := fs]> (fields_of ix).
Proof.
  unfold fields_of, upsert_fields, add_fields. simpl.
  by rewrite fmap_insert, remove_docs, fmap_delete, insert_delete_eq.
Qed.

(** ** Ids are never reused *)

(** Every id of [ix] still present in [ix'] names the same path, with the
    same document. *)
Definition stable (ix ix' : Index) : Prop :=
  nextId ix ≤ nextId ix' ∧
  ∀ id p, id < nextId ix → idToPath ix' !! id = Some p →
    idToPath ix !! id = Some p ∧ docs ix' !! p = docs ix !! p.

Lemma stable_refl ix : stable ix ix.
Proof. split; [lia|done]. Qed.

Lemma stable_trans ix1 ix2 ix3 : stable ix1 ix2 → stable ix2 ix3 → stable ix1 ix3.
Proof.
  intros [Hn1 H1] [Hn2 H2]. split; [lia|]. intros id p Hid Hp.
  destruct (H2 id p) as [Hp2 Hd2]; [lia|done|]. destruct (H1 id p Hid Hp2). split; congruence.
Qed.

Lemma stable_clear ix : stable ix (clear ix).
Proof. split; simpl; [lia|]. intros id p _. by rewrite lookup_empty. Qed.

Lemma stable_remove p ix : wf ix → stable ix (remove p ix).
Proof.
  intros Hw. unfold remove. destruct (docs ix !! p) as [[id fs]|] eqn:Hp; [|apply stable_refl].
  split; simpl; [lia|]. intros id' p' _ (Hne & Hi)%lookup_delete_Some. split; [done|].
  destruct (wf_ids_docs _ Hw _ _ Hi) as [fs' Hfs']. rewrite lookup_delete_ne; [done|]. congruence.
Qed.

Lemma stable_add_fields p fs ix : wf ix → docs ix !! p = None → stable ix (add_fields p fs ix).
Proof.
  intros Hw Hp. split; simpl; [lia|]. intros id p' Hid Hi.
  rewrite lookup_insert_ne in Hi by lia. split; [done|].
  destruct (wf_ids_docs _ Hw _ _ Hi) as [fs' Hfs']. rewrite lookup_insert_ne; [done|]. congruence.
Qed.

Lemma stable_upsert_fields p fs ix : wf ix → stable ix (upsert_fields p fs ix).
Proof.
  intros Hw. eapply stable_trans; [by apply stable_remove|].
  apply stable_add_fields; [by apply wf_remove|]. rewrite remove_docs. apply lookup_delete_eq.
Qed.

Section RunTokenizer.
Context `{Segmenter} (cfg : TokenizerConfig).

Lemma wf_step ix op : wf ix → wf (step cfg ix op).
Proof. destruct op; simpl; auto using wf_upsert, wf_remove, wf_reindexAll. Qed.

Lemma wf_run ops ix : wf ix → wf (run cfg ops ix).
Proof. revert ix. induction ops; simpl; auto using wf_step. Qed.

Lemma stable_foldl_upsert ds ix : wf ix → stable ix (foldl (λ ix d, upsert cfg d ix) ix ds).
Proof.
  revert ix. induction ds as [|d ds IH]; simpl; intros ix Hw; [apply stable_refl|].
  eapply stable_trans; [by apply stable_upsert_fields|]. apply IH, wf_upsert, Hw.
Qed.

Lemma stable_step ix op : wf ix → stable ix (step cfg ix op).
Proof.
  intros Hw. destruct op; simpl; [by apply stable_upsert_fields|by apply stable_remove|].
  eapply stable_trans; [apply stable_clear|]. apply stable_foldl_upsert, wf_clear.
Qed.

Lemma stable_run ops ix : wf ix → stable ix (run cfg ops ix).
Proof.
  revert ix. induction ops as [|op ops IH]; simpl; intros ix Hw; [apply stable_refl|].
  eapply stable_trans; [by apply stable_step|]. apply IH, wf_step, Hw.
Qed.

End RunTokenizer.

(** ** Properties of the index *)

Section IndexProps.
Context `{Segmenter} (cfg : TokenizerConfig).

Lemma fields_of_upsert d ix :
  fields_of (upsert cfg d ix) = <[doc_path d := tokenize_doc cfg d]> (fields_of ix).
Proof. apply fields_of_upsert_fields. Qed.

Lemma fields_of_foldl_upsert ds ix :
  fields_of (foldl (λ ix d, upsert cfg d ix) ix ds)
  = foldl (λ M d, <[doc_path d := tokenize_doc cfg d]> M) (fields_of ix) ds.
Proof. revert ix. induction ds as [|d ds IH]; simpl; intros ix; [done|]. by rewrite IH, fields_of_upsert. Qed.

(** The index implements its contract: after any sequence of
    upserts, removals and rebuilds, the tokenized fields it holds per
    path are those of the abstract index where an upsert sets the path's
    tokenization, a removal deletes the path and a rebuild starts from
    no document; the ids and postings are invisible at this level. *)
Theorem run_refines ops ix : fields_of (run cfg ops ix) = abs_run cfg ops (fields_of ix).
Proof.
  revert ix. induction ops as [|op ops IH]; intros ix; [done|]. simpl. rewrite IH. f_equal.
  destruct op; simpl; [apply fields_of_upsert|apply fields_of_remove|].
  unfold reindexAll. rewrite fields_of_foldl_upsert. unfold fields_of. simpl. by rewrite fmap_empty.
Qed.

(** C7: every index reachable from the empty one is well formed: the id
    tables are inverse, ids are below the counter, and the postings of
    every term are exactly the term frequencies of the current
    tokenization of the indexed documents, so a removed document leaves
    no posting behind and no term keeps an empty posting list. *)
Theorem run_wf ops : wf (run cfg ops emptyIndex).
Proof. apply wf_run, wf_emptyIndex. Qed.

(** C13: ids are never reused: a document id present before a sequence of
    operations and present after it names the same path with the same
    tokenized fields, so a path that was removed or re-indexed comes back
    under a new id. *)
Theorem ids_never_reused ops ix p p' i fs fs' :
  wf ix → docs ix !! p = Some (i, fs) → docs (run cfg ops ix) !! p' = Some (i, fs') →
  p' = p ∧ fs' = fs.
Proof.
  intros Hw Hp Hp'.
  pose proof (wf_docs_ids _ Hw _ _ _ Hp) as Hi. pose proof (wf_fresh _ Hw _ _ Hi).
  pose proof (wf_docs_ids _ (wf_run cfg ops _ Hw) _ _ _ Hp') as Hi'.
  destruct (proj2 (stable_run cfg ops ix Hw) i p') as [Hi2 Hd]; [done..|].
  rewrite Hi in Hi2. injection Hi2 as ->. rewrite Hd, Hp in Hp'. by injection Hp' as ->.
Qed.

End IndexProps.

(** ** The documents of the scenario of spec section 8 *)

Definition scenario_a : IndexedDocument :=
  mkIndexedDocument (js "a.md") (js "Projects") [] None (Some (js "alpha beta")).
Definition scenario_b : IndexedDocument :=
  mkIndexedDocument (js "b.md") (js "Notes") [] None (Some (js "beta gamma")).

Definition scenario_index : Index :=
  @reindexAll demo_segmenter (demo_config true) [scenario_a; scenario_b] emptyIndex.

Lemma ids_never_reused_witness :
  wf scenario_index ∧
  docs scenario_index !! js "a.md" = Some (0, @tokenize_doc demo_segmenter (demo_config true) scenario_a) ∧
  docs (@run demo_segmenter (demo_config true) [OpRemove (js "b.md"); OpUpsert scenario_b] scenario_index)
    !! js "a.md" = Some (0, @tokenize_doc demo_segmenter (demo_config true) scenario_a) ∧
  (js "a.md" = js "a.md" ∧
   @tokenize_doc demo_segmenter (demo_config true) scenario_a
   = @tokenize_doc demo_segmenter (demo_config true) scenario_a).
Proof.
  assert (Hw : wf scenario_index) by apply wf_reindexAll.
  assert (H1 : docs scenario_index !! js "a.md"
               = Some (0, @tokenize_doc demo_segmenter (demo_config true) scenario_a)) by (vm_compute; reflexivity).
  assert (H2 : docs (@run demo_segmenter (demo_config true) [OpRemove (js "b.md"); OpUpsert scenario_b]
                 scenario_index) !! js "a.md"
               = Some (0, @tokenize_doc demo_segmenter (demo_config true) scenario_a)) by (vm_compute; reflexivity).
  split; [exact Hw|]. split; [exact H1|]. split; [exact H2|].
  exact (@ids_never_reused demo_segmenter (demo_config true) _ _ _ _ _ _ _ Hw H1 H2).
Defined.

End LexicalIndex.
