(* ===== verification/LexicalSearch.v ===== *)
(** * LexicalSearch: term matching, scoring and ranking (spec 4.2, 4.3)

    The query side of the lexical engine ([searchFiles], a MiniSearch
    query in services/search/search-engine.ts, not in the snapshot under
    src/), modelled from the specification.  The query is parsed in fine
    mode (Tokenizer.v); each query term is matched against every indexed
    term: exactly, as a prefix when the query term has at least
    [minTermLengthForPrefixSearch] units, and within an edit distance of
    [fuzzyProportion] times its length (at least one) when it has at least
    [minTermLengthForPrefix] units; the settings are [innerSetting] of
    PluginSetting.v.

    A document's score sums, over the query terms and their matching
    indexed terms present in it, the match-kind factor (exact 4, prefix 2,
    fuzzy 1) times the inverse document frequency
    [1 + log2 (1 + N / df)] times the field-weighted term frequency, the
    field weights being those of [innerSetting] in hundredths (filename
    300, folder 200, tag text 115, content 100).  Documents qualify in
    "or" mode when one query term matches, fuzzily or not, and in "and"
    mode when besides every one matches exactly or by prefix; they are
    ranked by score, then by the number of query terms matched exactly or
    by prefix, then by path, and the first [limit] are returned.

    [search] runs on the postings of the index; [ref_search] is the same
    query read directly off the abstract index (path to tokenized fields).
    [search_refines] shows that on a well-formed index they coincide, so
    the properties of the results are proved on [ref_search]. *)

From Stdlib Require Import QArith Qround.
From S2P Require Import Prelude SearchTypes Engines Tokenizer EditDistance LexicalIndex PluginSetting.

Module LexicalSearch.
Import Tokenizer.Tokenizer EditDistance.EditDistance LexicalIndex.LexicalIndex PluginSetting.PluginSetting.

Inductive MatchKind := Exact | Prefix | Fuzzy.

#[export] Instance MatchKind_eq_dec : EqDecision MatchKind.
Proof. solve_decision. Defined.

(** ** Term matching *)

(** [fuzzyProportion × length], rounded down, at least one. *)
Definition fuzzy_budget (q : jstr) : nat :=
  Nat.max 1 (Z.to_nat (Qfloor (inject_Z (Z.of_nat (length q)) * fuzzyProportion innerSetting))).

Definition match_kind (q t : jstr) : option MatchKind :=
  if decide (t = q) then Some Exact
  else if bool_decide (minTermLengthForPrefixSearch innerSetting ≤ Z.of_nat (length q))%Z
          && starts_with q t then Some Prefix
  else if bool_decide (minTermLengthForPrefix innerSetting ≤ Z.of_nat (length q))%Z
          && Nat.leb (lev_dp q t) (fuzzy_budget q) then Some Fuzzy
  else None.

(** The indexed terms a query term matches, with how. *)
Definition term_hits (terms : list jstr) (q : jstr) : list (jstr * MatchKind) :=
  omap (λ t, pair t <$> match_kind q t) terms.

(** ** Scoring *)

(** A setting weight in hundredths. *)
Definition hundredths (w : Q) : Z := Qfloor (w * 100).

(** The [DocumentWeight] of the engine: the weights of [innerSetting]
    for the file name, the folder and the tag text; the other fields are
    absent and weigh 1 (spec 3). *)
Definition searchWeights : DocumentWeight := λ f,
  match f with
  | F_basename => Some (weightFilename innerSetting)
  | F_folder => Some (weightFolder innerSetting)
  | F_aliases => Some (weightTagText innerSetting)
  | F_path | F_content => None
  end.

Definition field_weight (f : DocField) : Z := hundredths (default 1%Q (searchWeights f)).

Definition kind_factor (k : MatchKind) : Z :=
  match k with Exact => 4 | Prefix => 2 | Fuzzy => 1 end.

(** Inverse document frequency, [n] documents of which [df] hold the term. *)
Definition idf (n df : nat) : Z := (1 + Z.log2 (1 + Z.of_nat n / Z.of_nat df))%Z.

Definition posting_weight (ps : Posting) : Z :=
  foldr (λ fc acc, field_weight fc.1 * Z.of_nat fc.2 + acc)%Z 0%Z ps.

(** One result before it is returned: the path, the score, the number of
    query terms matched exactly or by prefix (the count "and" mode asks
    to be all of them, spec 4.2), the number of query terms matched in
    any way, fuzzy included, and the indexed terms matched. *)
Record Hit := mkHit { hit_path : jstr; hit_score : Z; hit_and : nat; hit_any : nat; hit_terms : list jstr }.

#[export] Instance Hit_eq_dec : EqDecision Hit.
Proof. solve_decision. Defined.

(** The match data of one document: for each query term, each matching
    indexed term with the document's posting for it and its document
    frequency. *)
Abbreviation Ann := (list (list ((jstr * MatchKind) * option Posting * nat))).

Definition annotate (df : jstr → nat) (post : jstr → option Posting)
    (qs : list (list (jstr * MatchKind))) : Ann :=
  (λ hq : list (jstr * MatchKind), (λ h : jstr * MatchKind, (h, post h.1, df h.1)) <$> hq) <$> qs.

Definition ann_present (a : (jstr * MatchKind) * option Posting * nat) : bool :=
  bool_decide (is_Some a.1.2).

Definition strict_kind (k : MatchKind) : bool :=
  match k with Exact | Prefix => true | Fuzzy => false end.

Definition ann_strict (a : (jstr * MatchKind) * option Posting * nat) : bool :=
  ann_present a && strict_kind a.1.1.2.

Definition ann_score (n : nat) (a : (jstr * MatchKind) * option Posting * nat) : Z :=
  match a.1.2 with
  | Some ps => kind_factor a.1.1.2 * idf n a.2 * posting_weight ps
  | None => 0
  end%Z.

Definition score_ann (n : nat) (p : jstr) (ann : Ann) : Hit :=
  let present := filter (λ a, ann_present a = true) (concat ann) in
  mkHit p (foldr (λ a acc, ann_score n a + acc)%Z 0%Z present)
    (length (filter (λ hq, existsb ann_strict hq = true) ann))
    (length (filter (λ hq, existsb ann_present hq = true) ann))
    (remove_dups ((λ a, a.1.1.1) <$> present)).

Definition score_doc (n : nat) (df : jstr → nat) (post : jstr → option Posting)
    (p : jstr) (qs : list (list (jstr * MatchKind))) : Hit :=
  score_ann n p (annotate df post qs).

(** ** Ranking *)

(** [a < b] on JavaScript strings: code units compared lexicographically. *)
Fixpoint path_leb (a b : jstr) : bool :=
  match a, b with
  | [], _ => true
  | _ :: _, [] => false
  | x :: a', y :: b' => (x <? y)%Z || (x =? y)%Z && path_leb a' b'
  end.

(** [a] ranks before [b]: higher score, then more query terms matched,
    then the smaller path. *)
Definition rank_leb (a b : Hit) : bool :=
  match Z.compare (hit_score a) (hit_score b) with
  | Gt => true
  | Lt => false
  | Eq =>
      match Nat.compare (hit_and a) (hit_and b) with
      | Gt => true
      | Lt => false
      | Eq => path_leb (hit_path a) (hit_path b)
      end
  end.

Definition rank_le (a b : Hit) : Prop := rank_leb a b = true.

#[export] Instance rank_le_dec : RelDecision rank_le := λ a b, decide (rank_leb a b = true).

(** "or" mode: one query term matched in any way; "and" mode: besides,
    all [nterms] of them matched exactly or by prefix. *)
Definition qualifies (mode : SearchMode) (nterms : nat) (h : Hit) : bool :=
  bool_decide (1 ≤ hit_any h) &&
  match mode with ModeOr => true | ModeAnd => Nat.eqb (hit_and h) nterms end.

Definition to_matched (h : Hit) : MatchedFile := mkMatchedFile (hit_path h) (hit_terms h).

(** ** The query on the postings *)

Definition index_terms (ix : Index) : list jstr := elements (dom (postings ix)).

(** The document frequency: the size of the term's posting map. *)
Definition df_ix (ix : Index) (t : jstr) : nat := size (default ∅ (postings ix !! t)).

(** The documents with a posting for one of the matched terms. *)
Definition candidates (ix : Index) (qs : list (list (jstr * MatchKind))) : list nat :=
  remove_dups (concat ((λ h, elements (dom (default ∅ (postings ix !! h.1)))) <$> concat qs)).

Definition score_id (ix : Index) (qs : list (list (jstr * MatchKind))) (id : nat) : Hit :=
  score_doc (size (docs ix)) (df_ix ix) (λ t, postings ix !! t ≫= (.!! id))
    (default [] (idToPath ix !! id)) qs.

Definition ranked (ix : Index) (qs : list (list (jstr * MatchKind))) (mode : SearchMode) : list Hit :=
  merge_sort rank_le
    (filter (λ h, qualifies mode (length qs) h = true) (score_id ix qs <$> candidates ix qs)).

(** ** The query on the abstract index *)

Definition ref_terms (M : gmap jstr Fields) : gset jstr :=
  list_to_set (concat ((λ pf, doc_terms pf.2) <$> map_to_list M)).

Definition ref_df (M : gmap jstr Fields) (t : jstr) : nat :=
  length (filter (λ pf, t ∈ doc_terms pf.2) (map_to_list M)).

Definition ref_score (M : gmap jstr Fields) (qs : list (list (jstr * MatchKind)))
    (pf : jstr * Fields) : Hit :=
  score_doc (size M) (ref_df M) (λ t, nonempty (doc_posting pf.2 t)) pf.1 qs.

Definition ref_ranked (M : gmap jstr Fields) (qs : list (list (jstr * MatchKind)))
    (mode : SearchMode) : list Hit :=
  merge_sort rank_le
    (filter (λ h, qualifies mode (length qs) h = true) (ref_score M qs <$> map_to_list M)).

Section Query.
Context `{Segmenter} (cfg : TokenizerConfig).

(** [searchFiles(query, mode)], capped at [limit] results. *)
Definition search (ix : Index) (q : jstr) (mode : SearchMode) (limit : nat) : list MatchedFile :=
  to_matched <$> take limit (ranked ix (term_hits (index_terms ix) <$> parseQuery cfg q) mode).

Definition ref_search (M : gmap jstr Fields) (q : jstr) (mode : SearchMode) (limit : nat)
    : list MatchedFile :=
  to_matched <$> take limit
    (ref_ranked M (term_hits (elements (ref_terms M)) <$> parseQuery cfg q) mode).

End Query.

(** ** Generic lemmas *)

Lemma length_filter_pos {A} (P : A → Prop) `{∀ x, Decision (P x)} (l : list A) :
  1 ≤ length (filter P l) → ∃ x, x ∈ l ∧ P x.
Proof.
  intros Hl. destruct (filter P l) as [|x k] eqn:E; simpl in Hl; [lia|].
  assert (x ∈ filter P l) as Hx by (rewrite E; by left).
  apply list_elem_of_filter in Hx as [? ?]. eauto.
Qed.

Lemma length_filter_fmap {A B} (P : B → Prop) `{∀ x, Decision (P x)} (f : A → B) (l : list A) :
  length (filter P (f <$> l)) = length (filter (λ x, P (f x)) l).
Proof. induction l as [|x l IH]; [done|]. rewrite fmap_cons, !filter_cons. case_decide; simpl; lia. Qed.

Lemma filter_fmap_drop {A B} (P : B → Prop) (R : A → Prop) `{∀ x, Decision (P x)}
    `{∀ x, Decision (R x)} (f : A → B) (l : list A) :
  (∀ x, P (f x) → R x) → filter P (f <$> filter R l) = filter P (f <$> l).
Proof.
  intros HPR. induction l as [|x l IH]; [done|]. rewrite filter_cons. case_decide as Hx.
  - by rewrite !fmap_cons, !filter_cons, IH.
  - rewrite fmap_cons, filter_cons, IH. case_decide as Hp; [|done]. by destruct Hx; apply HPR.
Qed.

(** ** Ranking is a total preorder, antisymmetric up to the path *)

Ltac path_bool := rewrite ?orb_true_iff, ?andb_true_iff, ?Z.ltb_lt, ?Z.eqb_eq in *.

Lemma path_leb_total a b : path_leb a b = true ∨ path_leb b a = true.
Proof.
  revert b; induction a as [|x a IH]; intros [|y b]; simpl; auto. path_bool.
  destruct (Z.lt_trichotomy x y) as [?|[->|?]]; [|destruct (IH b)|]; naive_solver.
Qed.

Lemma path_leb_trans a b c : path_leb a b = true → path_leb b c = true → path_leb a c = true.
Proof.
  revert b c; induction a as [|x a IH]; intros [|y b] [|z c]; simpl; try done. path_bool.
  intros [?|[-> ?]] [?|[-> ?]]; [left; lia|left; lia|left; lia|right; split; [done|by eapply IH]].
Qed.

Lemma path_leb_antisym a b : path_leb a b = true → path_leb b a = true → a = b.
Proof.
  revert b; induction a as [|x a IH]; intros [|y b]; simpl; try done. path_bool.
  intros [?|[-> ?]] [?|[? ?]]; try lia. f_equal. by apply IH.
Qed.

Ltac rank_cases a b c :=
  unfold rank_leb;
  destruct (Z.compare_spec (hit_score a) (hit_score b)), (Z.compare_spec (hit_score b) (hit_score c)),
    (Z.compare_spec (hit_score a) (hit_score c)); intros ? ?; try discriminate; try done; try lia;
  destruct (Nat.compare_spec (hit_and a) (hit_and b)), (Nat.compare_spec (hit_and b) (hit_and c)),
    (Nat.compare_spec (hit_and a) (hit_and c)); try discriminate; try done; try lia.

Lemma rank_leb_trans a b c : rank_leb a b = true → rank_leb b c = true → rank_leb a c = true.
Proof. rank_cases a b c. by eapply path_leb_trans. Qed.

Lemma rank_leb_antisym a b : rank_leb a b = true → rank_leb b a = true → hit_path a = hit_path b.
Proof. rank_cases a b a. by apply path_leb_antisym. Qed.

#[export] Instance rank_le_total : Total rank_le.
Proof.
  intros a b. unfold rank_le, rank_leb.
  destruct (Z.compare_spec (hit_score a) (hit_score b)), (Z.compare_spec (hit_score b) (hit_score a));
    try lia; auto;
  destruct (Nat.compare_spec (hit_and a) (hit_and b)), (Nat.compare_spec (hit_and b) (hit_and a));
    try lia; auto using path_leb_total.
Qed.

#[export] Instance rank_le_trans : Transitive rank_le.
Proof. intros a b c. apply rank_leb_trans. Qed.

(** Sorting two permutations of a list whose hits have distinct paths
    gives the same list. *)
Lemma merge_sort_perm_eq (l1 l2 : list Hit) :
  l1 ≡ₚ l2 → (∀ x y, x ∈ l2 → y ∈ l2 → hit_path x = hit_path y → x = y) →
  merge_sort rank_le l1 = merge_sort rank_le l2.
Proof.
  intros Hp Hu. apply (Sorted_unique_strong rank_le).
  - intros x y Hx Hy Hxy Hyx. rewrite merge_sort_Permutation, Hp in Hx. rewrite merge_sort_Permutation in Hy.
    apply Hu; [done..|]. by apply rank_leb_antisym.
  - apply Sorted_merge_sort, rank_le_total.
  - apply Sorted_merge_sort, rank_le_total.
  - rewrite (merge_sort_Permutation rank_le l1), (merge_sort_Permutation rank_le l2). done.
Qed.

(** ** The postings agree with the abstract index *)

Lemma score_doc_ext n df1 df2 post1 post2 p qs :
  (∀ t, df1 t = df2 t) → (∀ t, post1 t = post2 t) →
  score_doc n df1 post1 p qs = score_doc n df2 post2 p qs.
Proof.
  intros Hd Hp. unfold score_doc, annotate. f_equal.
  apply list_fmap_ext. intros i hq _. apply list_fmap_ext. intros j h _. by rewrite Hd, Hp.
Qed.

Lemma fields_of_lookup ix p : fields_of ix !! p = snd <$> docs ix !! p.
Proof. apply lookup_fmap. Qed.

Lemma fields_of_Some ix p fs : fields_of ix !! p = Some fs ↔ ∃ id, docs ix !! p = Some (id, fs).
Proof.
  rewrite fields_of_lookup. destruct (docs ix !! p) as [[id fs']|]; simpl; [|naive_solver].
  split; [intros [= ->]; eauto|intros [? [= _ ->]]; done].
Qed.

Lemma ref_terms_spec M t : t ∈ ref_terms M ↔ ∃ p fs, M !! p = Some fs ∧ t ∈ doc_terms fs.
Proof.
  unfold ref_terms. rewrite elem_of_list_to_set, elem_of_concat. split.
  - intros (l & Ht & ([p fs] & -> & Hin)%list_elem_of_fmap). apply elem_of_map_to_list in Hin. eauto.
  - intros (p & fs & Hp & Ht). exists (doc_terms fs). split; [done|].
    apply list_elem_of_fmap. exists (p, fs). split; [done|]. by apply elem_of_map_to_list.
Qed.

Lemma wf_posting_lookup ix t id p fs :
  wf ix → idToPath ix !! id = Some p → docs ix !! p = Some (id, fs) →
  postings ix !! t ≫= (.!! id) = nonempty (doc_posting fs t).
Proof. intros Hw Hi Hp. rewrite (wf_postings _ Hw). unfold ref_posting. by rewrite Hi, Hp. Qed.

Lemma wf_posting_Some ix t id ps :
  wf ix → postings ix !! t ≫= (.!! id) = Some ps →
  ∃ p fs, idToPath ix !! id = Some p ∧ docs ix !! p = Some (id, fs) ∧ t ∈ doc_terms fs ∧
          ps = doc_posting fs t.
Proof.
  intros Hw. rewrite (wf_postings _ Hw). unfold ref_posting.
  destruct (idToPath ix !! id) as [p|] eqn:Hi; [|done].
  destruct (wf_ids_docs _ Hw _ _ Hi) as [fs Hfs]. rewrite Hfs, nonempty_posting.
  case_decide; [|done]. intros [= <-]. eauto 10.
Qed.

Lemma wf_term_posting ix t p id fs :
  wf ix → docs ix !! p = Some (id, fs) → t ∈ doc_terms fs →
  postings ix !! t ≫= (.!! id) = Some (doc_posting fs t).
Proof.
  intros Hw Hp Ht. rewrite (wf_posting_lookup _ _ _ p fs Hw); [|by eapply wf_docs_ids|done].
  rewrite nonempty_posting. by case_decide.
Qed.

Lemma dom_postings ix : wf ix → dom (postings ix) = ref_terms (fields_of ix).
Proof.
  intros Hw. apply set_eq. intros t. rewrite elem_of_dom, ref_terms_spec. split.
  - intros [m Hm]. destruct (map_choose m) as (id & ps & Hps); [by eapply wf_no_empty|].
    destruct (wf_posting_Some ix t id ps) as (p & fs & _ & Hp & Ht & _); [done|by rewrite Hm|].
    exists p, fs. rewrite fields_of_Some. eauto.
  - intros (p & fs & (id & Hp)%fields_of_Some & Ht).
    pose proof (wf_term_posting ix t p id fs Hw Hp Ht). destruct (postings ix !! t); [done|discriminate].
Qed.

Lemma df_ix_ref ix t : wf ix → df_ix ix t = ref_df (fields_of ix) t.
Proof.
  intros Hw. unfold df_ix, ref_df, fields_of.
  rewrite map_to_list_fmap, length_filter_fmap, <- length_map_to_list.
  set (m := default ∅ (postings ix !! t)).
  assert (Hm : ∀ id, m !! id = postings ix !! t ≫= (.!! id)) by (intros; apply lookup_default_bind).
  rewrite <- (length_fmap (λ pe : jstr * (nat * Fields), (pe.2.1, doc_posting pe.2.2 t))).
  apply Permutation_length, NoDup_Permutation.
  - apply NoDup_map_to_list.
  - apply NoDup_fmap_2_strong; [|apply NoDup_filter, NoDup_map_to_list].
    intros [p1 [id1 fs1]] [p2 [id2 fs2]] (_ & H1%elem_of_map_to_list)%list_elem_of_filter
      (_ & H2%elem_of_map_to_list)%list_elem_of_filter [= <- _].
    pose proof (wf_docs_ids _ Hw _ _ _ H1). pose proof (wf_docs_ids _ Hw _ _ _ H2).
    assert (p1 = p2) as <- by congruence. congruence.
  - intros [id ps]. rewrite elem_of_map_to_list, Hm, list_elem_of_fmap. split.
    + intros (p & fs & _ & Hp & Ht & ->)%wf_posting_Some; [|done].
      exists (p, (id, fs)). split; [done|]. apply list_elem_of_filter. by rewrite elem_of_map_to_list.
    + intros ([p [id' fs]] & [= -> ->] & (Ht & Hp%elem_of_map_to_list)%list_elem_of_filter).
      by apply (wf_term_posting ix t p).
Qed.

(** ** The candidates and their scores *)

Lemma hit_path_score_doc n df post p qs : hit_path (score_doc n df post p qs) = p.
Proof. done. Qed.

Lemma candidates_spec ix qs id :
  wf ix →
  id ∈ candidates ix qs ↔
    ∃ p fs, idToPath ix !! id = Some p ∧ docs ix !! p = Some (id, fs) ∧
            Exists (λ h, h.1 ∈ doc_terms fs) (concat qs).
Proof.
  intros Hw. unfold candidates. rewrite elem_of_remove_dups, elem_of_concat.
  setoid_rewrite Exists_exists. split.
  - intros (l & Hid & (h & -> & Hh)%list_elem_of_fmap).
    rewrite elem_of_elements, elem_of_dom, lookup_default_bind in Hid. destruct Hid as [ps Hps].
    destruct (wf_posting_Some ix h.1 id ps Hw Hps) as (p & fs & Hi & Hp & Ht & _). eauto 10.
  - intros (p & fs & Hi & Hp & h & Hh & Ht). eexists. split; [|apply list_elem_of_fmap; eauto].
    rewrite elem_of_elements, elem_of_dom, lookup_default_bind, (wf_term_posting ix _ p id fs) by done.
    by eexists.
Qed.

Lemma score_id_ref ix qs id p fs :
  wf ix → idToPath ix !! id = Some p → docs ix !! p = Some (id, fs) →
  score_id ix qs id = ref_score (fields_of ix) qs (p, fs).
Proof.
  intros Hw Hi Hp. unfold score_id, ref_score, fields_of. rewrite Hi, map_size_fmap. simpl.
  apply score_doc_ext; intros t; [by apply df_ix_ref|]. by apply (wf_posting_lookup _ _ _ p).
Qed.

Lemma ref_score_hit M qs pf :
  1 ≤ hit_any (ref_score M qs pf) → Exists (λ h, h.1 ∈ doc_terms pf.2) (concat qs).
Proof.
  unfold ref_score, score_doc, score_ann, annotate. simpl.
  intros (hq & (hq0 & -> & Hq0)%list_elem_of_fmap & Hex)%length_filter_pos.
  apply existsb_exists in Hex as (a & Ha%list_elem_of_In & Hp).
  apply list_elem_of_fmap in Ha as (h & -> & Hh).
  apply Exists_exists. exists h. split; [apply elem_of_concat; eauto|].
  unfold ann_present in Hp. simpl in Hp. apply bool_decide_eq_true in Hp.
  rewrite nonempty_posting in Hp. case_decide; [done|by destruct Hp].
Qed.

Lemma pre_perm ix qs :
  wf ix →
  score_id ix qs <$> candidates ix qs ≡ₚ
  ref_score (fields_of ix) qs <$>
    filter (λ pf, Exists (λ h, h.1 ∈ doc_terms pf.2) (concat qs)) (map_to_list (fields_of ix)).
Proof.
  intros Hw. apply NoDup_Permutation.
  - apply NoDup_fmap_2_strong; [|apply NoDup_remove_dups].
    intros id1 id2 (p1 & fs1 & Hi1 & Hp1 & _)%(candidates_spec _ _ _ Hw)
      (p2 & fs2 & Hi2 & Hp2 & _)%(candidates_spec _ _ _ Hw) Heq.
    apply (f_equal hit_path) in Heq. unfold score_id in Heq.
    rewrite !hit_path_score_doc, Hi1, Hi2 in Heq. simpl in Heq. subst. congruence.
  - apply NoDup_fmap_2_strong; [|apply NoDup_filter, NoDup_map_to_list].
    intros [p1 fs1] [p2 fs2] (_ & H1%elem_of_map_to_list)%list_elem_of_filter
      (_ & H2%elem_of_map_to_list)%list_elem_of_filter Heq.
    apply (f_equal hit_path) in Heq. unfold ref_score in Heq.
    rewrite !hit_path_score_doc in Heq. simpl in Heq. subst. congruence.
  - intros h. rewrite !list_elem_of_fmap. split.
    + intros (id & -> & (p & fs & Hi & Hp & Hex)%(candidates_spec _ _ _ Hw)).
      exists (p, fs). rewrite (score_id_ref ix qs id p fs) by done. split; [done|].
      apply list_elem_of_filter. split; [done|]. apply elem_of_map_to_list, fields_of_Some. eauto.
    + intros ([p fs] & -> & (Hex & (id & Hp)%elem_of_map_to_list%fields_of_Some)%list_elem_of_filter).
      exists id. pose proof (wf_docs_ids _ Hw _ _ _ Hp) as Hi.
      rewrite (score_id_ref ix qs id p fs) by done.
      split; [done|]. apply (candidates_spec _ _ _ Hw). eauto 10.
Qed.

Lemma ref_list_path_unique M qs (P : Hit → Prop) `{∀ h, Decision (P h)} x y :
  x ∈ filter P (ref_score M qs <$> map_to_list M) → y ∈ filter P (ref_score M qs <$> map_to_list M) →
  hit_path x = hit_path y → x = y.
Proof.
  intros (_ & ([p1 fs1] & -> & H1%elem_of_map_to_list)%list_elem_of_fmap)%list_elem_of_filter
    (_ & ([p2 fs2] & -> & H2%elem_of_map_to_list)%list_elem_of_fmap)%list_elem_of_filter.
  unfold ref_score. rewrite !hit_path_score_doc. simpl. intros ->.
  assert (fs1 = fs2) as -> by congruence. done.
Qed.

Lemma ranked_ref ix qs mode : wf ix → ranked ix qs mode = ref_ranked (fields_of ix) qs mode.
Proof.
  intros Hw. unfold ranked, ref_ranked.
  apply merge_sort_perm_eq; [|intros x y; apply ref_list_path_unique].
  rewrite (pre_perm ix qs Hw), filter_fmap_drop; [done|].
  intros pf Hq. apply (ref_score_hit (fields_of ix)).
  apply andb_true_iff in Hq as [Hq _]. by apply bool_decide_eq_true in Hq.
Qed.

Lemma index_terms_ref ix : wf ix → index_terms ix = elements (ref_terms (fields_of ix)).
Proof. intros Hw. unfold index_terms. by rewrite dom_postings. Qed.

(** [rank_le] spelled out: a higher score, or the same score and more
    query terms matched, or both equal and a path not after. *)
Lemma rank_le_spec a b :
  rank_le a b ↔
    (hit_score b < hit_score a)%Z ∨
    (hit_score a = hit_score b ∧ hit_and b < hit_and a) ∨
    (hit_score a = hit_score b ∧ hit_and a = hit_and b ∧ path_leb (hit_path a) (hit_path b) = true).
Proof.
  unfold rank_le, rank_leb.
  destruct (Z.compare_spec (hit_score a) (hit_score b)) as [Hs|Hs|Hs].
  - destruct (Nat.compare_spec (hit_and a) (hit_and b)) as [Ha|Ha|Ha].
    + split; [by right; right|]. intros [?|[[? ?]|(? & ? & ?)]]; [lia|lia|done].
    + split; [done|]. intros [?|[[? ?]|(? & ? & ?)]]; lia.
    + split; [intros _; right; left; lia|done].
  - split; [done|]. intros [?|[[? ?]|(? & ? & ?)]]; lia.
  - split; [intros _; left; lia|done].
Qed.

Section Refinement.
Context `{Segmenter} (cfg : TokenizerConfig).

(** C6: the query sorts before it caps: [search] returns the first
    [limit] hits of a list that holds every qualifying hit of the
    candidates exactly once and is ordered by score, then by the number
    of query terms matched (an "and" match before an "or"-only match of
    equal score), then by path.  So every hit dropped by the cap ranks
    after every hit returned (spec 4.2). *)
Theorem search_cap_in_rank_order ix q mode limit :
  let qs := term_hits (index_terms ix) <$> parseQuery cfg q in
  ∃ hs, hs ≡ₚ filter (λ h, qualifies mode (length qs) h = true) (score_id ix qs <$> candidates ix qs) ∧
    (∀ i j h1 h2, i < j → hs !! i = Some h1 → hs !! j = Some h2 →
      (hit_score h2 < hit_score h1)%Z ∨
      (hit_score h1 = hit_score h2 ∧ hit_and h2 < hit_and h1) ∨
      (hit_score h1 = hit_score h2 ∧ hit_and h1 = hit_and h2 ∧
       path_leb (hit_path h1) (hit_path h2) = true)) ∧
    search cfg ix q mode limit = to_matched <$> take limit hs.
Proof.
  intros qs. exists (ranked ix qs mode). unfold ranked. split_and!; [apply merge_sort_Permutation| |done].
  intros i j h1 h2 Hij H1 H2. apply rank_le_spec.
  pose proof (StronglySorted_merge_sort rank_le
    (filter (λ h, qualifies mode (length qs) h = true) (score_id ix qs <$> candidates ix qs))) as Hs.
  exact (StronglySorted_lookup _ _ i j h1 h2 Hs Hij H1 H2).
Qed.

(** C5: on a well-formed index the query over the postings returns what
    the same query returns when read directly off the indexed documents:
    the same files, in the same order, with the same matched terms. *)
Theorem search_refines ix q mode limit :
  wf ix → search cfg ix q mode limit = ref_search cfg (fields_of ix) q mode limit.
Proof. intros Hw. unfold search, ref_search. by rewrite index_terms_ref, ranked_ref. Qed.

End Refinement.

Lemma search_refines_witness :
  wf scenario_index ∧
  @search demo_segmenter (demo_config true) scenario_index (js "beta") ModeOr 30
  = @ref_search demo_segmenter (demo_config true) (fields_of scenario_index) (js "beta") ModeOr 30.
Proof.
  assert (Hw : wf scenario_index) by apply wf_reindexAll.
  split; [exact Hw|exact (@search_refines demo_segmenter (demo_config true) _ _ _ _ Hw)].
Defined.

End LexicalSearch.
