(* ===== verification/LexicalEngine.v ===== *)
(** * LexicalEngine: what a query of the lexical engine returns (spec 4.2, 5, 7, 8)

    The properties of [search] (LexicalSearch.v) stated against the
    documents: a file is returned exactly when its tokens match the query
    (one query term in "or" mode, every one exactly or by prefix in "and"
    mode), removed files
    are never returned, results only depend on the indexed documents (so
    rebuilding twice or restoring a persisted copy changes nothing), an
    upsert is visible to the next query, and an index that was never
    built answers with no result.  The engine is then an instance of the
    [LexicalEngine] interface of Engines.v, and composed with the vault
    search of SearchService.v. *)

From Stdlib Require Import QArith.
From S2P Require Import Prelude SearchTypes Engines SearchService Tokenizer LexicalIndex LexicalSearch PluginSetting.

Module LexicalEngine.
Import Tokenizer.Tokenizer LexicalIndex.LexicalIndex LexicalSearch.LexicalSearch.

(** A query term matches a document with a kind in [sel] when one of
    the document's tokens matches it with such a kind. *)
Definition matches_with (sel : MatchKind → bool) (fs : Fields) (qt : jstr) : Prop :=
  Exists (λ t, ∃ k, match_kind qt t = Some k ∧ sel k = true) (doc_terms fs).

#[export] Instance matches_with_dec sel fs qt : Decision (matches_with sel fs qt).
Proof.
  apply Exists_dec. intros t. destruct (match_kind qt t) as [k|].
  - destruct (decide (sel k = true)); [left; eauto|right; intros (k' & Hk & Hs); congruence].
  - right. intros (k' & Hk & _). congruence.
Defined.

(** Matched in any way, fuzzy included (spec 4.2, "or" mode). *)
Definition matches_term : Fields → jstr → Prop := matches_with (λ _, true).

(** Matched exactly or by prefix (spec 4.2, "and" mode). *)
Definition matches_strict : Fields → jstr → Prop := matches_with strict_kind.

Section Spec.
Context `{Segmenter} (cfg : TokenizerConfig).

(** The documents a query must return. *)
Definition doc_matches (fs : Fields) (mode : SearchMode) (q : jstr) : Prop :=
  match mode with
  | ModeOr => Exists (matches_term fs) (parseQuery cfg q)
  | ModeAnd => parseQuery cfg q ≠ [] ∧ Forall (matches_strict fs) (parseQuery cfg q)
  end.

End Spec.

(** ** Lemmas on filters *)

Lemma length_filter_pos_iff {A} (P : A → Prop) `{∀ x, Decision (P x)} (l : list A) :
  1 ≤ length (filter P l) ↔ Exists P l.
Proof.
  rewrite Exists_exists. split; [apply length_filter_pos|].
  intros (x & Hx & Px). destruct (filter P l) eqn:E; simpl; [|lia].
  assert (x ∈ filter P l) as Hf by (apply list_elem_of_filter; by split). rewrite E in Hf. set_solver.
Qed.

Lemma length_filter_full {A} (P : A → Prop) `{∀ x, Decision (P x)} (l : list A) :
  length (filter P l) = length l ↔ Forall P l.
Proof.
  split; [|intros HF; rewrite Forall_forall in HF; by rewrite (list_filter_all P l HF)].
  intros Hl. apply Forall_forall. intros x Hx. destruct (decide (P x)) as [|Hn]; [done|].
  pose proof (length_filter_lt P l x Hx Hn). lia.
Qed.

(** ** The reference query, document by document *)

Lemma matches_strict_term fs qt : matches_strict fs qt → matches_term fs qt.
Proof. unfold matches_strict, matches_term, matches_with. intros H. eapply Exists_impl; [exact H|]. intros t (k & Hk & _). eauto. Qed.

Lemma row_present M fs p qt (sel : MatchKind → bool) :
  M !! p = Some fs →
  existsb (λ a, ann_present a && sel a.1.1.2)
    ((λ h : jstr * MatchKind, (h, nonempty (doc_posting fs h.1), ref_df M h.1))
      <$> term_hits (elements (ref_terms M)) qt) = true ↔ matches_with sel fs qt.
Proof.
  intros Hp. rewrite existsb_exists. unfold matches_with. rewrite Exists_exists. split.
  - intros (a & (h & -> & Hh)%list_elem_of_In%list_elem_of_fmap & Ha).
    apply list_elem_of_omap in Hh as (t & _ & Hk).
    destruct (match_kind qt t) as [k|] eqn:E; [|done]. injection Hk as <-.
    apply andb_true_iff in Ha as [Ha Hs].
    unfold ann_present in Ha; simpl in Ha, Hs. apply bool_decide_eq_true in Ha.
    rewrite nonempty_posting in Ha. case_decide; [|by destruct Ha]. eauto.
  - intros (t & Ht & k & Hk & Hs). exists ((t, k), nonempty (doc_posting fs t), ref_df M t). split.
    + apply list_elem_of_In, list_elem_of_fmap. exists (t, k). split; [done|].
      apply list_elem_of_omap. exists t. rewrite Hk. split; [|done].
      apply elem_of_elements, ref_terms_spec. eauto.
    + apply andb_true_iff. split; [|done]. unfold ann_present. simpl.
      apply bool_decide_eq_true. rewrite nonempty_posting. case_decide; [eauto|done].
Qed.

Lemma ref_score_counts M p fs qterms :
  M !! p = Some fs →
  hit_and (ref_score M (term_hits (elements (ref_terms M)) <$> qterms) (p, fs))
    = length (filter (matches_strict fs) qterms) ∧
  hit_any (ref_score M (term_hits (elements (ref_terms M)) <$> qterms) (p, fs))
    = length (filter (matches_term fs) qterms).
Proof.
  intros Hp. unfold ref_score, score_doc, score_ann, annotate. simpl.
  rewrite <- !list_fmap_compose, !length_filter_fmap. split; f_equal; apply list_filter_iff; intros qt.
  - by apply (row_present M fs p qt strict_kind).
  - rewrite <- (row_present M fs p qt (λ _, true)) by done. rewrite !existsb_exists.
    by setoid_rewrite andb_true_r.
Qed.

Section Query.
Context `{Segmenter} (cfg : TokenizerConfig).

Lemma qualifies_spec M p fs q mode :
  M !! p = Some fs →
  qualifies mode (length (term_hits (elements (ref_terms M)) <$> parseQuery cfg q))
    (ref_score M (term_hits (elements (ref_terms M)) <$> parseQuery cfg q) (p, fs)) = true
  ↔ doc_matches cfg fs mode q.
Proof.
  intros Hp. unfold qualifies. destruct (ref_score_counts M p fs (parseQuery cfg q) Hp) as [-> ->].
  rewrite length_fmap, andb_true_iff, bool_decide_eq_true, length_filter_pos_iff.
  destruct mode; simpl.
  - rewrite Nat.eqb_eq, length_filter_full. split; [intros [HE HF]|intros [Hn HF]].
    + split; [|done]. intros Hn. rewrite Hn in HE. inversion HE.
    + split; [|done]. destruct (parseQuery cfg q); [done|].
      inversion HF; constructor. by apply matches_strict_term.
  - naive_solver.
Qed.

Lemma ref_search_elem M q mode limit mf :
  mf ∈ ref_search cfg M q mode limit →
  ∃ p fs, M !! p = Some fs ∧ doc_matches cfg fs mode q ∧
    mf = to_matched (ref_score M (term_hits (elements (ref_terms M)) <$> parseQuery cfg q) (p, fs)).
Proof.
  unfold ref_search, ref_ranked.
  intros (h & -> & Hh%elem_of_take_inv)%list_elem_of_fmap.
  rewrite merge_sort_Permutation in Hh.
  apply list_elem_of_filter in Hh as (Hq & ([p fs] & -> & Hp%elem_of_map_to_list)%list_elem_of_fmap).
  exists p, fs. split_and!; [done| |done]. by apply (qualifies_spec M p).
Qed.

Lemma ref_search_sound M q mode limit mf :
  mf ∈ ref_search cfg M q mode limit →
  ∃ fs, M !! mf_path mf = Some fs ∧ doc_matches cfg fs mode q.
Proof. intros (p & fs & Hp & Hm & ->)%ref_search_elem. eauto. Qed.

Lemma ref_search_complete M q mode limit p fs :
  size M ≤ limit → M !! p = Some fs → doc_matches cfg fs mode q →
  to_matched (ref_score M (term_hits (elements (ref_terms M)) <$> parseQuery cfg q) (p, fs))
    ∈ ref_search cfg M q mode limit.
Proof.
  intros Hl Hp Hm. unfold ref_search, ref_ranked. apply list_elem_of_fmap_2.
  rewrite take_ge.
  - rewrite merge_sort_Permutation. apply list_elem_of_filter. split; [by apply qualifies_spec|].
    apply list_elem_of_fmap_2. by apply elem_of_map_to_list.
  - rewrite merge_sort_Permutation. etrans; [apply length_filter|].
    by rewrite length_fmap, length_map_to_list.
Qed.

End Query.

(** ** Persisted snapshots *)

(** [AsPlainObject]: the persisted index, the tokenized documents by path. *)
Abbreviation Snapshot := (gmap jstr Fields).

(** [toJSON()] *)
Definition toSnapshot (ix : Index) : Snapshot := fields_of ix.

(** [loadJSON(snapshot)]: the index rebuilt without tokenizing again. *)
Definition loadSnapshot (s : Snapshot) (ix : Index) : Index :=
  foldr (λ pf ix, upsert_fields pf.1 pf.2 ix) (clear ix) (map_to_list s).

(** ** The engine behind the [LexicalEngine] interface *)

(** [maxItemResults] of the default UI settings. *)
Definition maxItemResults : nat :=
  Z.to_nat (PluginSetting.PluginSetting.maxItemResults
              (PluginSetting.PluginSetting.ui (PluginSetting.PluginSetting.DEFAULT_OUTER_SETTING false None))).

Section Engine.
Context `{Segmenter} (cfg : TokenizerConfig).

Definition lexicalEngine : LexicalEngine Index Snapshot := {|
  searchFiles e q mode := search cfg e q mode maxItemResults;
  reIndexAll e src :=
    match src with
    | FromDocuments ds => reindexAll cfg ds e
    | FromSnapshot s => loadSnapshot s e
    end
|}.

(** The abstract index built from a list of documents. *)
Definition indexed_fields (ds : list IndexedDocument) : gmap jstr Fields :=
  foldl (λ M d, <[doc_path d := tokenize_doc cfg d]> M) ∅ ds.

End Engine.

(** ** Properties of the queries *)

Section Props.
Context `{Segmenter} (cfg : TokenizerConfig).

Lemma search_eq_ref ix q mode limit :
  wf ix → search cfg ix q mode limit = ref_search cfg (fields_of ix) q mode limit.
Proof. intros Hw. unfold search, ref_search. by rewrite index_terms_ref, ranked_ref. Qed.

Lemma size_fields_of ix : size (fields_of ix) = size (docs ix).
Proof. apply map_size_fmap. Qed.

Lemma fields_of_reindexAll ds ix :
  fields_of (reindexAll cfg ds ix) = foldl (λ M d, <[doc_path d := tokenize_doc cfg d]> M) ∅ ds.
Proof. unfold reindexAll. rewrite fields_of_foldl_upsert. unfold fields_of. simpl. by rewrite fmap_empty. Qed.

(** C8: a query returns only indexed files whose tokens match it (one
    query term in "or" mode; at least one query term and every one
    exactly or by prefix in "and" mode), and, when the cap is at least the number of indexed
    files, every such file. *)
Theorem search_spec ix q mode limit :
  wf ix →
  (∀ mf, mf ∈ search cfg ix q mode limit →
     ∃ fs, fields_of ix !! mf_path mf = Some fs ∧ doc_matches cfg fs mode q) ∧
  (size (docs ix) ≤ limit → ∀ p fs, fields_of ix !! p = Some fs → doc_matches cfg fs mode q →
     ∃ mf, mf ∈ search cfg ix q mode limit ∧ mf_path mf = p).
Proof.
  intros Hw. rewrite search_eq_ref by done. split; [apply ref_search_sound|].
  intros Hl p fs Hp Hm. eexists. split.
  - apply ref_search_complete; [|done..]. by rewrite size_fields_of.
  - done.
Qed.

(** C9: once a path is removed, the engine the search service calls
    never returns it. *)
Theorem removed_never_returned ix p q mode :
  wf ix → Forall (λ mf, mf_path mf ≠ p) (@searchFiles _ _ (lexicalEngine cfg) (remove p ix) q mode).
Proof.
  intros Hw. apply Forall_forall. intros mf Hmf Hp. cbn [searchFiles lexicalEngine] in Hmf.
  rewrite search_eq_ref in Hmf by (by apply wf_remove).
  destruct (ref_search_sound cfg _ _ _ _ _ Hmf) as (fs & Hfs & _).
  by rewrite fields_of_remove, Hp, lookup_delete_eq in Hfs.
Qed.

(** C10: when the vault has no more files than the result cap, every
    file the engine returns for an "and" query it also returns for the
    same "or" query. *)
Theorem and_subset_or ix q :
  wf ix → size (docs ix) ≤ maxItemResults →
  ∀ mf, mf ∈ @searchFiles _ _ (lexicalEngine cfg) ix q ModeAnd →
        mf ∈ @searchFiles _ _ (lexicalEngine cfg) ix q ModeOr.
Proof.
  intros Hw Hl mf. cbn [searchFiles lexicalEngine]. rewrite !search_eq_ref by done.
  intros (p & fs & Hp & [Hn Hall] & ->)%ref_search_elem.
  apply ref_search_complete; [by rewrite size_fields_of|done|].
  unfold doc_matches. destruct (parseQuery cfg q) as [|qt qts]; [done|].
  inversion Hall. constructor. by apply matches_strict_term.
Qed.

(** C11: rebuilding the engine from the same documents gives the same
    answers to every query, whatever it held before; in particular
    rebuilding twice answers as rebuilding once. *)
Theorem reindexAll_idempotent ds e1 e2 q mode :
  @searchFiles _ _ (lexicalEngine cfg) (@reIndexAll _ _ (lexicalEngine cfg) e1 (FromDocuments ds)) q mode
  = @searchFiles _ _ (lexicalEngine cfg) (@reIndexAll _ _ (lexicalEngine cfg) e2 (FromDocuments ds)) q mode.
Proof.
  cbn [searchFiles reIndexAll lexicalEngine].
  rewrite !search_eq_ref by apply wf_reindexAll. by rewrite !fields_of_reindexAll.
Qed.

(** Before the first build the index answers every query with no
    result, not with an error. *)
Theorem search_before_index_empty q mode limit : search cfg emptyIndex q mode limit = [].
Proof.
  rewrite search_eq_ref by apply wf_emptyIndex.
  unfold ref_search, ref_ranked, fields_of. simpl. rewrite fmap_empty, map_to_list_empty. by destruct limit.
Qed.

(** C14: an upsert is visible to the next query: the upserted path is
    returned exactly when its new tokens match the query. *)
Theorem upsert_visible ix d q mode limit :
  wf ix → size (docs ix) < limit →
  (∃ mf, mf ∈ search cfg (upsert cfg d ix) q mode limit ∧ mf_path mf = doc_path d)
  ↔ doc_matches cfg (tokenize_doc cfg d) mode q.
Proof.
  intros Hw Hl. rewrite search_eq_ref, fields_of_upsert by (by apply wf_upsert). split.
  - intros (mf & Hmf & Hp). destruct (ref_search_sound cfg _ _ _ _ _ Hmf) as (fs & Hfs & Hm).
    rewrite Hp, lookup_insert_eq in Hfs. by injection Hfs as ->.
  - intros Hm. eexists. split; [apply ref_search_complete; [|by rewrite lookup_insert_eq|done]|done].
    rewrite map_size_insert, size_fields_of. by destruct (fields_of ix !! doc_path d); simpl; lia.
Qed.

End Props.

Lemma wf_loadSnapshot s ix : wf (loadSnapshot s ix).
Proof.
  unfold loadSnapshot. induction (map_to_list s); simpl; [apply wf_clear|by apply wf_upsert_fields].
Qed.

Lemma fields_of_loadSnapshot s ix : fields_of (loadSnapshot s ix) = s.
Proof.
  rewrite <- (list_to_map_to_list s) at 2. unfold loadSnapshot.
  induction (map_to_list s) as [|[p fs] l IH]; simpl.
  - unfold fields_of. simpl. by rewrite fmap_empty.
  - by rewrite fields_of_upsert_fields, IH.
Qed.

Section EngineProps.
Context `{Segmenter} (cfg : TokenizerConfig).

(** Persisting the index and loading the snapshot into any index
    answers every query as the original index did. *)
Theorem snapshot_roundtrip ix e q mode limit :
  wf ix → search cfg (loadSnapshot (toSnapshot ix) e) q mode limit = search cfg ix q mode limit.
Proof.
  intros Hw. rewrite !search_eq_ref by (done || apply wf_loadSnapshot).
  by rewrite fields_of_loadSnapshot.
Qed.

(** C15: the vault search of SearchService.v run on this engine, after a
    start-up without a persisted snapshot, lists a file exactly when the
    query is not empty and the file is a vault document whose tokens
    match every query term exactly or by prefix (when the vault has at most
    [maxItemResults] documents); each item is the mistyped four-argument
    [FileItem]. *)
Theorem vault_search_end_to_end (TO_BE_IMPL : jstr) (h : Host Snapshot) (e : Index) (q p : jstr) :
  miniSearchData h = None → size (indexed_fields cfg (allIndexedDocuments h)) ≤ maxItemResults →
  FileItem LEXICAL p [] (JsString (js "nothing")) JsUndefined
    ∈ items (@SearchService.SearchService.searchInVault Snapshot Index (lexicalEngine cfg) TO_BE_IMPL
               (@SearchService.SearchService.initSearchEngines Snapshot Index (lexicalEngine cfg) h e).1 q)
  ↔ q ≠ [] ∧ ∃ fs, indexed_fields cfg (allIndexedDocuments h) !! p = Some fs ∧ doc_matches cfg fs ModeAnd q.
Proof.
  intros Hs Hl. unfold SearchService.SearchService.initSearchEngines. rewrite Hs. cbn [fst].
  unfold SearchService.SearchService.searchInVault. cbn [searchFiles reIndexAll lexicalEngine].
  rewrite search_eq_ref, fields_of_reindexAll by apply wf_reindexAll.
  fold (indexed_fields cfg (allIndexedDocuments h)). set (M := indexed_fields cfg _).
  case_decide as Hq0.
  { simpl. split; [set_solver|]. intros [Hq _]. by destruct q. }
  case_decide as Hm; simpl.
  - rewrite list_elem_of_fmap. split.
    + intros (mf & [= ->] & Hmf). destruct (ref_search_sound cfg _ _ _ _ _ Hmf) as (fs & ? & ?).
      split; [by destruct q|eauto].
    + intros [_ (fs & Hp & Hmat)].
      exists (to_matched (ref_score M (term_hits (elements (ref_terms M)) <$> parseQuery cfg q) (p, fs))).
      split; [done|]. by apply ref_search_complete.
  - split; [set_solver|]. intros [_ (fs & Hp & Hmat)]. exfalso.
    pose proof (ref_search_complete cfg M q ModeAnd _ p fs Hl Hp Hmat) as Hin.
    destruct (ref_search cfg M q ModeAnd maxItemResults); [set_solver|simpl in Hm; lia].
Qed.

End EngineProps.

(** ** The scenarios of spec section 8 *)

Abbreviation dcfg := (demo_config true).

#[local] Existing Instance demo_segmenter.

(** The query of [a.md] ("Projects", "alpha beta") and [b.md] ("Notes",
    "beta gamma"): "beta" in "or" mode returns both, "alpha beta" in "and"
    mode only [a.md]. *)
Example search_scenario :
  mf_path <$> @search demo_segmenter dcfg scenario_index (js "beta") ModeOr 30 = [js "a.md"; js "b.md"] ∧
  mf_path <$> @search demo_segmenter dcfg scenario_index (js "alpha beta") ModeAnd 30 = [js "a.md"].
Proof. split; vm_compute; reflexivity. Qed.

(** With a cap, "and" results need not be "or" results: [c.md], whose
    filename is "gamma", outranks [a.md] ("alpha gamma" in its content)
    in "or" mode and takes the only place. *)
Definition capped_index : Index :=
  @reindexAll demo_segmenter dcfg
    [mkIndexedDocument (js "a.md") (js "Projects") [] None (Some (js "alpha gamma"));
     mkIndexedDocument (js "c.md") (js "gamma") [] None None] emptyIndex.

Example and_or_capped_not_subset :
  mf_path <$> @search demo_segmenter dcfg capped_index (js "alpha gamma") ModeAnd 1 = [js "a.md"] ∧
  mf_path <$> @search demo_segmenter dcfg capped_index (js "alpha gamma") ModeOr 1 = [js "c.md"].
Proof. split; vm_compute; reflexivity. Qed.

Lemma scenario_wf : wf scenario_index.
Proof. apply wf_reindexAll. Qed.

Lemma search_spec_witness :
  wf scenario_index ∧
  ((∀ mf, mf ∈ @search demo_segmenter dcfg scenario_index (js "beta") ModeOr 30 →
     ∃ fs, fields_of scenario_index !! mf_path mf = Some fs ∧ doc_matches dcfg fs ModeOr (js "beta")) ∧
   (size (docs scenario_index) ≤ 30 → ∀ p fs, fields_of scenario_index !! p = Some fs →
     doc_matches dcfg fs ModeOr (js "beta") →
     ∃ mf, mf ∈ @search demo_segmenter dcfg scenario_index (js "beta") ModeOr 30 ∧ mf_path mf = p)).
Proof. split; [exact scenario_wf|exact (search_spec dcfg _ _ _ _ scenario_wf)]. Defined.

Lemma removed_never_returned_witness :
  wf scenario_index ∧
  Forall (λ mf, mf_path mf ≠ js "a.md")
    (@searchFiles _ _ (lexicalEngine dcfg) (remove (js "a.md") scenario_index) (js "alpha") ModeOr).
Proof. split; [exact scenario_wf|exact (removed_never_returned dcfg _ _ _ _ scenario_wf)]. Defined.

Lemma and_subset_or_witness :
  wf scenario_index ∧ size (docs scenario_index) ≤ maxItemResults ∧
  ∀ mf, mf ∈ @searchFiles _ _ (lexicalEngine dcfg) scenario_index (js "alpha beta") ModeAnd →
        mf ∈ @searchFiles _ _ (lexicalEngine dcfg) scenario_index (js "alpha beta") ModeOr.
Proof.
  assert (Hs : size (docs scenario_index) ≤ maxItemResults) by (vm_compute; lia).
  split; [exact scenario_wf|split; [exact Hs|exact (and_subset_or dcfg _ _ scenario_wf Hs)]].
Defined.

Lemma upsert_visible_witness :
  wf scenario_index ∧ size (docs scenario_index) < 30 ∧
  ((∃ mf, mf ∈ @search demo_segmenter dcfg (upsert dcfg scenario_a scenario_index) (js "gamma") ModeOr 30
          ∧ mf_path mf = doc_path scenario_a)
   ↔ doc_matches dcfg (tokenize_doc dcfg scenario_a) ModeOr (js "gamma")).
Proof.
  assert (Hs : size (docs scenario_index) < 30) by (vm_compute; lia).
  split; [exact scenario_wf|split; [exact Hs|exact (upsert_visible dcfg _ _ _ _ _ scenario_wf Hs)]].
Defined.

Lemma snapshot_roundtrip_witness :
  wf scenario_index ∧
  @search demo_segmenter dcfg (loadSnapshot (toSnapshot scenario_index) emptyIndex) (js "beta") ModeOr 30
  = @search demo_segmenter dcfg scenario_index (js "beta") ModeOr 30.
Proof. split; [exact scenario_wf|exact (snapshot_roundtrip dcfg _ _ _ _ _ scenario_wf)]. Defined.

Definition scenario_host : Host Snapshot :=
  mkHost (Some (js "a.md")) (λ _, []) [scenario_a; scenario_b] None.

Lemma vault_search_end_to_end_witness :
  miniSearchData scenario_host = None ∧
  size (@indexed_fields demo_segmenter dcfg (allIndexedDocuments scenario_host)) ≤ maxItemResults ∧
  (FileItem LEXICAL (js "a.md") [] (JsString (js "nothing")) JsUndefined
    ∈ items (@SearchService.SearchService.searchInVault Snapshot Index (@lexicalEngine demo_segmenter dcfg)
               (js "TO_BE_IMPL")
               (@SearchService.SearchService.initSearchEngines Snapshot Index (@lexicalEngine demo_segmenter dcfg)
                  scenario_host emptyIndex).1 (js "alpha beta"))
   ↔ js "alpha beta" ≠ [] ∧
     ∃ fs, @indexed_fields demo_segmenter dcfg (allIndexedDocuments scenario_host) !! js "a.md" = Some fs ∧
           doc_matches dcfg fs ModeAnd (js "alpha beta")).
Proof.
  assert (H1 : miniSearchData scenario_host = None) by reflexivity.
  assert (H2 : size (@indexed_fields demo_segmenter dcfg (allIndexedDocuments scenario_host)) ≤ maxItemResults)
    by (vm_compute; lia).
  split; [exact H1|split; [exact H2|exact (vault_search_end_to_end dcfg _ _ _ _ _ H1 H2)]].
Defined.

End LexicalEngine.
