(* ===== verification/Rebuild.v ===== *)
(** * Rebuild: full rebuilds, their cancellation and persisted snapshots

    The lexical engine (MiniSearch behind [LexicalEngine], not in the
    snapshot under src/) rebuilds its index asynchronously: the corpus is
    read file by file (spec 5: indexing suspends on bulk file reads), a
    file that cannot be read is skipped and counted (spec 7, Transient
    I/O failure), and the result replaces the index atomically at the end
    of the run.  A rebuild started while another is in flight supersedes
    it: both runs are tasks of the single-threaded scheduler, and the
    superseded one may still finish, but its result is discarded (spec 5,
    Cancellation).  Queries read only the committed index.

    The engine state is [Engine]: the committed index, the number of
    rebuilds started ([generation]), the running tasks and the failure
    count of the last committed run.  [sched_step] is one scheduler event:
    a rebuild starts, a task reads its next file, a task finishes, or a
    file event updates the committed index.  [reachable] is the set of
    states reachable from [initEngine], and [Inv] the invariant proved on
    it by rule induction: the committed index is well formed, and every
    task's private index is the index of the files it has read so far.

    [loadPersisted] is the start-up path of spec 6 and 7: a snapshot with
    the current version tag that deserializes is loaded; a missing one
    triggers a rebuild, an unusable one a rebuild with a warning. *)

From S2P Require Import Prelude SearchTypes Engines Tokenizer LexicalIndex LexicalSearch LexicalEngine.

Module Rebuild.
Import Tokenizer.Tokenizer LexicalIndex.LexicalIndex LexicalSearch.LexicalSearch LexicalEngine.LexicalEngine.

(** The outcome of reading one file of the corpus. *)
Inductive ReadResult := ReadOk (d : IndexedDocument) | ReadFailed (p : jstr).

Definition read_doc (r : ReadResult) : option IndexedDocument :=
  match r with ReadOk d => Some d | ReadFailed _ => None end.

Definition is_failed (r : ReadResult) : bool :=
  match r with ReadFailed _ => true | ReadOk _ => false end.

(** The documents a run indexes and the number of files it skips. *)
Definition read_docs (rs : list ReadResult) : list IndexedDocument := omap read_doc rs.
Definition read_failures (rs : list ReadResult) : nat := length (filter (λ r, is_failed r = true) rs).

(** A running rebuild: its generation, the corpus it was started with,
    the files it has still to read, its private index, its failures. *)
Record Build := mkBuild {
  b_gen : nat;
  b_src : list ReadResult;
  b_todo : list ReadResult;
  b_partial : Index;
  b_failed : nat
}.

Record Engine := mkEngine {
  committed : Index;
  generation : nat;
  tasks : list Build;
  lastFailures : nat
}.

Definition initEngine : Engine := mkEngine emptyIndex 0 [] 0.

Inductive Ev :=
  | StartRebuild (rs : list ReadResult)
  | ReadNext (i : nat)
  | Finish (i : nat)
  | FileUpsert (d : IndexedDocument)
  | FileRemove (p : jstr).

(** The events of the scheduler alone, without file events. *)
Definition sched_only (ev : Ev) : Prop :=
  match ev with ReadNext _ | Finish _ => True | _ => False end.

Section Sched.
Context `{Segmenter} (cfg : TokenizerConfig).

(** A task reads its next file: a document is indexed privately, a
    failed read is counted. *)
Definition advance (b : Build) : Build :=
  match b_todo b with
  | [] => b
  | ReadOk d :: rest => mkBuild (b_gen b) (b_src b) rest (upsert cfg d (b_partial b)) (b_failed b)
  | ReadFailed _ :: rest => mkBuild (b_gen b) (b_src b) rest (b_partial b) (S (b_failed b))
  end.

Definition sched_step (e : Engine) (ev : Ev) : Engine :=
  match ev with
  | StartRebuild rs =>
      let g := S (generation e) in
      mkEngine (committed e) g (tasks e ++ [mkBuild g rs rs (clear (committed e)) 0]) (lastFailures e)
  | ReadNext i =>
      match tasks e !! i with
      | Some b => mkEngine (committed e) (generation e) (<[i := advance b]> (tasks e)) (lastFailures e)
      | None => e
      end
  | Finish i =>
      match tasks e !! i with
      | Some b =>
          match b_todo b with
          | [] =>
              if decide (b_gen b = generation e)
              then mkEngine (b_partial b) (generation e) (delete i (tasks e)) (b_failed b)
              else mkEngine (committed e) (generation e) (delete i (tasks e)) (lastFailures e)
          | _ :: _ => e
          end
      | None => e
      end
  | FileUpsert d => mkEngine (upsert cfg d (committed e)) (generation e) (tasks e) (lastFailures e)
  | FileRemove p => mkEngine (remove p (committed e)) (generation e) (tasks e) (lastFailures e)
  end.

Definition sched_run (e : Engine) (evs : list Ev) : Engine := foldl sched_step e evs.

(** [searchFiles] reads the committed index only. *)
Definition query (e : Engine) (q : jstr) (mode : SearchMode) (limit : nat) : list MatchedFile :=
  search cfg (committed e) q mode limit.

Inductive reachable : Engine → Prop :=
  | reach_init : reachable initEngine
  | reach_step e ev : reachable e → reachable (sched_step e ev).

(** A task's private index is the index of the files it has read. *)
Definition build_ok (b : Build) : Prop :=
  ∃ done, b_src b = done ++ b_todo b ∧ wf (b_partial b) ∧
    fields_of (b_partial b) = indexed_fields cfg (read_docs done) ∧ b_failed b = read_failures done.

Definition Inv (e : Engine) : Prop :=
  wf (committed e) ∧ Forall build_ok (tasks e) ∧ Forall (λ b, b_gen b ≤ generation e) (tasks e).

End Sched.

(** ** Persisted snapshots with a version tag *)

(** The stored form: its version tag and its payload, [None] when it
    fails to deserialize. *)
Record Persisted := mkPersisted { p_version : nat; p_data : option Snapshot }.

Section Persist.
Context `{Segmenter} (cfg : TokenizerConfig) (currentVersion : nat).

(** The index at start-up and whether a warning is logged. *)
Definition loadPersisted (stored : option Persisted) (ds : list IndexedDocument) (ix : Index)
    : Index * bool :=
  match stored with
  | None => (reindexAll cfg ds ix, false)
  | Some st =>
      match p_data st with
      | Some s => if decide (p_version st = currentVersion) then (loadSnapshot s ix, false)
                  else (reindexAll cfg ds ix, true)
      | None => (reindexAll cfg ds ix, true)
      end
  end.

(** What [toJSON] stores. *)
Definition persist (ix : Index) : Persisted := mkPersisted currentVersion (Some (toSnapshot ix)).

End Persist.

(** ** Lemmas *)

Lemma read_docs_snoc done r : read_docs (done ++ [r]) = read_docs done ++ from_option (λ d, [d]) [] (read_doc r).
Proof. unfold read_docs. rewrite omap_app. by destruct r. Qed.

Lemma read_failures_snoc done r : read_failures (done ++ [r]) = read_failures done + if is_failed r then 1 else 0.
Proof. unfold read_failures. rewrite filter_app, length_app. by destruct r. Qed.

Section Lemmas.
Context `{Segmenter} (cfg : TokenizerConfig).

Lemma indexed_fields_snoc ds d :
  indexed_fields cfg (ds ++ [d]) = <[doc_path d := tokenize_doc cfg d]> (indexed_fields cfg ds).
Proof. unfold indexed_fields. by rewrite foldl_app. Qed.

Lemma build_ok_fresh g rs ix : build_ok cfg (mkBuild g rs rs (clear ix) 0).
Proof.
  exists []. split_and!; [done|apply wf_clear| |done]. unfold fields_of. simpl. by rewrite fmap_empty.
Qed.

Lemma advance_meta b : b_gen (advance cfg b) = b_gen b ∧ b_src (advance cfg b) = b_src b.
Proof. unfold advance. by repeat case_match. Qed.

Lemma advance_todo r rest b : b_todo b = r :: rest → b_todo (advance cfg b) = rest.
Proof. intros Ht. unfold advance. rewrite Ht. by destruct r. Qed.

Lemma build_ok_advance b : build_ok cfg b → build_ok cfg (advance cfg b).
Proof.
  intros (done & Hsrc & Hwf & Hf & Hn). unfold advance.
  destruct (b_todo b) as [|r rest] eqn:Ht; [exists done; rewrite Ht; by split_and!|]. exists (done ++ [r]).
  assert (Hs : b_src b = (done ++ [r]) ++ rest) by (rewrite Hsrc, ?Ht, <- app_assoc; done).
  destruct r as [d|p]; simpl; (split; [done|]);
    rewrite read_docs_snoc, read_failures_snoc, ?indexed_fields_snoc; simpl.
  - rewrite ?app_nil_r, ?indexed_fields_snoc, fields_of_upsert, Hf. split_and!; [by apply wf_upsert|done|lia].
  - rewrite ?app_nil_r. split_and!; [done|done|lia].
Qed.

(** A task that has read every file holds the index of its whole corpus. *)
Lemma build_ok_done b :
  build_ok cfg b → b_todo b = [] →
  wf (b_partial b) ∧ fields_of (b_partial b) = indexed_fields cfg (read_docs (b_src b)) ∧
  b_failed b = read_failures (b_src b).
Proof. intros (done & Hsrc & ?) Ht. rewrite Hsrc, Ht, app_nil_r. done. Qed.

Lemma Inv_init : Inv cfg initEngine.
Proof. split_and!; [apply wf_emptyIndex|constructor|constructor]. Qed.

Lemma Inv_step e ev : Inv cfg e → Inv cfg (sched_step cfg e ev).
Proof.
  intros (Hwf & Hok & Hgen). destruct ev as [rs|i|i|d|p]; simpl.
  - split_and!; [done|apply Forall_app; split; [done|constructor; [apply build_ok_fresh|done]]|].
    apply Forall_app. split; [|by constructor]. eapply Forall_impl; [done|]. simpl; lia.
  - destruct (tasks e !! i) as [b|] eqn:Hb; [|done].
    pose proof (advance_meta b) as [Hg _].
    split_and!; [done|apply Forall_insert; [done|apply build_ok_advance; by eapply Forall_lookup_1]|].
    apply Forall_insert; [done|]. rewrite Hg. by eapply (Forall_lookup_1 (λ b, b_gen b ≤ _)).
  - destruct (tasks e !! i) as [b|] eqn:Hb; [|done]. destruct (b_todo b) eqn:Ht; [|done].
    case_decide; (split_and!; [|by apply Forall_delete|by apply Forall_delete]); [|done].
    apply (build_ok_done b); [by eapply Forall_lookup_1|done].
  - split_and!; [by apply wf_upsert|done|done].
  - split_and!; [by apply wf_remove|done|done].
Qed.

Lemma reachable_Inv e : reachable cfg e → Inv cfg e.
Proof. induction 1; [apply Inv_init|by apply Inv_step]. Qed.

Lemma reachable_run e evs : reachable cfg e → reachable cfg (sched_run cfg e evs).
Proof. revert e. induction evs as [|ev evs IH]; intros e He; [done|]. apply IH. by constructor. Qed.

(** Two well-formed indexes with the same documents answer alike; an
    index of the documents of a corpus answers as its fresh rebuild. *)
Lemma search_fields_eq ix1 ix2 q mode limit :
  wf ix1 → wf ix2 → fields_of ix1 = fields_of ix2 →
  search cfg ix1 q mode limit = search cfg ix2 q mode limit.
Proof. intros H1 H2 Hf. by rewrite !search_eq_ref, Hf by done. Qed.

Lemma search_rebuild ix ds q mode limit :
  wf ix → fields_of ix = indexed_fields cfg ds →
  search cfg ix q mode limit = search cfg (reindexAll cfg ds emptyIndex) q mode limit.
Proof. intros Hw Hf. apply search_fields_eq; [done|apply wf_reindexAll|]. by rewrite fields_of_reindexAll. Qed.

(** The scheduler events of one task: its next [k] reads. *)
Lemma read_all i k e b :
  tasks e !! i = Some b → length (b_todo b) = k →
  ∃ b', tasks (sched_run cfg e (replicate k (ReadNext i))) !! i = Some b' ∧ b_todo b' = [] ∧
    b_gen b' = b_gen b ∧ b_src b' = b_src b ∧
    committed (sched_run cfg e (replicate k (ReadNext i))) = committed e ∧
    generation (sched_run cfg e (replicate k (ReadNext i))) = generation e.
Proof.
  revert e b. induction k as [|k IH]; intros e b Hb Hk.
  - exists b. destruct (b_todo b); [done|discriminate].
  - destruct (b_todo b) as [|r rest] eqn:Ht; [discriminate|]. simpl in Hk.
    change (sched_run cfg e (replicate (S k) (ReadNext i))) with
      (sched_run cfg (sched_step cfg e (ReadNext i)) (replicate k (ReadNext i))).
    destruct (IH (sched_step cfg e (ReadNext i)) (advance cfg b)) as (b' & Hb' & Ht' & Hg & Hs & Hc & Hgen).
    + simpl. rewrite Hb. apply list_lookup_insert_eq. by eapply lookup_lt_Some.
    + rewrite (advance_todo r rest); [lia|done].
    + assert (Hst : committed (sched_step cfg e (ReadNext i)) = committed e ∧
                      generation (sched_step cfg e (ReadNext i)) = generation e) by (simpl; by rewrite Hb).
      destruct (advance_meta b) as [Hg0 Hs0]. exists b'.
      split_and!; [done|done|congruence|congruence|by rewrite Hc, (proj1 Hst)|by rewrite Hgen, (proj2 Hst)].
Qed.

(** After [StartRebuild rs], only the rebuild of [rs] may commit. *)
Definition latest (rs : list ReadResult) (e0 e : Engine) : Prop :=
  Forall (λ b, b_gen b = generation e → b_src b = rs) (tasks e) ∧
  (fields_of (committed e) = fields_of (committed e0) ∨
   fields_of (committed e) = indexed_fields cfg (read_docs rs)).

Lemma latest_step rs e0 e ev :
  sched_only ev → Inv cfg e → latest rs e0 e →
  latest rs e0 (sched_step cfg e ev) ∧ generation (sched_step cfg e ev) = generation e.
Proof.
  intros Hev (Hwf & Hok & _) (Hl & Hc). destruct ev as [|i|i| |]; try done; simpl.
  - destruct (tasks e !! i) as [b|] eqn:Hb; [|done]. split; [|done]. split; [|done].
    apply Forall_insert; [done|]. destruct (advance_meta b) as [-> ->].
    exact (Forall_lookup_1 _ _ _ _ Hl Hb).
  - destruct (tasks e !! i) as [b|] eqn:Hb; [|done]. destruct (b_todo b) eqn:Ht; [|done].
    case_decide as Hg; (split; [|done]); (split; [by apply Forall_delete|]); [|done].
    right. simpl. rewrite (proj1 (proj2 (build_ok_done b (Forall_lookup_1 _ _ _ _ Hok Hb) Ht))).
    by rewrite (Forall_lookup_1 _ _ _ _ Hl Hb Hg).
Qed.

Lemma latest_run rs e0 e evs :
  Forall sched_only evs → reachable cfg e → latest rs e0 e →
  latest rs e0 (sched_run cfg e evs) ∧ generation (sched_run cfg e evs) = generation e.
Proof.
  intros Hevs. revert e. induction Hevs as [|ev evs Hev Hevs IH]; intros e He Hl; [done|].
  destruct (latest_step rs e0 e ev Hev (reachable_Inv e He) Hl) as [Hl' Hg].
  destruct (IH (sched_step cfg e ev)) as [? Hg']; [by constructor|done|]. split; [done|]. simpl. congruence.
Qed.

End Lemmas.

(** ** Properties *)

Section Props.
Context `{Segmenter} (cfg : TokenizerConfig).

(** A task of the current generation that has read every file commits
    atomically: from then on every query answers as a fresh rebuild from
    the files it could read, and the summary reports the files it
    skipped. *)
Theorem finish_commits_rebuild e i b :
  reachable cfg e → tasks e !! i = Some b → b_todo b = [] → b_gen b = generation e →
  (∀ q mode limit, query cfg (sched_step cfg e (Finish i)) q mode limit =
                   search cfg (reindexAll cfg (read_docs (b_src b)) emptyIndex) q mode limit) ∧
  lastFailures (sched_step cfg e (Finish i)) = read_failures (b_src b).
Proof.
  intros He Hb Ht Hg. destruct (reachable_Inv cfg e He) as (_ & Hok & _).
  destruct (build_ok_done cfg b (Forall_lookup_1 _ _ _ _ Hok Hb) Ht) as (Hwf & Hf & Hn).
  unfold query. simpl. rewrite Hb, Ht, decide_True by done. simpl.
  split; [intros; by apply search_rebuild|done].
Qed.

(** C16: once a rebuild of [rs] has started, no other rebuild ever commits,
    however the scheduler interleaves the running tasks: whatever rebuild
    was in flight is superseded, and queries answer either as before the
    start or as the rebuild of [rs], never from a partial index. *)
Theorem latest_rebuild_wins e rs evs :
  reachable cfg e → Forall sched_only evs →
  (∀ q mode limit, query cfg (sched_run cfg (sched_step cfg e (StartRebuild rs)) evs) q mode limit =
                   query cfg e q mode limit) ∨
  (∀ q mode limit, query cfg (sched_run cfg (sched_step cfg e (StartRebuild rs)) evs) q mode limit =
                   search cfg (reindexAll cfg (read_docs rs) emptyIndex) q mode limit).
Proof.
  intros He Hevs. set (e1 := sched_step cfg e (StartRebuild rs)).
  assert (He1 : reachable cfg e1) by by constructor.
  assert (Hl1 : latest cfg rs e e1).
  { destruct (reachable_Inv cfg e He) as (_ & _ & Hgen). split; [|by left]. simpl.
    apply Forall_app. split; [|constructor; [done|constructor]].
    eapply Forall_impl; [exact Hgen|]. intros b Hb Heq. simpl in Hb. lia. }
  destruct (latest_run cfg rs e e1 evs Hevs He1 Hl1) as [[_ [Hc|Hc]] _];
    destruct (reachable_Inv cfg _ (reachable_run cfg e1 evs He1)) as (Hwf & _);
    destruct (reachable_Inv cfg e He) as (Hwf0 & _); unfold query; [left|right]; intros q mode limit.
  - by apply search_fields_eq.
  - by apply search_rebuild.
Qed.

(** C17: a rebuild of the current generation terminates: after one read per
    remaining file and its finish, in any state where it is running, the
    index answers as a fresh rebuild from the files it could read. *)
Theorem rebuild_completes e i b :
  reachable cfg e → tasks e !! i = Some b → b_gen b = generation e →
  (∀ q mode limit,
     query cfg (sched_run cfg e (replicate (length (b_todo b)) (ReadNext i) ++ [Finish i])) q mode limit =
     search cfg (reindexAll cfg (read_docs (b_src b)) emptyIndex) q mode limit) ∧
  lastFailures (sched_run cfg e (replicate (length (b_todo b)) (ReadNext i) ++ [Finish i])) =
    read_failures (b_src b).
Proof.
  intros He Hb Hg.
  destruct (read_all cfg i _ e b Hb eq_refl) as (b' & Hb' & Ht' & Hg' & Hs' & _ & Hgen).
  unfold sched_run. rewrite foldl_app. fold (sched_run cfg e (replicate (length (b_todo b)) (ReadNext i))).
  rewrite <- Hs'. apply finish_commits_rebuild; [by apply reachable_run|done|done|congruence].
Qed.

End Props.

Section PersistProps.
Context `{Segmenter} (cfg : TokenizerConfig) (currentVersion : nat).

Lemma search_reindexAll_any ds ix q mode limit :
  search cfg (reindexAll cfg ds ix) q mode limit = search cfg (reindexAll cfg ds emptyIndex) q mode limit.
Proof. apply search_rebuild; [apply wf_reindexAll|apply fields_of_reindexAll]. Qed.

(** C18: a persisted snapshot that is missing, carries another version tag or
    fails to deserialize causes a full rebuild, with a warning in the
    last two cases, never a failure; a snapshot persisted by the current
    version from the same documents is loaded without a rebuild.  In
    every case the engine then answers as a fresh rebuild. *)
Theorem loadPersisted_answers_as_rebuild stored ds ix q mode limit :
  (∀ st, stored = Some st →
     p_version st ≠ currentVersion ∨ p_data st = None ∨
     ∃ ix0, st = persist currentVersion (reindexAll cfg ds ix0)) →
  search cfg (loadPersisted cfg currentVersion stored ds ix).1 q mode limit =
    search cfg (reindexAll cfg ds emptyIndex) q mode limit ∧
  ((loadPersisted cfg currentVersion stored ds ix).2 = true ↔
     ∃ st, stored = Some st ∧ (p_version st ≠ currentVersion ∨ p_data st = None)).
Proof.
  intros Hst. destruct stored as [st|]; simpl; [|split; [apply search_reindexAll_any|naive_solver]].
  destruct (p_data st) as [s|] eqn:Hd; [case_decide as Hv|].
  - destruct (Hst st eq_refl) as [?|[?|[ix0 ->]]]; [done|congruence|]. simpl in Hd. injection Hd as <-.
    split; [|naive_solver].
    simpl. apply search_rebuild; [apply wf_loadSnapshot|]. by rewrite fields_of_loadSnapshot, fields_of_reindexAll.
  - split; [apply search_reindexAll_any|naive_solver].
  - split; [apply search_reindexAll_any|naive_solver].
Qed.

End PersistProps.

(** ** Scenarios on the documents of spec section 8 *)

#[local] Existing Instance demo_segmenter.

Definition corpus : list ReadResult := [ReadOk scenario_a; ReadFailed (js "c.md"); ReadOk scenario_b].

(** The engine after a rebuild of [a.md] alone was started, and then one
    of [corpus]: two tasks are running. *)
Definition two_rebuilds : Engine :=
  sched_run dcfg initEngine [StartRebuild [ReadOk scenario_a]; StartRebuild corpus].

(** Queries before the first commit find nothing (spec 7, IndexNotReady);
    the superseded rebuild finishes first and is discarded; the rebuild
    of [corpus] then commits, having skipped the unreadable [c.md]. *)
Example superseded_rebuild_discarded :
  query dcfg (sched_run dcfg two_rebuilds [ReadNext 0; ReadNext 1]) (js "beta") ModeOr 30 = [] ∧
  query dcfg (sched_run dcfg two_rebuilds [ReadNext 0; Finish 0]) (js "alpha") ModeOr 30 = [] ∧
  mf_path <$> query dcfg (sched_run dcfg two_rebuilds [ReadNext 0; Finish 0; ReadNext 0; ReadNext 0; ReadNext 0; Finish 0])
                 (js "beta") ModeOr 30 = [js "a.md"; js "b.md"] ∧
  lastFailures (sched_run dcfg two_rebuilds [ReadNext 0; Finish 0; ReadNext 0; ReadNext 0; ReadNext 0; Finish 0]) = 1.
Proof. split_and!; vm_compute; reflexivity. Qed.

(** A file event during a rebuild reaches the committed index and is
    visible at once, but the commit replaces the whole index: the upsert
    of [b.md] is lost when the rebuild of [a.md] alone commits. *)
Example upsert_during_rebuild_lost :
  mf_path <$> query dcfg (sched_run dcfg initEngine
     [StartRebuild [ReadOk scenario_a]; FileUpsert scenario_b; ReadNext 0]) (js "gamma") ModeOr 30 = [js "b.md"] ∧
  query dcfg (sched_run dcfg initEngine
     [StartRebuild [ReadOk scenario_a]; FileUpsert scenario_b; ReadNext 0; Finish 0]) (js "gamma") ModeOr 30 = [].
Proof. split; vm_compute; reflexivity. Qed.

Lemma latest_rebuild_wins_witness :
  reachable dcfg (sched_run dcfg initEngine [StartRebuild [ReadOk scenario_a]]) ∧
  Forall sched_only [ReadNext 0; ReadNext 1; Finish 0; ReadNext 0; ReadNext 0; Finish 0] ∧
  ((∀ q mode limit,
      query dcfg (sched_run dcfg (sched_step dcfg (sched_run dcfg initEngine [StartRebuild [ReadOk scenario_a]])
                                   (StartRebuild corpus))
                   [ReadNext 0; ReadNext 1; Finish 0; ReadNext 0; ReadNext 0; Finish 0]) q mode limit =
      query dcfg (sched_run dcfg initEngine [StartRebuild [ReadOk scenario_a]]) q mode limit) ∨
   (∀ q mode limit,
      query dcfg (sched_run dcfg (sched_step dcfg (sched_run dcfg initEngine [StartRebuild [ReadOk scenario_a]])
                                   (StartRebuild corpus))
                   [ReadNext 0; ReadNext 1; Finish 0; ReadNext 0; ReadNext 0; Finish 0]) q mode limit =
      search dcfg (reindexAll dcfg (read_docs corpus) emptyIndex) q mode limit)).
Proof.
  assert (H1 : reachable dcfg (sched_run dcfg initEngine [StartRebuild [ReadOk scenario_a]]))
    by (apply reachable_run, reach_init).
  assert (H2 : Forall sched_only [ReadNext 0; ReadNext 1; Finish 0; ReadNext 0; ReadNext 0; Finish 0])
    by repeat constructor.
  split; [exact H1|]. split; [exact H2|]. exact (latest_rebuild_wins dcfg _ corpus _ H1 H2).
Defined.

Lemma rebuild_completes_witness :
  reachable dcfg (sched_run dcfg initEngine [StartRebuild corpus]) ∧
  tasks (sched_run dcfg initEngine [StartRebuild corpus]) !! 0 = Some (mkBuild 1 corpus corpus (clear emptyIndex) 0) ∧
  b_gen (mkBuild 1 corpus corpus (clear emptyIndex) 0) = generation (sched_run dcfg initEngine [StartRebuild corpus]) ∧
  lastFailures (sched_run dcfg (sched_run dcfg initEngine [StartRebuild corpus])
                  (replicate (length corpus) (ReadNext 0) ++ [Finish 0])) = read_failures corpus.
Proof.
  assert (H1 : reachable dcfg (sched_run dcfg initEngine [StartRebuild corpus])) by (apply reachable_run, reach_init).
  assert (H2 : tasks (sched_run dcfg initEngine [StartRebuild corpus]) !! 0 =
               Some (mkBuild 1 corpus corpus (clear emptyIndex) 0)) by reflexivity.
  assert (H3 : b_gen (mkBuild 1 corpus corpus (clear emptyIndex) 0) =
               generation (sched_run dcfg initEngine [StartRebuild corpus])) by reflexivity.
  split; [exact H1|]. split; [exact H2|]. split; [exact H3|].
  exact (proj2 (rebuild_completes dcfg _ _ _ H1 H2 H3)).
Defined.

Lemma loadPersisted_answers_as_rebuild_witness :
  (∀ st, Some (mkPersisted 0 (Some ∅)) = Some st →
     p_version st ≠ 1 ∨ p_data st = None ∨ ∃ ix0, st = persist 1 (reindexAll dcfg [scenario_a; scenario_b] ix0)) ∧
  search dcfg (loadPersisted dcfg 1 (Some (mkPersisted 0 (Some ∅))) [scenario_a; scenario_b] emptyIndex).1
    (js "beta") ModeOr 30 = search dcfg (reindexAll dcfg [scenario_a; scenario_b] emptyIndex) (js "beta") ModeOr 30 ∧
  ((loadPersisted dcfg 1 (Some (mkPersisted 0 (Some ∅))) [scenario_a; scenario_b] emptyIndex).2 = true ↔
     ∃ st, Some (mkPersisted 0 (Some ∅)) = Some st ∧ (p_version st ≠ 1 ∨ p_data st = None)).
Proof.
  assert (H : ∀ st, Some (mkPersisted 0 (Some ∅)) = Some st →
     p_version st ≠ 1 ∨ p_data st = None ∨ ∃ ix0, st = persist 1 (reindexAll dcfg [scenario_a; scenario_b] ix0))
    by (intros st [= <-]; left; simpl; lia).
  split; [exact H|]. exact (loadPersisted_answers_as_rebuild dcfg 1 _ _ _ _ _ _ H).
Defined.

End Rebuild.
